(** * versionUtils: version classification and tag filtering of vscode-versionlens

    Shallow embedding of [common/versionUtils.js] (the version map builder,
    the tag resolver and the tag filter pipeline) together with the part of
    the [semver] package the file calls into.

    JavaScript exceptions are explicit: a function that can raise returns a
    [result].  Arrays are lists; the in-place operations ([push], [sort]) are
    modelled a second time over an explicit store in module [Heap], where the
    absence of mutation of the caller's array is proved. *)

From stdpp Require Import base tactics option list strings gmap.
From Stdlib Require Import Ascii String NArith ZArith DecimalString Sorted Permutation
  OrderedTypeEx Lia.

Local Open Scope string_scope.
Local Open Scope list_scope.

(** ** JavaScript values, exceptions and string primitives *)

(** The three kinds of value that the flags of a resolved tag can hold:
    [a && b] evaluates to [a] when [a] is falsy, so a flag built with [&&]
    may be [null] or a string rather than a boolean. *)
Inductive value : Type :=
| VNull
| VBool (b : bool)
| VString (s : string).

Definition truthy (v : value) : bool :=
  match v with
  | VNull => false
  | VBool b => b
  | VString s => negb (String.eqb s "")
  end.

(** [!s] for a string-or-null. *)
Definition falsy_string (o : option string) : bool :=
  match o with
  | None => true
  | Some s => String.eqb s ""
  end.

(** Every exception in this code is a [TypeError]; the constructor records
    which operation raised it. *)
Inductive exn : Type :=
| InvalidVersion (raw : string)
| InvalidRange (raw : string)
| UndefinedProperty (prop : string).

Inductive result (A : Type) : Type :=
| Ok (a : A)
| Throw (e : exn).
Arguments Ok {A} a.
Arguments Throw {A} e.

Definition bind {A B} (m : result A) (f : A -> result B) : result B :=
  match m with
  | Ok a => f a
  | Throw e => Throw e
  end.

Notation "'let!' x ':=' m 'in' k" := (bind m (fun x => k))
  (at level 10, x name, m at level 100, k at level 200).

(** [try { m } catch (err) { h }] *)
Definition try_catch {A} (m : result A) (h : exn -> result A) : result A :=
  match m with
  | Ok a => Ok a
  | Throw e => h e
  end.

Definition returns {A} (m : result A) : Prop := exists a, m = Ok a.

(** [Array.prototype.filter] with a callback that may raise: elements are
    visited in order and the first exception aborts the call. *)
Fixpoint Array_filter {A} (p : A -> result bool) (l : list A) : result (list A) :=
  match l with
  | [] => Ok []
  | x :: l' =>
      let! b := p x in
      let! r := Array_filter p l' in
      Ok (if b then x :: r else r)
  end.

(** [Array.prototype.sort(cmp)].  ECMAScript leaves the algorithm to the
    engine; it is modelled as a stable insertion sort that calls the
    comparator and stops at the first exception. *)
Fixpoint sort_insert {A} (cmp : A -> A -> result Z) (x : A) (l : list A)
  : result (list A) :=
  match l with
  | [] => Ok [x]
  | y :: l' =>
      let! c := cmp x y in
      if (c <=? 0)%Z then Ok (x :: y :: l')
      else let! r := sort_insert cmp x l' in Ok (y :: r)
  end.

Fixpoint Array_sort {A} (cmp : A -> A -> result Z) (l : list A) : result (list A) :=
  match l with
  | [] => Ok []
  | x :: l' => let! s := Array_sort cmp l' in sort_insert cmp x s
  end.

(** [String.prototype.includes] *)
Fixpoint includes (s sub : string) : bool :=
  if String.prefix sub s then true
  else match s with
       | EmptyString => false
       | String _ s' => includes s' sub
       end.

Fixpoint string_drop (n : nat) (s : string) : string :=
  match n, s with
  | O, _ => s
  | S n', String _ s' => string_drop n' s'
  | S _, EmptyString => EmptyString
  end.

(** [s.replace(pat, '')] with a string pattern: the first occurrence of
    [pat] is removed. *)
Fixpoint replace_first (pat s : string) : string :=
  if String.prefix pat s then string_drop (String.length pat) s
  else match s with
       | EmptyString => EmptyString
       | String c s' => String c (replace_first pat s')
       end.

(** [s.replace(/[\^~]/, '')]: the regular expression has no [g] flag, so
    only the first caret or tilde is removed. *)
Fixpoint replace_caret_tilde (s : string) : string :=
  match s with
  | EmptyString => EmptyString
  | String c s' =>
      if (Ascii.eqb c "^" || Ascii.eqb c "~")%char then s'
      else String c (replace_caret_tilde s')
  end.

Definition lower_ascii (c : ascii) : ascii :=
  let n := nat_of_ascii c in
  if (65 <=? n)%nat && (n <=? 90)%nat then ascii_of_nat (n + 32) else c.

(** [String.prototype.toLowerCase] on ASCII text: the 26 capitals are
    lowered.  The texts lowered below are matches inside a prerelease
    identifier, which the grammar keeps to ASCII, or names the statements
    take to be ASCII. *)
Fixpoint toLowerCase (s : string) : string :=
  match s with
  | EmptyString => EmptyString
  | String c s' => String (lower_ascii c) (toLowerCase s')
  end.

(** [Array.prototype.join] on strings. *)
Fixpoint join (sep : string) (l : list string) : string :=
  match l with
  | [] => ""
  | [x] => x
  | x :: l' => x ++ sep ++ join sep l'
  end.

(** Decimal rendering of a number, as [String(n)] does below 2^53. *)
Definition N_to_string (n : N) : string := NilZero.string_of_uint (N.to_uint n).

(** ** The [semver] package

    The data model and the functions of the external [semver] package that
    [versionUtils.js] calls.  The grammar of versions and ranges (the regular
    expressions of the package) is a parameter, [Grammar]; comparison, range
    membership and the exported functions are written out over the parsed
    forms, so that what is proved below holds for any release of the
    package.  A concrete grammar is given further down. *)
Module semver.

(** A prerelease identifier.  [Numeric n] is an all-digit identifier of
    value [n]: the constructor turns it into a number below
    [MAX_SAFE_INTEGER] and keeps its text from there on. *)
Inductive identifier : Type :=
| Numeric (n : N)
| Alphanumeric (s : string).

(** A parsed version.  Build metadata takes no part in any comparison and
    is left out. *)
Record SemVer : Type := mkSemVer {
  major : N;
  minor : N;
  patch : N;
  prerelease_ids : list identifier
}.

(** The text of an identifier in [join] and in [exec]: the digits of an
    all-digit one, which has no leading zero. *)
Definition identifier_to_string (i : identifier) : string :=
  match i with
  | Numeric n => N_to_string n
  | Alphanumeric s => s
  end.

(** [+a] for an all-digit identifier [a], as a natural number: the nearest
    double, ties to the even mantissa, so every number up to 2^53 is itself
    and [9007199254740993] becomes [9007199254740992].  What rounds to 2^1024
    or more is [Infinity], written 2^1024: it equals itself and is above
    every other number, which is all [compareIdentifiers] asks of it. *)
Definition to_number (n : N) : N :=
  let bits := N.size n in
  if (bits <=? 53)%N then n
  else
    let s := (bits - 53)%N in
    let q := N.shiftr n s in
    let r := (n mod 2 ^ s)%N in
    let half := (2 ^ (s - 1))%N in
    let q := if (half <? r)%N || ((half =? r)%N && N.odd q) then (q + 1)%N else q in
    N.min (N.shiftl q s) (2 ^ 1024).

(** [a === b] on two identifiers.  The constructor keeps an all-digit
    identifier as a number below [MAX_SAFE_INTEGER] and as its text from
    there on, and the grammar allows no leading zero: two of them are
    identical exactly when they are the same number. *)
Definition identifier_eqb (a b : identifier) : bool :=
  match a, b with
  | Numeric x, Numeric y => N.eqb x y
  | Alphanumeric x, Alphanumeric y => String.eqb x y
  | _, _ => false
  end.

(** [compareIdentifiers]: numbers before words, words by code unit, and two
    all-digit identifiers by value after [a = +a; b = +b]. *)
Definition compareIdentifiers (a b : identifier) : comparison :=
  match a, b with
  | Numeric x, Numeric y => N.compare (to_number x) (to_number y)
  | Numeric _, Alphanumeric _ => Lt
  | Alphanumeric _, Numeric _ => Gt
  | Alphanumeric x, Alphanumeric y => String.compare x y
  end.

(** [compareMain]; the three numbers are bounded by [MAX_SAFE_INTEGER] in
    the constructor, where [compareIdentifiers] is the comparison of
    numbers. *)
Definition compareMain (a b : SemVer) : comparison :=
  match N.compare (major a) (major b) with
  | Eq => match N.compare (minor a) (minor b) with
          | Eq => N.compare (patch a) (patch b)
          | c => c
          end
  | c => c
  end.

(** The [do ... while (++i)] loop of [comparePre]: it goes on to the next
    position only when the two identifiers are identical ([a === b]), and
    returns [compareIdentifiers(a, b)] otherwise, also when that is 0. *)
Fixpoint compare_ids (a b : list identifier) : comparison :=
  match a, b with
  | [], [] => Eq
  | _ :: _, [] => Gt
  | [], _ :: _ => Lt
  | x :: a', y :: b' =>
      if identifier_eqb x y then compare_ids a' b'
      else compareIdentifiers x y
  end.

(** [comparePre]: a version without prerelease is above one with. *)
Definition comparePre (a b : SemVer) : comparison :=
  match prerelease_ids a, prerelease_ids b with
  | _ :: _, [] => Lt
  | [], _ :: _ => Gt
  | [], [] => Eq
  | x, y => compare_ids x y
  end.

(** [SemVer.prototype.compare] *)
Definition compare (a b : SemVer) : comparison :=
  match compareMain a b with
  | Eq => comparePre a b
  | c => c
  end.

Definition ltb (a b : SemVer) : bool := match compare a b with Lt => true | _ => false end.
Definition gtb (a b : SemVer) : bool := match compare a b with Gt => true | _ => false end.
Definition gteb (a b : SemVer) : bool := negb (ltb a b).
Definition lteb (a b : SemVer) : bool := negb (gtb a b).
Definition eqb (a b : SemVer) : bool := match compare a b with Eq => true | _ => false end.

(** The operator of a comparator; ['='] is stored as [''] ([OpEq]). *)
Inductive operator : Type := OpEq | OpLt | OpLte | OpGt | OpGte.

(** A comparator is either [ANY] (it came from the empty string; its
    [operator] property is [undefined], [None], in the 5.x releases and ['']
    in later ones) or an operator with a version. *)
Inductive Comparator : Type :=
| ANY (operator : option operator)
| Cmp (operator : operator) (semver : SemVer).

Definition Comparator_operator (c : Comparator) : option operator :=
  match c with
  | ANY o => o
  | Cmp o _ => Some o
  end.

(** A set of comparators is never empty: the [Range] constructor drops the
    empty ones and raises when none is left. *)
Definition comparators : Type := Comparator * list Comparator.

Definition to_list {A} (s : A * list A) : list A := fst s :: snd s.

(** A parsed range: [range] is the formatted text, [set] the disjunction of
    comparator sets, itself not empty. *)
Record Range : Type := mkRange {
  range : string;
  set : comparators * list comparators
}.

(** [cmp(a, op, b)] *)
Definition cmp (a : SemVer) (op : operator) (b : SemVer) : bool :=
  match op with
  | OpEq => eqb a b
  | OpLt => ltb a b
  | OpLte => lteb a b
  | OpGt => gtb a b
  | OpGte => gteb a b
  end.

(** [Comparator.prototype.test] on a parsed version. *)
Definition Comparator_test (c : Comparator) (version : SemVer) : bool :=
  match c with
  | ANY _ => true
  | Cmp op sv => cmp version op sv
  end.

Definition same_tuple (a b : SemVer) : bool :=
  N.eqb (major a) (major b) && N.eqb (minor a) (minor b) && N.eqb (patch a) (patch b).

(** [testSet]: every comparator accepts the version, and a prerelease
    version is only accepted when some comparator names a prerelease of the
    same [major.minor.patch]. *)
Definition testSet (cs : list Comparator) (version : SemVer) : bool :=
  forallb (fun c => Comparator_test c version) cs &&
  match prerelease_ids version with
  | [] => true
  | _ :: _ =>
      existsb (fun c => match c with
                        | ANY _ => false
                        | Cmp _ sv =>
                            match prerelease_ids sv with
                            | [] => false
                            | _ :: _ => same_tuple sv version
                            end
                        end) cs
  end.

(** [Range.prototype.test] on a parsed version. *)
Definition Range_test_SemVer (r : Range) (version : SemVer) : bool :=
  existsb (fun cs => testSet (to_list cs) version) (to_list (set r)).

Definition zero : SemVer := mkSemVer 0 0 0 [].

(** In [outside], an [ANY] comparator is replaced by [>=0.0.0]. *)
Definition edge (c : Comparator) : operator * SemVer :=
  match c with
  | ANY _ => (OpGte, zero)
  | Cmp o v => (o, v)
  end.

(** One turn of the [forEach] of [outside] in the ['<'] direction, where
    [gtfn = lt] and [ltfn = gt]: [high] ends as the comparator with the
    lowest version and [low] as the one with the highest. *)
Definition outside_step (hl : (operator * SemVer) * (operator * SemVer))
  (c : operator * SemVer) : (operator * SemVer) * (operator * SemVer) :=
  let (high, low) := hl in
  if ltb (snd c) (snd high) then (c, low)
  else if gtb (snd c) (snd low) then (high, c)
  else (high, low).

(** The body of the [for] loop of [outside] for one comparator set, in the
    ['<'] direction: [true] when the body executes [return false].  [high]
    and [low] start as the first comparator, which is what
    [high = high || comparator] makes of them on the first turn. *)
Definition inside_lt (version : SemVer) (cs : comparators) : bool :=
  let c0 := edge (fst cs) in
  let (high, low) := fold_left outside_step (map edge (to_list cs)) (c0, c0) in
  match fst high with
  | OpLt | OpLte => true
  | _ =>
      match fst low with
      | OpEq | OpLt => gteb version (snd low)
      | OpLte => gtb version (snd low)
      | _ => false
      end
  end.

(** [outside(version, range, '<')] on parsed arguments. *)
Definition outside_lt (version : SemVer) (r : Range) : bool :=
  if Range_test_SemVer r version then false
  else negb (existsb (inside_lt version) (to_list (set r))).

(** The grammar of the package.
    - [SemVer_new s] is [new SemVer(s)]; [None] when it raises.
    - [parse s] is [semver.parse(s)]; [None] for [null].
    - [Range_new s] is [new Range(s)]; [None] when it raises.
    - [test_invalid] is what [Range.prototype.test] does with a non-empty
      string that is not a version: in the 5.x releases the [TypeError] of
      [new SemVer] escapes, later releases catch it and return [false]. *)
Class Grammar : Type := {
  SemVer_new : string -> option SemVer;
  parse : string -> option SemVer;
  Range_new : string -> option Range;
  test_invalid : string -> result bool
}.

Section API.
Context `{G : Grammar}.

Definition new_SemVer (s : string) : result SemVer :=
  match SemVer_new s with
  | Some v => Ok v
  | None => Throw (InvalidVersion s)
  end.

Definition new_Range (s : string) : result Range :=
  match Range_new s with
  | Some r => Ok r
  | None => Throw (InvalidRange s)
  end.

(** [semver.prerelease(version)]: the prerelease components, or [null]
    when the version does not parse or has none. *)
Definition prerelease (version : string) : option (list identifier) :=
  match parse version with
  | Some v => match prerelease_ids v with
              | [] => None
              | ids => Some ids
              end
  | None => None
  end.

(** [semver.validRange(range)]: [new Range(range).range || '*'], or [null]
    when the constructor raises. *)
Definition validRange (r : string) : option string :=
  match Range_new r with
  | Some rg => Some (if String.eqb (range rg) "" then "*" else range rg)
  | None => None
  end.

(** [semver.lt(a, b)] and [semver.gt(a, b)]: both arguments go through
    [new SemVer], [a] first. *)
Definition lt (a b : string) : result bool :=
  let! va := new_SemVer a in
  let! vb := new_SemVer b in
  Ok (ltb va vb).

Definition gt (a b : string) : result bool :=
  let! va := new_SemVer a in
  let! vb := new_SemVer b in
  Ok (gtb va vb).

(** [semver.ltr(version, range)] is [outside(version, range, '<')]. *)
Definition ltr (version r : string) : result bool :=
  let! v := new_SemVer version in
  let! rg := new_Range r in
  Ok (outside_lt v rg).

(** [Range.prototype.test(version)] on a string or [null]. *)
Definition Range_test (r : Range) (version : option string) : result bool :=
  if falsy_string version then Ok false
  else match version with
       | None => Ok false
       | Some s =>
           match SemVer_new s with
           | Some v => Ok (Range_test_SemVer r v)
           | None => test_invalid s
           end
       end.

(** [semver.satisfies(version, range)]: an invalid range gives [false]. *)
Definition satisfies (version : option string) (r : string) : result bool :=
  match Range_new r with
  | None => Ok false
  | Some rg => Range_test rg version
  end.

(** One turn of the [forEach] of [maxSatisfying]; the state is [max]
    together with [maxSV]. *)
Definition maxSatisfying_step (rangeObj : Range) (st : option (string * SemVer))
  (v : string) : result (option (string * SemVer)) :=
  let! ok := Range_test rangeObj (Some v) in
  if ok then
    match st with
    | None => let! sv := new_SemVer v in Ok (Some (v, sv))
    | Some (max, maxSV) =>
        let! other := new_SemVer v in
        if ltb maxSV other then Ok (Some (v, other)) else Ok st
    end
  else Ok st.

Fixpoint maxSatisfying_loop (rangeObj : Range) (versions : list string)
  (st : option (string * SemVer)) : result (option (string * SemVer)) :=
  match versions with
  | [] => Ok st
  | v :: rest =>
      let! st' := maxSatisfying_step rangeObj st v in
      maxSatisfying_loop rangeObj rest st'
  end.

(** [semver.maxSatisfying(versions, range)] *)
Definition maxSatisfying (versions : list string) (r : string) : result (option string) :=
  match Range_new r with
  | None => Ok None
  | Some rangeObj =>
      let! st := maxSatisfying_loop rangeObj versions None in
      Ok (option_map fst st)
  end.

End API.
End semver.

(** ** [utils.js]

    [versionUtils.js] imports [formatTagNameRegex] and [sortDescending] from
    [utils.js]. *)

(** Modelled from the spec: [sortDescending] of [utils.js], which
    [sortTagsByRecentVersion] uses to break ties, is "a descending lexical
    comparison" of its two arguments: -1 when the first is lexically
    greater, 1 when it is smaller, 0 when they are equal. *)
Definition sortDescending (a b : string) : Z :=
  match String.compare a b with
  | Gt => (-1)%Z
  | Lt => 1%Z
  | Eq => 0%Z
  end.

(** ** Data model of [versionUtils.js] *)

Record TaggedVersion : Type := mkTag {
  name : string;
  version : string
}.

Record VersionMap : Type := mkVersionMap {
  releases : list string;
  taggedVersions : list TaggedVersion;
  maxSatisfyingVersion : option string
}.

Record VersionInfo : Type := mkVersionInfo {
  info_version : string;
  isPrerelease : bool;
  prereleaseGroup : string
}.

(** The ["satisfies"] entry built by [buildTagsFromVersionMap]. *)
Record SatisfiesEntry : Type := mkSatisfiesEntry {
  se_version : option string;
  se_isNewerThanLatest : value;
  se_isLatestVersion : bool;
  se_satisfiesLatest : bool;
  se_isInvalid : bool;
  se_versionMatchNotFound : bool;
  se_isFixedVersion : value;
  se_isPrimaryTag : bool
}.

(** The ["latest"] entry built by [buildTagsFromVersionMap]. *)
Record LatestEntry : Type := mkLatestEntry {
  le_version : string;
  le_isOlderThanRequested : value
}.

(** An element of the array returned by [buildTagsFromVersionMap]. *)
Inductive ResolvedTag : Type :=
| Satisfies (e : SatisfiesEntry)
| Latest (e : LatestEntry)
| Tagged (t : TaggedVersion).

Definition tag_name (t : ResolvedTag) : string :=
  match t with
  | Satisfies _ => "satisfies"
  | Latest _ => "latest"
  | Tagged t => name t
  end.

Definition tag_version (t : ResolvedTag) : option string :=
  match t with
  | Satisfies e => se_version e
  | Latest e => Some (le_version e)
  | Tagged t => Some (version t)
  end.

(** [a && k] where [a] is a string or [null]: [a] itself when it is falsy,
    else what [k] evaluates to. *)
Definition string_and (a : option string) (k : string -> result value) : result value :=
  match a with
  | None => Ok VNull
  | Some s => if String.eqb s "" then Ok (VString "") else k s
  end.

(** ** The functions of [versionUtils.js] *)
Section versionUtils.
Context `{G : semver.Grammar}.

(** [formatTagNameRegex.exec(s)] of [utils.js]: [None] when the pattern
    does not match, else the matched text [regexResult[0]]. *)
Variable formatTagNameRegex_exec : string -> option string.

Definition removeExactVersions (this : list TaggedVersion) (v : option string)
  : list TaggedVersion :=
  List.filter (fun tag => negb (bool_decide (Some (version tag) = v))) this.

Definition removeTagsWithName (this : list TaggedVersion) (n : string)
  : list TaggedVersion :=
  List.filter (fun tag => negb (String.eqb (name tag) n)) this.

Definition isOlderVersion (version requestedVersion : string) : result bool :=
  let testVersion := version in
  let requestedVersionComponents := semver.prerelease requestedVersion in
  match requestedVersionComponents with
  | None =>
      let testVersionComponents := semver.prerelease testVersion in
      match testVersionComponents with
      | Some components =>
          let testVersion :=
            replace_first
              ("-" ++ join "." (map semver.identifier_to_string components))
              testVersion in
          let! older := semver.ltr testVersion requestedVersion in
          Ok (older || includes requestedVersion testVersion)
      | None => semver.ltr testVersion requestedVersion
      end
  | Some _ => semver.ltr testVersion requestedVersion
  end.

Definition removeOlderVersions (this : list TaggedVersion) (versionRange : string)
  : result (list TaggedVersion) :=
  Array_filter
    (fun tag => let! older := isOlderVersion (version tag) versionRange in
                Ok (negb older))
    this.

Definition resolveVersionAgainstTags (tags : list TaggedVersion)
  (tagName defaultVersion : string) : string :=
  match find (fun item => String.eqb (name item) tagName) tags with
  | Some tag => version tag
  | None => defaultVersion
  end.

Definition pluckSemverVersions (versions : list string) : list string :=
  List.filter (fun v => negb (falsy_string (semver.validRange v))) versions.

Definition parseVersion (version : string) : VersionInfo :=
  let prereleaseComponents := semver.prerelease version in
  match prereleaseComponents with
  | Some (first :: _) =>
      let prereleaseGroup :=
        match formatTagNameRegex_exec (semver.identifier_to_string first) with
        | Some regexResult => toLowerCase regexResult
        | None => ""
        end in
      mkVersionInfo version true prereleaseGroup
  | _ => mkVersionInfo version false ""
  end.

Definition isFixedVersion (versionToCheck : string) : result bool :=
  let! testRange := semver.new_Range versionToCheck in
  Ok match semver.Comparator_operator (fst (fst (semver.set testRange))) with
     | Some semver.OpEq => true
     | _ => false
     end.

Definition sortTagsByRecentVersion (tagA tagB : TaggedVersion) : result Z :=
  let a := version tagA in
  let b := version tagB in
  let! less := semver.lt a b in
  if less then Ok 1%Z
  else
    let! greater := semver.gt a b in
    if greater then Ok (-1)%Z
    else Ok (sortDescending (name tagA) (name tagB)).

(** [pluckTagsAndReleases]; the [maxSatisfyingVersion] property of the
    object it returns is not set yet. *)
Definition pluckTagsAndReleases (versions : list string) : VersionMap :=
  let parsedVersions := map parseVersion versions in
  let step (acc : list string * list TaggedVersion) (versionInfo : VersionInfo) :=
    if negb (isPrerelease versionInfo)
    then (fst acc ++ [info_version versionInfo], snd acc)
    else (fst acc, snd acc ++ [mkTag (prereleaseGroup versionInfo) (info_version versionInfo)]) in
  let acc := fold_left step parsedVersions ([], []) in
  mkVersionMap (fst acc) (snd acc) None.

Definition reduceTagsByUniqueNames (this : list TaggedVersion) : list TaggedVersion :=
  fold_left
    (fun unique current =>
       if negb (existsb (fun x => String.eqb (name x) (name current)) unique)
       then unique ++ [current]
       else unique)
    this [].

Definition removeAmbiguousTagNames (this : list TaggedVersion) : list TaggedVersion :=
  fold_left
    (fun results current =>
       match formatTagNameRegex_exec (name current) with
       | None => results ++ [mkTag (name current) (version current)]
       | Some regexResult =>
           if (1 <? String.length regexResult)%nat
           then results ++ [mkTag (toLowerCase regexResult) (version current)]
           else results
       end)
    this [].

Definition filterTagsByName (taggedVersions : list ResolvedTag)
  (tagNamesToMatch : list string) : list ResolvedTag :=
  let lcNamesToMatch := map toLowerCase tagNamesToMatch in
  List.filter (fun tag => existsb (String.eqb (toLowerCase (tag_name tag))) lcNamesToMatch)
         taggedVersions.

Definition deduceMaxSatisfyingFromSemverList (semverList : list string)
  (requestedVersion : string) : result (option string) :=
  try_catch
    (semver.maxSatisfying semverList requestedVersion)
    (fun err => Ok (Some requestedVersion)).

Definition buildMapFromVersionList (versions : list string) (requestedVersion : string)
  : result VersionMap :=
  let semverList := pluckSemverVersions versions in
  let versionMap := pluckTagsAndReleases semverList in
  let! max := deduceMaxSatisfyingFromSemverList semverList requestedVersion in
  Ok (mkVersionMap (releases versionMap) (taggedVersions versionMap) max).

Definition applyTagFilterRules (taggedVersions : list TaggedVersion)
  (requestedVersion : string) (satisifiesVersion : option string)
  (latestVersion : string) (versionMatchNotFound : bool)
  : result (list TaggedVersion) :=
  let filterVersions := taggedVersions in
  let! filterVersions :=
    if negb (falsy_string (semver.validRange requestedVersion))
    then removeOlderVersions filterVersions requestedVersion
    else Ok filterVersions in
  let filterVersions := removeExactVersions filterVersions satisifiesVersion in
  let filterVersions := removeExactVersions filterVersions (Some latestVersion) in
  let! filterVersions :=
    if versionMatchNotFound
    then removeOlderVersions filterVersions latestVersion
    else Ok filterVersions in
  let filterVersions := removeAmbiguousTagNames filterVersions in
  let filterVersions := reduceTagsByUniqueNames filterVersions in
  let filterVersions := removeTagsWithName filterVersions "latest" in
  Array_sort sortTagsByRecentVersion filterVersions.

(** [versionMap.releases[0] || versionMap.taggedVersions[0].version]: the
    first release unless there is none or it is the empty string; reading
    [version] of a missing first tag raises. *)
Definition first_version (versionMap : VersionMap) : result string :=
  let fallback :=
    match taggedVersions versionMap with
    | tag :: _ => Ok (version tag)
    | [] => Throw (UndefinedProperty "version")
    end in
  match releases versionMap with
  | r :: _ => if String.eqb r "" then fallback else Ok r
  | [] => fallback
  end.

Definition buildTagsFromVersionMap (versionMap : VersionMap) (requestedVersion : string)
  : result (list ResolvedTag) :=
  let isRequestedVersionValid := semver.validRange requestedVersion in
  let versionMatchNotFound := falsy_string (maxSatisfyingVersion versionMap) in
  let! latestVersion := first_version versionMap in
  let! isOlderThanRequested :=
    if negb versionMatchNotFound
    then string_and isRequestedVersionValid
           (fun _ =>
              let! v := first_version versionMap in
              let! older := isOlderVersion v requestedVersion in
              Ok (VBool older))
    else Ok (VBool false) in
  let latestEntry := mkLatestEntry latestVersion isOlderThanRequested in
  let! satisfiesLatest :=
    semver.satisfies (maxSatisfyingVersion versionMap) (le_version latestEntry) in
  let! isFixed :=
    string_and isRequestedVersionValid
      (fun _ => let! fixed := isFixedVersion requestedVersion in Ok (VBool fixed)) in
  let isLatestVersion :=
    satisfiesLatest &&
    String.eqb (replace_caret_tilde requestedVersion) (le_version latestEntry) in
  let! isNewerThanLatest :=
    if negb satisfiesLatest
    then string_and (maxSatisfyingVersion versionMap)
           (fun max =>
              let! newer := semver.gt max (le_version latestEntry) in
              Ok (VBool newer))
    else Ok (VBool false) in
  let satisfiesEntry :=
    mkSatisfiesEntry
      (maxSatisfyingVersion versionMap)
      isNewerThanLatest
      isLatestVersion
      satisfiesLatest
      (falsy_string isRequestedVersionValid)
      versionMatchNotFound
      isFixed
      true in
  let! others :=
    applyTagFilterRules
      (taggedVersions versionMap)
      requestedVersion
      (maxSatisfyingVersion versionMap)
      (le_version latestEntry)
      versionMatchNotFound in
  Ok (Satisfies satisfiesEntry
        :: (if se_isLatestVersion satisfiesEntry then [] else [Latest latestEntry])
        ++ map Tagged others).

End versionUtils.

(** ** A concrete grammar

    The strict version grammar of [semver] 5.7 (the [FULL] regular
    expression and the checks of the [SemVer] constructor), and the range
    grammar for ranges made of one primitive: the empty range and [*], a
    version, and a version behind one of [^ ~ = < <= > >=].  Other ranges
    (hyphen ranges, x-ranges and partial versions, a [v] before the version,
    spaces after the operator, several comparators, [||]) are not covered
    and read as invalid; nothing below applies this grammar to one of
    them. *)
Module node_semver.
Import semver.

Definition code (c : ascii) : nat := nat_of_ascii c.

Definition is_digit (c : ascii) : bool := (48 <=? code c)%nat && (code c <=? 57)%nat.

Definition is_letter (c : ascii) : bool :=
  ((65 <=? code c)%nat && (code c <=? 90)%nat) ||
  ((97 <=? code c)%nat && (code c <=? 122)%nat).

(** [[0-9A-Za-z-]] *)
Definition is_idchar (c : ascii) : bool :=
  is_digit c || is_letter c || Ascii.eqb c "-".

Definition is_space (c : ascii) : bool :=
  ((9 <=? code c)%nat && (code c <=? 13)%nat) || (code c =? 32)%nat.

Fixpoint trim_start (s : string) : string :=
  match s with
  | String c s' => if is_space c then trim_start s' else s
  | EmptyString => EmptyString
  end.

Definition trim (s : string) : string :=
  String.rev (trim_start (String.rev (trim_start s))).

Fixpoint span (p : ascii -> bool) (s : string) : string * string :=
  match s with
  | String c s' =>
      if p c then let (a, b) := span p s' in (String c a, b) else (EmptyString, s)
  | EmptyString => (EmptyString, EmptyString)
  end.

Fixpoint all_chars (p : ascii -> bool) (s : string) : bool :=
  match s with
  | String c s' => p c && all_chars p s'
  | EmptyString => true
  end.

Fixpoint digits_to_N (s : string) (acc : N) : N :=
  match s with
  | String c s' => digits_to_N s' (acc * 10 + N.of_nat (code c - 48))%N
  | EmptyString => acc
  end.

(** [s.split(sep)] with a one-character separator. *)
Fixpoint split (sep : ascii) (s : string) : list string :=
  match s with
  | EmptyString => [EmptyString]
  | String c s' =>
      if Ascii.eqb c sep then EmptyString :: split sep s'
      else match split sep s' with
           | x :: l => String c x :: l
           | [] => [String c EmptyString]
           end
  end.

Definition MAX_LENGTH : nat := 256.
Definition MAX_SAFE_INTEGER : N := 9007199254740991.

(** [NUMERICIDENTIFIER = 0|[1-9]\d*] *)
Definition numeric_identifier (s : string) : option N :=
  match s with
  | EmptyString => None
  | String c s' =>
      if all_chars is_digit s && (negb (Ascii.eqb c "0") || String.eqb s' "")
      then Some (digits_to_N s 0)
      else None
  end.

(** [PRERELEASEIDENTIFIER]: a numeric identifier, or a run of [[0-9A-Za-z-]]
    with a character that is not a digit.  The constructor numberifies the
    numeric ones. *)
Definition prerelease_identifier (s : string) : option identifier :=
  if String.eqb s "" || negb (all_chars is_idchar s) then None
  else if all_chars is_digit s then Numeric <$> numeric_identifier s
  else Some (Alphanumeric s).

(** [BUILD], after the [+]. *)
Definition valid_build (s : string) : bool :=
  forallb (fun id => negb (String.eqb id "") && all_chars is_idchar id) (split "." s).

(** What follows [major.minor.patch]: the prerelease identifiers. *)
Definition version_tail (s : string) : option (list identifier) :=
  match s with
  | EmptyString => Some []
  | String "+" b => if valid_build b then Some [] else None
  | String "-" r =>
      let (pre, b) := span (fun c => negb (Ascii.eqb c "+")) r in
      let build_ok :=
        match b with
        | EmptyString => true
        | String _ b' => valid_build b'
        end in
      if build_ok then mapM prerelease_identifier (split "." pre) else None
  | String _ _ => None
  end.

(** [MAINVERSION PRERELEASE? BUILD?], with the bound the constructor puts
    on the three numbers. *)
Definition main_version (s : string) : option SemVer :=
  let (M, r1) := span is_digit s in
  match r1 with
  | String "." r1' =>
      let (m, r2) := span is_digit r1' in
      match r2 with
      | String "." r2' =>
          let (p, r3) := span is_digit r2' in
          match numeric_identifier M, numeric_identifier m, numeric_identifier p with
          | Some M, Some m, Some p =>
              if (M <=? MAX_SAFE_INTEGER)%N && (m <=? MAX_SAFE_INTEGER)%N
                 && (p <=? MAX_SAFE_INTEGER)%N
              then mkSemVer M m p <$> version_tail r3
              else None
          | _, _, _ => None
          end
      | _ => None
      end
  | _ => None
  end.

(** A string matched by [FULL = ^v?MAINVERSION PRERELEASE? BUILD?$]. *)
Definition full (s : string) : option SemVer :=
  match s with
  | String "v" s' => main_version s'
  | _ => main_version s
  end.

Definition SemVer_new (s : string) : option SemVer :=
  if (MAX_LENGTH <? String.length s)%nat then None else full (trim s).

Definition parse (s : string) : option SemVer :=
  if (MAX_LENGTH <? String.length s)%nat then None else full s.

(** [SemVer.prototype.format]: the [version] property. *)
Definition format (v : SemVer) : string :=
  N_to_string (major v) ++ "." ++ N_to_string (minor v) ++ "." ++ N_to_string (patch v)
  ++ match prerelease_ids v with
     | [] => ""
     | ids => "-" ++ join "." (map identifier_to_string ids)
     end.

Definition operator_text (o : operator) : string :=
  match o with
  | OpEq => ""
  | OpLt => "<"
  | OpLte => "<="
  | OpGt => ">"
  | OpGte => ">="
  end.

(** [Comparator.value] *)
Definition Comparator_value (c : Comparator) : string :=
  match c with
  | ANY _ => ""
  | Cmp o v => operator_text o ++ format v
  end.

Definition range_of (c : Comparator) (cs : list Comparator) : Range :=
  mkRange (join " " (map Comparator_value (c :: cs))) ((c, cs), []).

(** A version written without the [v] prefix. *)
Definition plain_version (s : string) : option SemVer :=
  if (MAX_LENGTH <? String.length s)%nat then None else main_version s.

(** A bound a desugaring builds: it goes through the constructor too. *)
Definition bound (M m p : N) : option SemVer :=
  if (M <=? MAX_SAFE_INTEGER)%N && (m <=? MAX_SAFE_INTEGER)%N && (p <=? MAX_SAFE_INTEGER)%N
  then Some (mkSemVer M m p [])
  else None.

(** [replaceCaret]: [^M.m.p] is [>=M.m.p] below the next change of the
    leftmost number that is not zero. *)
Definition caret (v : SemVer) : option Range :=
  upper ← (if (major v =? 0)%N
           then if (minor v =? 0)%N
                then bound (major v) (minor v) (patch v + 1)
                else bound (major v) (minor v + 1) 0
           else bound (major v + 1) 0 0);
  Some (range_of (Cmp OpGte v) [Cmp OpLt upper]).

(** [replaceTilde]: [~M.m.p] is [>=M.m.p <M.(m+1).0]. *)
Definition tilde (v : SemVer) : option Range :=
  upper ← bound (major v) (minor v + 1) 0;
  Some (range_of (Cmp OpGte v) [Cmp OpLt upper]).

Definition comparator (o : operator) (s : string) : option Range :=
  v ← plain_version s;
  Some (range_of (Cmp o v) []).

Definition Range_new (r : string) : option Range :=
  match trim r with
  | "" | "*" => Some (range_of (ANY None) [])
  | String "^" s => plain_version s ≫= caret
  | String "~" s => plain_version s ≫= tilde
  | String ">" (String "=" s) => comparator OpGte s
  | String "<" (String "=" s) => comparator OpLte s
  | String ">" s => comparator OpGt s
  | String "<" s => comparator OpLt s
  | String "=" s => comparator OpEq s
  | s => comparator OpEq s
  end.

(** Release 5.7: [Range.prototype.test] lets the [TypeError] of
    [new SemVer] escape. *)
#[global] Instance grammar : Grammar := {|
  semver.SemVer_new := SemVer_new;
  semver.parse := parse;
  semver.Range_new := Range_new;
  semver.test_invalid := fun s => Throw (InvalidVersion s)
|}.

End node_semver.

(** Modelled from the spec: [formatTagNameRegex] of [utils.js], the
    "tag-name pattern capturing a leading run of alphabetic characters"; the
    match fails when the text does not start with a letter. *)
Definition formatTagNameRegex_exec (s : string) : option string :=
  match fst (node_semver.span node_semver.is_letter s) with
  | EmptyString => None
  | m => Some m
  end.

(** ** The tag filter pipeline over a store

    [applyTagFilterRules] again, with arrays as references into a store, so
    that what each array method allocates and what it updates in place is
    explicit: [slice], [filter] and the [[]] literal allocate, [push] and
    [sort] update the receiver.  Tags are immutable here as in the source,
    which builds a new object whenever a name changes. *)
Module Heap.

Abbreviation loc := nat.
Abbreviation heap := (gmap nat (list TaggedVersion)).

(** A computation reads and updates the store and returns or raises; the
    store survives an exception. *)
Definition M (A : Type) : Type := heap -> result A * heap.

Definition ret {A} (a : A) : M A := fun h => (Ok a, h).

Definition bind {A B} (m : M A) (f : A -> M B) : M B := fun h =>
  match m h with
  | (Ok a, h') => f a h'
  | (Throw e, h') => (Throw e, h')
  end.

Notation "'do!' x ':=' m 'in' k" := (bind m (fun x => k))
  (at level 10, x name, m at level 100, k at level 200).

Definition lift {A} (m : result A) : M A := fun h => (m, h).

(** A new array. *)
Definition alloc (l : list TaggedVersion) : M loc := fun h =>
  let r := fresh (dom h) in (Ok r, <[r := l]> h).

Definition read (r : loc) : M (list TaggedVersion) := fun h =>
  match h !! r with
  | Some l => (Ok l, h)
  | None => (Throw (UndefinedProperty "length"), h)
  end.

Definition write (r : loc) (l : list TaggedVersion) : M unit := fun h =>
  (Ok tt, <[r := l]> h).

(** [this.slice()] *)
Definition slice (this : loc) : M loc :=
  do! l := read this in alloc l.

(** [this.filter(p)] *)
Definition filter_new (this : loc) (p : TaggedVersion -> result bool) : M loc :=
  do! l := read this in
  do! l' := lift (Array_filter p l) in
  alloc l'.

(** [this.push(x)] *)
Definition push (this : loc) (x : TaggedVersion) : M unit :=
  do! l := read this in write this (l ++ [x]).

(** [this.reduce(f, init)] where the accumulator is an array. *)
Fixpoint reduce_loop (f : loc -> TaggedVersion -> M loc) (l : list TaggedVersion)
  (acc : loc) : M loc :=
  match l with
  | [] => ret acc
  | x :: l' => do! acc' := f acc x in reduce_loop f l' acc'
  end.

Definition reduce (this : loc) (f : loc -> TaggedVersion -> M loc) (init : loc)
  : M loc :=
  do! l := read this in reduce_loop f l init.

(** [this.sort(cmp)]: in place, and the receiver is returned. *)
Definition sort_in_place (this : loc) (cmp : TaggedVersion -> TaggedVersion -> result Z)
  : M loc :=
  do! l := read this in
  do! l' := lift (Array_sort cmp l) in
  do! _ := write this l' in
  ret this.

Section pipeline.
Context `{G : semver.Grammar}.
Variable formatTagNameRegex_exec : string -> option string.

Definition removeExactVersions (this : loc) (v : option string) : M loc :=
  filter_new this (fun tag => Ok (negb (bool_decide (Some (version tag) = v)))).

Definition removeTagsWithName (this : loc) (n : string) : M loc :=
  filter_new this (fun tag => Ok (negb (String.eqb (name tag) n))).

Definition removeOlderVersions (this : loc) (versionRange : string) : M loc :=
  filter_new this
    (fun tag => let! older := isOlderVersion (version tag) versionRange in
                Ok (negb older)).

Definition reduceTagsByUniqueNames (this : loc) : M loc :=
  do! init := alloc [] in
  reduce this
    (fun unique current =>
       do! u := read unique in
       if negb (existsb (fun x => String.eqb (name x) (name current)) u)
       then do! _ := push unique current in ret unique
       else ret unique)
    init.

Definition removeAmbiguousTagNames (this : loc) : M loc :=
  do! init := alloc [] in
  reduce this
    (fun results current =>
       match formatTagNameRegex_exec (name current) with
       | None =>
           do! _ := push results (mkTag (name current) (version current)) in
           ret results
       | Some regexResult =>
           if (1 <? String.length regexResult)%nat
           then do! _ := push results
                           (mkTag (toLowerCase regexResult) (version current)) in
                ret results
           else ret results
       end)
    init.

Definition applyTagFilterRules (taggedVersions : loc)
  (requestedVersion : string) (satisifiesVersion : option string)
  (latestVersion : string) (versionMatchNotFound : bool) : M loc :=
  do! filterVersions := slice taggedVersions in
  do! filterVersions :=
    if negb (falsy_string (semver.validRange requestedVersion))
    then removeOlderVersions filterVersions requestedVersion
    else ret filterVersions in
  do! filterVersions := removeExactVersions filterVersions satisifiesVersion in
  do! filterVersions := removeExactVersions filterVersions (Some latestVersion) in
  do! filterVersions :=
    if versionMatchNotFound
    then removeOlderVersions filterVersions latestVersion
    else ret filterVersions in
  do! filterVersions := removeAmbiguousTagNames filterVersions in
  do! filterVersions := reduceTagsByUniqueNames filterVersions in
  do! filterVersions := removeTagsWithName filterVersions "latest" in
  sort_in_place filterVersions (sortTagsByRecentVersion).

End pipeline.
End Heap.

(** ** More of the [semver] package: [valid], [clean], [eq]

    The three other functions of the package the command factory calls,
    over the same grammar. *)
Section semver_more.
Context `{G : semver.Grammar}.

(** [semver.valid(version)]: the formatted version when it parses, else
    [null]. *)
Definition semver_valid (version : string) : option string :=
  node_semver.format <$> semver.parse version.

(** [s.replace(/^[=v]+/, '')] *)
Fixpoint strip_eq_v (s : string) : string :=
  match s with
  | String c s' =>
      if (Ascii.eqb c "=" || Ascii.eqb c "v")%char then strip_eq_v s' else s
  | EmptyString => EmptyString
  end.

(** [semver.clean(version)] *)
Definition semver_clean (version : string) : option string :=
  node_semver.format <$> semver.parse (strip_eq_v (node_semver.trim version)).

(** [semver.eq(a, b)]: [compare(a, b) === 0]. *)
Definition semver_eq (a b : string) : result bool :=
  let! va := semver.new_SemVer a in
  let! vb := semver.new_SemVer b in
  Ok (semver.eqb va vb).

End semver_more.

(** [a || k] where [a] is a string, [null] or [undefined]. *)
Definition string_or (a : option string) (k : string) : string :=
  match a with
  | Some s => if String.eqb s "" then k else s
  | None => k
  end.

(** ** [commands/commandFactory]: the command of a code lens *)

Record AppConfig : Type := mkAppConfig {
  versionPrefix : string;
  updateIndicator : string;
  extentionName : string;
  openNewWindowIndicator : string
}.

(** An element of the [arguments] array of a command: the code lens item
    the command belongs to, or a string. *)
Inductive Argument : Type :=
| ArgCodeLensItem
| ArgString (s : string).

(** The object the factory stores in [codeLensItem.command]; [None] is
    [undefined]. *)
Record Command : Type := mkCommand {
  title : string;
  command : option string;
  arguments : option (list Argument)
}.

(** What the factory reads and writes of a code lens item:
    [generateNewVersion] is a method of the item. *)
Record CodeLensItem : Type := mkCodeLensItem {
  generateNewVersion : string -> string;
  meta_type : string;
  meta_remoteURI : string;
  packageVersion : string;
  lens_command : option Command
}.

(** [codeLensItem.command = c; return codeLensItem] *)
Definition set_command (codeLensItem : CodeLensItem) (c : Command) : CodeLensItem :=
  mkCodeLensItem (generateNewVersion codeLensItem) (meta_type codeLensItem)
    (meta_remoteURI codeLensItem) (packageVersion codeLensItem) (Some c).

(** The one-character string holding the double quote of the template
    literals below. *)
Definition quote : string := String (ascii_of_nat 34) EmptyString.

Section CommandFactory.
Context `{G : semver.Grammar}.
Variable appConfig : AppConfig.

(** [stripSymbolFromVersionRegex.exec(s)] of [utils.js]: [None] when the
    pattern does not match, else the first capture [matches[1]], itself
    [None] when it is [undefined]. *)
Variable stripSymbolFromVersionRegex_exec : string -> option (option string).

Definition makeErrorCommand (errorMsg : string) (codeLensItem : CodeLensItem)
  : CodeLensItem :=
  set_command codeLensItem (mkCommand errorMsg None None).

Definition makeNewVersionCommand (newVersion : string) (codeLensItem : CodeLensItem)
  : CodeLensItem :=
  let prefix := versionPrefix appConfig in
  let replaceWithVersion := generateNewVersion codeLensItem newVersion in
  let replaceWithVersion :=
    if negb (String.prefix prefix replaceWithVersion)
    then prefix +:+ replaceWithVersion
    else replaceWithVersion in
  set_command codeLensItem
    (mkCommand
       (updateIndicator appConfig +:+ " " +:+ versionPrefix appConfig +:+ newVersion)
       (Some ("_" +:+ extentionName appConfig +:+ ".updateDependencyCommand"))
       (Some [ArgCodeLensItem; ArgString (quote +:+ replaceWithVersion +:+ quote)])).

Definition makeSatisfiedCommand (serverVersion : string) (codeLensItem : CodeLensItem)
  : CodeLensItem :=
  set_command codeLensItem (mkCommand ("satisfies v" +:+ serverVersion) None None).

Definition makeSatisfiedWithNewerCommand (serverVersion : string)
  (codeLensItem : CodeLensItem) : CodeLensItem :=
  let prefix := versionPrefix appConfig in
  let replaceWithVersion := generateNewVersion codeLensItem serverVersion in
  let replaceWithVersion :=
    if negb (String.prefix prefix replaceWithVersion)
    then prefix +:+ replaceWithVersion
    else replaceWithVersion in
  set_command codeLensItem
    (mkCommand
       (updateIndicator appConfig +:+ " satisfies v" +:+ serverVersion)
       (Some ("_" +:+ extentionName appConfig +:+ ".updateDependencyCommand"))
       (Some [ArgCodeLensItem; ArgString (quote +:+ replaceWithVersion +:+ quote)])).

Definition makeLatestCommand (codeLensItem : CodeLensItem) : CodeLensItem :=
  set_command codeLensItem (mkCommand "latest" None None).

Definition makeTagCommand (tag : string) (codeLensItem : CodeLensItem) : CodeLensItem :=
  set_command codeLensItem (mkCommand tag None None).

Definition makeUpdateDependenciesCommand (codeLensItem : CodeLensItem) : CodeLensItem :=
  set_command codeLensItem
    (mkCommand
       (updateIndicator appConfig +:+ " Update all")
       (Some ("_" +:+ extentionName appConfig +:+ ".updateDependenciesCommand"))
       (Some [])).

Definition makeLinkCommand (codeLensItem : CodeLensItem) : CodeLensItem :=
  set_command codeLensItem
    (mkCommand
       (openNewWindowIndicator appConfig +:+ " " +:+
        (if String.eqb (meta_type codeLensItem) "file"
         then packageVersion codeLensItem
         else meta_remoteURI codeLensItem))
       (Some ("_" +:+ extentionName appConfig +:+ ".linkCommand"))
       (Some [ArgCodeLensItem])).

Definition makeVersionCommand (localVersion serverVersion : string)
  (codeLensItem : CodeLensItem) : result CodeLensItem :=
  let isLocalValid := semver_valid localVersion in
  let isLocalValidRange := semver.validRange localVersion in
  let isServerValid := semver_valid serverVersion in
  let isServerValidRange := semver.validRange serverVersion in
  if falsy_string isLocalValid && falsy_string isLocalValidRange
     && negb (String.eqb localVersion "latest")
  then Ok (makeErrorCommand "Invalid semver version entered" codeLensItem)
  else if falsy_string isServerValid && falsy_string isServerValidRange
          && negb (String.eqb serverVersion "latest")
  then Ok (makeErrorCommand
             ("Invalid semver server version received, " +:+ serverVersion)
             codeLensItem)
  else if String.eqb localVersion "latest"
  then Ok (makeLatestCommand codeLensItem)
  else if negb (falsy_string isLocalValidRange) && falsy_string isLocalValid
  then
    let! satisfied := semver.satisfies (Some serverVersion) localVersion in
    if satisfied
    then
      (* the [try] block: [Some] is a [return] inside it *)
      let! returned :=
        try_catch
          (let matches := stripSymbolFromVersionRegex_exec localVersion in
           let cleanLocalVersion :=
             string_or (mjoin matches)
               (string_or (semver_clean localVersion) localVersion) in
           let! same :=
             if String.eqb cleanLocalVersion "" then Ok false
             else semver_eq serverVersion cleanLocalVersion in
           Ok (if same
               then Some (makeSatisfiedCommand serverVersion codeLensItem)
               else None))
          (fun ex => Ok (Some (makeSatisfiedCommand serverVersion codeLensItem))) in
      match returned with
      | Some item => Ok item
      | None => Ok (makeSatisfiedWithNewerCommand serverVersion codeLensItem)
      end
    else Ok (makeNewVersionCommand serverVersion codeLensItem)
  else
    let! greater := semver.gt serverVersion localVersion in
    let! hasNewerVersion :=
      if greater then Ok true else semver.lt serverVersion localVersion in
    if negb (String.eqb serverVersion localVersion) && hasNewerVersion
    then Ok (makeNewVersionCommand serverVersion codeLensItem)
    else Ok (makeLatestCommand codeLensItem).

End CommandFactory.

(** ** [commands/editorIcons]: the six toggles

    Each command stores a boolean in [appSettings] and then calls
    [CodeLensProviders.reloadActiveProviders()] or [clearDecorations()];
    the two calls, which belong to the editor, are recorded in a log, the
    latest first. *)
Module appSettings.
Record t : Type := mk {
  showTaggedVersions : bool;
  showDependencyStatuses : bool;
  showVersionLenses : bool
}.
End appSettings.

Module editorIcons.

Inductive call : Type :=
| reloadActiveProviders
| clearDecorations.

Definition state : Type := appSettings.t * list call.

Definition showTaggedVersions (s : state) : state :=
  (appSettings.mk true
     (appSettings.showDependencyStatuses (fst s))
     (appSettings.showVersionLenses (fst s)),
   reloadActiveProviders :: snd s).

Definition hideTaggedVersions (s : state) : state :=
  (appSettings.mk false
     (appSettings.showDependencyStatuses (fst s))
     (appSettings.showVersionLenses (fst s)),
   reloadActiveProviders :: snd s).

Definition showDependencyStatuses (s : state) : state :=
  (appSettings.mk
     (appSettings.showTaggedVersions (fst s))
     true
     (appSettings.showVersionLenses (fst s)),
   reloadActiveProviders :: snd s).

Definition hideDependencyStatuses (s : state) : state :=
  (appSettings.mk
     (appSettings.showTaggedVersions (fst s))
     false
     (appSettings.showVersionLenses (fst s)),
   clearDecorations :: snd s).

Definition showVersionLenses (s : state) : state :=
  (appSettings.mk
     (appSettings.showTaggedVersions (fst s))
     (appSettings.showDependencyStatuses (fst s))
     true,
   reloadActiveProviders :: snd s).

Definition hideVersionLenses (s : state) : state :=
  (appSettings.mk
     (appSettings.showTaggedVersions (fst s))
     (appSettings.showDependencyStatuses (fst s))
     false,
   reloadActiveProviders :: snd s).

End editorIcons.

(** ** [providers/dotnet]: from the version list to the packages

    The callback [dotnetPackageParser] passes to [then]: it receives the
    versions of the package and closes over [name], [nodeRequestedRange] and
    [appContrib]; [appSettings.showTaggedVersions] is read when it runs.
    The promise around it is not modelled. *)

(** The [packageInfo] object; [tag] is [None] when the array element it was
    read from does not exist. *)
Record PackageInfo : Type := mkPackageInfo {
  type : string;
  tag : option ResolvedTag
}.

(** [tag.isLatestVersion] as a condition: only the ["satisfies"] entry has
    the property. *)
Definition tag_isLatestVersion (t : ResolvedTag) : bool :=
  match t with
  | Satisfies e => se_isLatestVersion e
  | _ => false
  end.

Section dotnetPackageParser.
Context `{G : semver.Grammar}.
Variable formatTagNameRegex_exec : string -> option string.

(** [PackageFactory.createPackage] of [common/packageGeneration]. *)
Variable Package : Type.
Variable createPackage : string -> string -> PackageInfo -> Package.

(** [satisfiesEntry.isLatestVersion], which raises when [extractedTags] is
    empty. *)
Definition satisfiesEntry_isLatestVersion (satisfiesEntry : option ResolvedTag)
  : result bool :=
  match satisfiesEntry with
  | Some t => Ok (tag_isLatestVersion t)
  | None => Throw (UndefinedProperty "isLatestVersion")
  end.

Definition dotnet_filteredTags (showTaggedVersions : bool)
  (dotnetTagFilter : list string) (extractedTags : list ResolvedTag)
  : result (list (option ResolvedTag)) :=
  let satisfiesEntry := head extractedTags in
  if negb showTaggedVersions
  then
    let! isLatest := satisfiesEntry_isLatestVersion satisfiesEntry in
    Ok (satisfiesEntry :: (if isLatest then [] else [extractedTags !! 1%nat]))
  else if (0 <? List.length dotnetTagFilter)%nat
  then
    let! isLatest := satisfiesEntry_isLatestVersion satisfiesEntry in
    Ok (map Some
          (filterTagsByName extractedTags
             ("satisfies" :: (if isLatest then [] else ["latest"]) ++ dotnetTagFilter)))
  else Ok (map Some extractedTags).

Definition dotnetPackageParser_then (name nodeRequestedRange : string)
  (showTaggedVersions : bool) (dotnetTagFilter : list string)
  (versions : list string) : result (list Package) :=
  let! versionMap :=
    buildMapFromVersionList formatTagNameRegex_exec versions nodeRequestedRange in
  let! extractedTags :=
    buildTagsFromVersionMap formatTagNameRegex_exec versionMap nodeRequestedRange in
  let! filteredTags :=
    dotnet_filteredTags showTaggedVersions dotnetTagFilter extractedTags in
  Ok (map (fun tag => createPackage name nodeRequestedRange (mkPackageInfo "nuget" tag))
          filteredTags).

End dotnetPackageParser.

(** ** Vocabulary of the statements *)

(** A comparison function that is a total order. *)
Record order {A} (c : A -> A -> comparison) : Prop := mkOrder {
  order_eq : forall a b, c a b = Eq -> a = b;
  order_refl : forall a, c a a = Eq;
  order_antisym : forall a b, c b a = CompOpp (c a b);
  order_trans : forall a b d, c a b = Lt -> c b d = Lt -> c a d = Lt
}.

(** Lexicographic combination of two comparisons. *)
Definition lexc (x y : comparison) : comparison :=
  match x with
  | Eq => y
  | _ => x
  end.

(** *** Semantic-version order

    The order the claims call "semantic-version order", the precedence of
    the Semantic Versioning specification: [major], [minor] and [patch] by
    value; a version with prerelease identifiers below the same version
    without; identifiers position by position, the all-digit ones by their
    value, whatever their size, and below the others, those by code unit; a
    list above its proper prefixes.  [semver.compare] is the comparison the
    package makes; the two are compared below. *)
Definition precedence_identifiers (a b : semver.identifier) : comparison :=
  match a, b with
  | semver.Numeric x, semver.Numeric y => N.compare x y
  | semver.Numeric _, semver.Alphanumeric _ => Lt
  | semver.Alphanumeric _, semver.Numeric _ => Gt
  | semver.Alphanumeric x, semver.Alphanumeric y => String.compare x y
  end.

Fixpoint precedence_ids (a b : list semver.identifier) : comparison :=
  match a, b with
  | [], [] => Eq
  | _ :: _, [] => Gt
  | [], _ :: _ => Lt
  | x :: a', y :: b' =>
      match precedence_identifiers x y with
      | Eq => precedence_ids a' b'
      | c => c
      end
  end.

Definition compare_pre (x y : list semver.identifier) : comparison :=
  match x, y with
  | _ :: _, [] => Lt
  | [], _ :: _ => Gt
  | [], [] => Eq
  | _, _ => precedence_ids x y
  end.

Definition precedence (a b : semver.SemVer) : comparison :=
  lexc (N.compare (semver.major a) (semver.major b))
    (lexc (N.compare (semver.minor a) (semver.minor b))
       (lexc (N.compare (semver.patch a) (semver.patch b))
          (compare_pre (semver.prerelease_ids a) (semver.prerelease_ids b)))).

(** No all-digit prerelease identifier of the version is above
    [Number.MAX_SAFE_INTEGER], so that [+a] is exact on each. *)
Definition safe_identifiers (v : semver.SemVer) : bool :=
  forallb (fun i => match i with
                    | semver.Numeric n => (n <=? node_semver.MAX_SAFE_INTEGER)%N
                    | semver.Alphanumeric _ => true
                    end)
    (semver.prerelease_ids v).

(** *** Texts *)

(** [sub] occurs in [s]. *)
Definition is_substring (sub s : string) : Prop :=
  exists pre post, s = pre +:+ sub +:+ post.

(** [out] is [s] without the first occurrence of [pat], or [s] itself when
    [pat] does not occur in it. *)
Definition first_removed (pat s out : string) : Prop :=
  (~ is_substring pat s /\ out = s) \/
  (exists pre post,
     s = pre +:+ pat +:+ post /\
     (forall pre' post',
        s = pre' +:+ pat +:+ post' -> (String.length pre <= String.length pre')%nat) /\
     out = pre +:+ post).

(** A capital ASCII letter: its code is between that of [A] and that of [Z]. *)
Definition capital (c : ascii) : Prop :=
  (65 <= nat_of_ascii c /\ nat_of_ascii c <= 90)%nat.

(** The same character, or the same ASCII letter in its two cases (the
    small letter is 32 code points above the capital). *)
Definition same_letter (c d : ascii) : Prop :=
  c = d
  \/ (capital c /\ nat_of_ascii d = (nat_of_ascii c + 32)%nat)
  \/ (capital d /\ nat_of_ascii c = (nat_of_ascii d + 32)%nat).

(** The same text up to the case of its ASCII letters. *)
Fixpoint same_ignoring_case (a b : string) : Prop :=
  match a, b with
  | EmptyString, EmptyString => True
  | String c a', String d b' => same_letter c d /\ same_ignoring_case a' b'
  | _, _ => False
  end.

(** A text of ASCII characters only, on which [toLowerCase] above is
    [String.prototype.toLowerCase]. *)
Definition ascii_text (s : string) : bool :=
  node_semver.all_chars (fun c => (nat_of_ascii c <? 128)%nat) s.

Section vocabulary.
Context `{G : semver.Grammar}.

(** [a] may stand before [b] in a list in descending semantic-version
    order with ties broken by descending name: both versions parse, and
    [a]'s is the greater one or they are equal and [a]'s name is not
    lexically below [b]'s. *)
Definition recent_first (a b : TaggedVersion) : Prop :=
  exists va vb,
    semver.SemVer_new (version a) = Some va /\
    semver.SemVer_new (version b) = Some vb /\
    (precedence va vb = Gt \/
     (precedence va vb = Eq /\ String.compare (name a) (name b) <> Lt)).

(** The version of the tag, when it parses, has no all-digit prerelease
    identifier above [Number.MAX_SAFE_INTEGER]. *)
Definition safe_tag (t : TaggedVersion) : Prop :=
  forall v, semver.SemVer_new (version t) = Some v -> safe_identifiers v = true.

(** The text [isOlderVersion] hands to [semver.ltr]: the version with its
    prerelease suffix removed when the requested version has no prerelease
    and the version has one, else the version as it is. *)
Definition testedVersion (version requestedVersion : string) : string :=
  match semver.prerelease requestedVersion with
  | None =>
      match semver.prerelease version with
      | Some components =>
          replace_first
            ("-" ++ join "." (map semver.identifier_to_string components)) version
      | None => version
      end
  | Some _ => version
  end.

(** A tag that stages 1 to 4 of [applyTagFilterRules] let through: it is
    not older than the requested version when that is a valid range, its
    version is neither the satisfying nor the latest one, and it is not older
    than the latest version when no match was found. *)
Definition kept_by_stages_1_to_4 (requestedVersion : string)
  (satisifiesVersion : option string) (latestVersion : string)
  (versionMatchNotFound : bool) (tag : TaggedVersion) : Prop :=
  (falsy_string (semver.validRange requestedVersion) = false ->
     isOlderVersion (version tag) requestedVersion = Ok false) /\
  Some (version tag) <> satisifiesVersion /\
  version tag <> latestVersion /\
  (versionMatchNotFound = true ->
     isOlderVersion (version tag) latestVersion = Ok false).

End vocabulary.

(** [m], run on the store [h], behaves as the pure computation [pure]: it
    raises when [pure] does, and when [pure] returns a list it returns an
    array that holds this list and did not exist in [h0]; in both cases the
    arrays of [h0] are in the final store as they were. *)
Definition run_spec (h0 h : Heap.heap) (m : Heap.M Heap.loc)
  (pure : result (list TaggedVersion)) : Prop :=
  exists h' : Heap.heap,
    h0 ⊆ h' /\
    match pure with
    | Ok l => exists r : Heap.loc,
                m h = (Ok r, h') /\ h' !! r = Some l /\ h0 !! r = None
    | Throw e => m h = (Throw e, h')
    end.

(** The first tag of a list that bears a given name. *)
Definition first_named (n : string) (l : list TaggedVersion) : option TaggedVersion :=
  find (fun t => String.eqb (name t) n) l.

(** A call of one of the six commands of [editorIcons], and a sequence of
    calls run from a state. *)
Inductive toggle : Type :=
| ShowTaggedVersions
| HideTaggedVersions
| ShowDependencyStatuses
| HideDependencyStatuses
| ShowVersionLenses
| HideVersionLenses.

Definition call_toggle (c : toggle) : editorIcons.state -> editorIcons.state :=
  match c with
  | ShowTaggedVersions => editorIcons.showTaggedVersions
  | HideTaggedVersions => editorIcons.hideTaggedVersions
  | ShowDependencyStatuses => editorIcons.showDependencyStatuses
  | HideDependencyStatuses => editorIcons.hideDependencyStatuses
  | ShowVersionLenses => editorIcons.showVersionLenses
  | HideVersionLenses => editorIcons.hideVersionLenses
  end.

Definition run_toggles (cs : list toggle) (s : editorIcons.state) : editorIcons.state :=
  fold_left (fun s c => call_toggle c s) cs s.

(** The value the last of the calls [cs] that addresses a setting leaves in
    it: [set c] is the boolean call [c] stores there, if any. *)
Definition last_stored (set : toggle -> option bool) (cs : list toggle) (init : bool)
  : bool :=
  fold_left (fun b c => default b (set c)) cs init.

(** * Properties *)

(** ** The order on versions *)

Lemma lexc_eq x y : lexc x y = Eq <-> x = Eq /\ y = Eq.
Proof. destruct x; simpl; intuition congruence. Qed.

Lemma lexc_opp x y : CompOpp (lexc x y) = lexc (CompOpp x) (CompOpp y).
Proof. now destruct x. Qed.

Lemma order_opp_lt {A} (c : A -> A -> comparison) (O : order c) a b :
  c a b = Gt <-> c b a = Lt.
Proof.
  rewrite (order_antisym c O a b).
  destruct (c a b); simpl; intuition congruence.
Qed.

(** The lexicographic product of two orders is an order. *)
Lemma order_lex {A B} (f : A -> A -> comparison) (g : B -> B -> comparison) :
  order f -> order g ->
  order (fun p q : A * B => lexc (f (fst p) (fst q)) (g (snd p) (snd q))).
Proof.
  intros Of Og. split.
  - intros [a1 a2] [b1 b2]; simpl. rewrite lexc_eq. intros [H1 H2].
    f_equal; [apply (order_eq f Of) | apply (order_eq g Og)]; assumption.
  - intros [a1 a2]; simpl. now rewrite (order_refl f Of), (order_refl g Og).
  - intros [a1 a2] [b1 b2]; simpl.
    now rewrite lexc_opp, <- (order_antisym f Of), <- (order_antisym g Og).
  - intros [a1 a2] [b1 b2] [d1 d2]; simpl.
    destruct (f a1 b1) eqn:E1; simpl; try discriminate.
    + apply (order_eq f Of) in E1; subst b1.
      destruct (f a1 d1) eqn:E2; simpl; try discriminate; auto.
      intros H1 H2. eapply (order_trans g Og); eassumption.
    + intros _. destruct (f b1 d1) eqn:E2; simpl; try discriminate.
      * apply (order_eq f Of) in E2; subst d1. now rewrite E1.
      * intros _. now rewrite (order_trans f Of _ _ _ E1 E2).
Qed.

(** An order pulled back along an injection is an order. *)
Lemma order_map {A B} (h : A -> B) (c : B -> B -> comparison) :
  (forall a b, h a = h b -> a = b) -> order c -> order (fun a b => c (h a) (h b)).
Proof.
  intros Hinj O. split.
  - intros a b H. apply Hinj, (order_eq c O), H.
  - intros a. apply (order_refl c O).
  - intros a b. apply (order_antisym c O).
  - intros a b d. apply (order_trans c O).
Qed.

Lemma order_ext {A} (c c' : A -> A -> comparison) :
  (forall a b, c a b = c' a b) -> order c -> order c'.
Proof.
  intros E O. split; intros *; rewrite <- !E.
  - apply (order_eq c O).
  - apply (order_refl c O).
  - apply (order_antisym c O).
  - apply (order_trans c O).
Qed.

Lemma N_compare_order : order N.compare.
Proof.
  split.
  - apply N.compare_eq.
  - apply N.compare_refl.
  - intros a b. apply N.compare_antisym.
  - intros a b d. rewrite !N.compare_lt_iff. lia.
Qed.

Lemma String_compare_order : order String.compare.
Proof.
  split.
  - apply String.compare_eq_iff.
  - intros a. now apply String_as_OT.cmp_eq.
  - intros a b. apply String.compare_antisym.
  - intros a b d H1 H2. apply String_as_OT.cmp_lt.
    apply String_as_OT.cmp_lt in H1, H2.
    eapply String_as_OT.lt_trans; eassumption.
Qed.

Lemma precedence_identifiers_order : order precedence_identifiers.
Proof.
  pose proof N_compare_order as ON. pose proof String_compare_order as OS.
  split.
  - intros [x|x] [y|y]; simpl; try discriminate; intros H; f_equal.
    + now apply (order_eq _ ON).
    + now apply (order_eq _ OS).
  - intros [x|x]; simpl; [apply (order_refl _ ON) | apply (order_refl _ OS)].
  - intros [x|x] [y|y]; simpl; auto;
      [apply (order_antisym _ ON) | apply (order_antisym _ OS)].
  - intros [x|x] [y|y] [z|z]; simpl; try discriminate; auto;
      [apply (order_trans _ ON) | apply (order_trans _ OS)].
Qed.

Lemma precedence_ids_order : order precedence_ids.
Proof.
  pose proof precedence_identifiers_order as OI.
  split.
  - induction a as [|x a IH]; intros [|y b]; simpl; try discriminate; auto.
    destruct (precedence_identifiers x y) eqn:E; try discriminate.
    intros H. apply (order_eq _ OI) in E. f_equal; auto.
  - induction a as [|x a IH]; simpl; auto. now rewrite (order_refl _ OI).
  - induction a as [|x a IH]; intros [|y b]; simpl; auto.
    rewrite (order_antisym _ OI x y).
    destruct (precedence_identifiers x y); simpl; auto.
  - induction a as [|x a IH]; intros [|y b] [|z d]; simpl; try discriminate; auto.
    destruct (precedence_identifiers x y) eqn:E1; try discriminate.
    + apply (order_eq _ OI) in E1; subst y.
      destruct (precedence_identifiers x z); try discriminate; auto.
      apply IH.
    + intros _. destruct (precedence_identifiers y z) eqn:E2; try discriminate.
      * apply (order_eq _ OI) in E2; subst z. now rewrite E1.
      * now rewrite (order_trans _ OI _ _ _ E1 E2).
Qed.

Lemma compare_pre_cons x a y b :
  compare_pre (x :: a) (y :: b) = precedence_ids (x :: a) (y :: b).
Proof. reflexivity. Qed.

Lemma compare_pre_order : order compare_pre.
Proof.
  pose proof precedence_ids_order as OL.
  split.
  - intros [|x a] [|y b]; try discriminate; auto.
    rewrite compare_pre_cons. apply (order_eq _ OL).
  - intros [|x a]; auto. rewrite compare_pre_cons. apply (order_refl _ OL).
  - intros [|x a] [|y b]; auto. rewrite !compare_pre_cons. apply (order_antisym _ OL).
  - intros [|x a] [|y b] [|z d]; try discriminate; auto.
    rewrite !compare_pre_cons. apply (order_trans _ OL).
Qed.

(** Semantic-version precedence is a total order on parsed versions. *)
Lemma precedence_order : order precedence.
Proof.
  pose proof N_compare_order as ON.
  pose proof (order_lex _ _ ON (order_lex _ _ ON (order_lex _ _ ON compare_pre_order))) as O.
  apply (order_map
    (fun v => (semver.major v, (semver.minor v, (semver.patch v, semver.prerelease_ids v)))))
    in O.
  - eapply order_ext; [| exact O]. reflexivity.
  - intros [] []; simpl. congruence.
Qed.

(** ** The comparison of the package *)

(** [+a] is exact up to 2^53. *)
Lemma to_number_exact (n : N) : (n <= 2 ^ 53)%N -> semver.to_number n = n.
Proof.
  intros Hn. unfold semver.to_number.
  destruct (N.leb_spec (N.size n) 53) as [Hs|Hs]; [reflexivity|].
  destruct (N.eq_dec n (2 ^ 53)) as [->|Hne]; [vm_compute; reflexivity|].
  exfalso.
  pose proof (N.size_le n) as Hle. rewrite N.succ_double_spec in Hle.
  assert (H54 : (2 ^ 54 <= 2 ^ N.size n)%N) by (apply N.pow_le_mono_r; lia).
  change (2 ^ 54)%N with (2 * 2 ^ 53)%N in H54. lia.
Qed.

Lemma identifier_eqb_eq (a b : semver.identifier) :
  semver.identifier_eqb a b = true <-> a = b.
Proof.
  destruct a as [x|x], b as [y|y]; simpl; try (split; discriminate).
  - rewrite N.eqb_eq. split; congruence.
  - rewrite String.eqb_eq. split; congruence.
Qed.

Lemma identifier_eqb_sym (a b : semver.identifier) :
  semver.identifier_eqb a b = semver.identifier_eqb b a.
Proof.
  destruct a as [x|x], b as [y|y]; simpl; try reflexivity.
  - apply N.eqb_sym.
  - apply String.eqb_sym.
Qed.

Lemma compareIdentifiers_antisym (a b : semver.identifier) :
  semver.compareIdentifiers b a = CompOpp (semver.compareIdentifiers a b).
Proof.
  destruct a as [x|x], b as [y|y]; simpl; try reflexivity.
  - apply N.compare_antisym.
  - apply String.compare_antisym.
Qed.

Lemma compare_ids_antisym (a b : list semver.identifier) :
  semver.compare_ids b a = CompOpp (semver.compare_ids a b).
Proof.
  revert b. induction a as [|x a IH]; intros [|y b]; simpl; try reflexivity.
  rewrite (identifier_eqb_sym y x).
  destruct (semver.identifier_eqb x y); [apply IH|apply compareIdentifiers_antisym].
Qed.

(** Swapping the arguments of [SemVer.prototype.compare] negates it. *)
Lemma semver_compare_antisym (a b : semver.SemVer) :
  semver.compare b a = CompOpp (semver.compare a b).
Proof.
  unfold semver.compare, semver.compareMain, semver.comparePre.
  rewrite (N.compare_antisym (semver.major a) (semver.major b)).
  rewrite (N.compare_antisym (semver.minor a) (semver.minor b)).
  rewrite (N.compare_antisym (semver.patch a) (semver.patch b)).
  destruct (semver.major a ?= semver.major b)%N; simpl; auto.
  destruct (semver.minor a ?= semver.minor b)%N; simpl; auto.
  destruct (semver.patch a ?= semver.patch b)%N; simpl; auto.
  destruct (semver.prerelease_ids a) as [|x l], (semver.prerelease_ids b) as [|y k];
    try reflexivity.
  exact (compare_ids_antisym (x :: l) (y :: k)).
Qed.

Lemma compare_ids_safe (a b : list semver.identifier) :
  forallb (fun i => match i with
                    | semver.Numeric n => (n <=? node_semver.MAX_SAFE_INTEGER)%N
                    | semver.Alphanumeric _ => true
                    end) a = true ->
  forallb (fun i => match i with
                    | semver.Numeric n => (n <=? node_semver.MAX_SAFE_INTEGER)%N
                    | semver.Alphanumeric _ => true
                    end) b = true ->
  semver.compare_ids a b = precedence_ids a b.
Proof.
  assert (M : forall n, (n <=? node_semver.MAX_SAFE_INTEGER)%N = true ->
                        semver.to_number n = n).
  { intros n Hn. apply to_number_exact. apply N.leb_le in Hn.
    unfold node_semver.MAX_SAFE_INTEGER in Hn.
    change (2 ^ 53)%N with 9007199254740992%N. lia. }
  revert b. induction a as [|x a IH]; intros [|y b]; simpl; try reflexivity.
  rewrite !andb_true_iff. intros [Hx Ha] [Hy Hb].
  destruct (semver.identifier_eqb x y) eqn:E.
  - apply identifier_eqb_eq in E. subst y.
    rewrite (order_refl _ precedence_identifiers_order). now apply IH.
  - assert (C : semver.compareIdentifiers x y = precedence_identifiers x y).
    { destruct x as [n|n], y as [m|m]; simpl; try reflexivity.
      now rewrite (M n Hx), (M m Hy). }
    rewrite C. destruct (precedence_identifiers x y) eqn:P; try reflexivity.
    apply (order_eq _ precedence_identifiers_order) in P. subst y.
    rewrite (proj2 (identifier_eqb_eq x x) eq_refl) in E. discriminate.
Qed.

(** On versions without an all-digit prerelease identifier above
    [MAX_SAFE_INTEGER], the package compares by precedence. *)
Lemma semver_compare_safe (a b : semver.SemVer) :
  safe_identifiers a = true -> safe_identifiers b = true ->
  semver.compare a b = precedence a b.
Proof.
  unfold safe_identifiers.
  unfold semver.compare, semver.compareMain, semver.comparePre, precedence, compare_pre.
  destruct (semver.major a ?= semver.major b)%N; simpl; auto.
  destruct (semver.minor a ?= semver.minor b)%N; simpl; auto.
  destruct (semver.patch a ?= semver.patch b)%N; simpl; auto.
  destruct (semver.prerelease_ids a) as [|x l], (semver.prerelease_ids b) as [|y k];
    try reflexivity.
  intros Ha Hb. exact (compare_ids_safe (x :: l) (y :: k) Ha Hb).
Qed.

(** ** Exceptions *)

Lemma bind_Ok {A B} (m : result A) (f : A -> result B) (b : B) :
  bind m f = Ok b <-> exists a, m = Ok a /\ f a = Ok b.
Proof.
  destruct m as [a|e]; simpl; split.
  - eauto.
  - now intros (a' & [= ->] & H).
  - discriminate.
  - now intros (a' & [=] & _).
Qed.

Lemma bind_Throw {A B} (m : result A) (f : A -> result B) (e : exn) :
  bind m f = Throw e <-> m = Throw e \/ exists a, m = Ok a /\ f a = Throw e.
Proof.
  destruct m as [a|e']; simpl; split.
  - eauto.
  - intros [[=]|(a' & [= ->] & H)]. exact H.
  - intros [= ->]. now left.
  - intros [[= ->]|(a' & [=] & _)]. reflexivity.
Qed.

Ltac inv_bind H :=
  let a := fresh "a" in
  let E := fresh "E" in
  apply bind_Ok in H; destruct H as (a & E & H).

(** ** Sorting with a comparator that may raise *)
Section sorting.
Context {A : Type} (cmp : A -> A -> result Z) (R : A -> A -> Prop) (P : A -> Prop).
Hypothesis cmp_le : forall x y c, P x -> P y -> cmp x y = Ok c -> (c <= 0)%Z -> R x y.
Hypothesis cmp_gt : forall x y c, P x -> P y -> cmp x y = Ok c -> (0 < c)%Z -> R y x.
Hypothesis R_trans : forall x y z, R x y -> R y z -> R x z.

Lemma sort_insert_perm x l l' :
  sort_insert cmp x l = Ok l' -> Permutation (x :: l) l'.
Proof.
  revert l'. induction l as [|y l IH]; simpl; intros l' H.
  - now injection H as <-.
  - inv_bind H. destruct (a <=? 0)%Z.
    + now injection H as <-.
    + inv_bind H. injection H as <-.
      rewrite perm_swap. constructor. now apply IH.
Qed.

Lemma sort_insert_sorted x l l' :
  P x -> Forall P l ->
  sort_insert cmp x l = Ok l' -> StronglySorted R l -> StronglySorted R l'.
Proof.
  intros Px. revert l'. induction l as [|y l IH]; simpl; intros l' Pl H S.
  - injection H as <-. repeat constructor.
  - apply Forall_cons in Pl as [Py Pl].
    inv_bind H. destruct (Z.leb_spec a 0).
    + injection H as <-. apply StronglySorted_inv in S as [S F].
      assert (R x y) by eauto.
      constructor; [now constructor|]. constructor; [assumption|].
      eapply Forall_impl; [exact F|]. simpl. eauto.
    + inv_bind H. injection H as <-.
      apply StronglySorted_inv in S as [S F].
      constructor; [now apply IH|].
      apply sort_insert_perm in E0.
      eapply Permutation_Forall; [exact E0|].
      constructor; eauto.
Qed.

Lemma Array_sort_perm l l' : Array_sort cmp l = Ok l' -> Permutation l l'.
Proof.
  revert l'. induction l as [|x l IH]; simpl; intros l' H.
  - now injection H as <-.
  - inv_bind H. apply sort_insert_perm in H.
    rewrite <- H. constructor. now apply IH.
Qed.

Lemma Array_sort_sorted l l' :
  Forall P l -> Array_sort cmp l = Ok l' -> StronglySorted R l'.
Proof.
  revert l'. induction l as [|x l IH]; simpl; intros l' Pl H.
  - injection H as <-. constructor.
  - apply Forall_cons in Pl as [Px Pl]. inv_bind H.
    eapply sort_insert_sorted; [exact Px| |exact H|now apply IH].
    eapply Permutation_Forall; [apply Array_sort_perm; exact E|exact Pl].
Qed.

End sorting.

Lemma Array_filter_Ok {A} (p : A -> result bool) (l l' : list A) :
  Array_filter p l = Ok l' ->
  exists f, l' = List.filter f l /\ Forall (fun x => p x = Ok (f x)) l.
Proof.
  revert l'. induction l as [|x l IH]; simpl; intros l' H.
  - injection H as <-. exists (fun _ => true). auto.
  - inv_bind H. inv_bind H. injection H as <-.
    destruct (IH _ E0) as (f & -> & F).
    pose proof F as F'. rewrite Forall_forall in F'.
    assert (Hall : Forall (fun y => p y = Ok (match p y with Ok b => b | Throw _ => f y end))
                          (x :: l)).
    { constructor; [now rewrite E|]. apply Forall_forall. intros y Hy.
      now rewrite (F' y Hy). }
    exists (fun y => match p y with Ok b => b | Throw _ => f y end). split; [|exact Hall].
    simpl. rewrite E.
    assert (Hf : List.filter f l
                 = List.filter (fun y => match p y with Ok b => b | Throw _ => f y end) l).
    { apply filter_ext_in. intros y Hy.
      apply list_elem_of_In in Hy. now rewrite (F' y Hy). }
    now rewrite Hf.
Qed.

(** ** Lists of tags *)

Lemma names_filter_In (f : TaggedVersion -> bool) (l : list TaggedVersion) (n : string) :
  In n (map name (List.filter f l)) -> In n (map name l).
Proof.
  rewrite !in_map_iff. intros (t & <- & Ht). apply filter_In in Ht as [Ht _]. eauto.
Qed.

Lemma names_filter_NoDup (f : TaggedVersion -> bool) (l : list TaggedVersion) :
  NoDup (map name l) -> NoDup (map name (List.filter f l)).
Proof.
  induction l as [|x l IH]; simpl; [auto|].
  rewrite NoDup_cons, list_elem_of_In. intros [Hx Hl].
  destruct (f x); simpl; [|auto].
  apply NoDup_cons. rewrite list_elem_of_In. split; [|auto].
  intros Hin. apply Hx. eapply names_filter_In, Hin.
Qed.

Lemma existsb_name (n : string) (l : list TaggedVersion) :
  existsb (fun x => String.eqb (name x) n) l = true <-> In n (map name l).
Proof.
  rewrite existsb_exists, in_map_iff. split.
  - intros (x & Hx & E). apply String.eqb_eq in E. eauto.
  - intros (x & E & Hx). exists x. split; [assumption|]. now apply String.eqb_eq.
Qed.

Lemma first_named_app (n : string) (l k : list TaggedVersion) :
  first_named n (l ++ k) =
  match first_named n l with
  | Some t => Some t
  | None => first_named n k
  end.
Proof.
  unfold first_named. induction l as [|x l IH]; simpl; [reflexivity|].
  now destruct (String.eqb (name x) n).
Qed.

Lemma first_named_cons (n : string) (x : TaggedVersion) (l : list TaggedVersion) :
  first_named n (x :: l) = if String.eqb (name x) n then Some x else first_named n l.
Proof. reflexivity. Qed.

Lemma first_named_None (n : string) (l : list TaggedVersion) :
  first_named n l = None <-> ~ In n (map name l).
Proof.
  unfold first_named. induction l as [|x l IH]; simpl; [tauto|].
  destruct (String.eqb_spec (name x) n) as [->|Hne].
  - split; [discriminate|]. intros H. exfalso. apply H. now left.
  - rewrite IH. tauto.
Qed.

Section tag_lists.
Context `{G : semver.Grammar}.
Variable formatTagNameRegex_exec : string -> option string.

(** The accumulator of [reduceTagsByUniqueNames] never repeats a name. *)
Lemma reduce_step_NoDup (l acc : list TaggedVersion) :
  NoDup (map name acc) ->
  NoDup (map name
    (fold_left
       (fun unique current =>
          if negb (existsb (fun x => String.eqb (name x) (name current)) unique)
          then unique ++ [current]
          else unique) l acc)).
Proof.
  revert acc. induction l as [|x l IH]; simpl; intros acc Hacc; [assumption|].
  apply IH.
  destruct (existsb (fun y => String.eqb (name y) (name x)) acc) eqn:E; simpl;
    [assumption|].
  rewrite map_app. apply NoDup_app. split; [assumption|]. split.
  - intros n Hn. rewrite list_elem_of_In in Hn. simpl.
    intros Hx. apply list_elem_of_In in Hx. destruct Hx as [<-|[]].
    apply existsb_name in Hn. congruence.
  - simpl. apply NoDup_singleton.
Qed.

Lemma reduceTagsByUniqueNames_NoDup (l : list TaggedVersion) :
  NoDup (map name (reduceTagsByUniqueNames l)).
Proof. apply reduce_step_NoDup. constructor. Qed.

(** The tag kept for a name is the first one of the input. *)
Lemma reduce_step_first_named (n : string) (l acc : list TaggedVersion) :
  first_named n
    (fold_left
       (fun unique current =>
          if negb (existsb (fun x => String.eqb (name x) (name current)) unique)
          then unique ++ [current]
          else unique) l acc)
  = match first_named n acc with
    | Some t => Some t
    | None => first_named n l
    end.
Proof.
  revert acc. induction l as [|x l IH]; intros acc; cbn [fold_left].
  - now destruct (first_named n acc).
  - rewrite IH. clear IH. rewrite (first_named_cons n x l).
    destruct (existsb (fun y => String.eqb (name y) (name x)) acc) eqn:E; simpl.
    + destruct (first_named n acc) eqn:F; [reflexivity|].
      destruct (String.eqb_spec (name x) n) as [Hn|Hne]; [|reflexivity].
      subst n. apply existsb_name in E. apply first_named_None in F. contradiction.
    + rewrite first_named_app.
      destruct (first_named n acc); [reflexivity|].
      rewrite (first_named_cons n x []).
      now destruct (String.eqb (name x) n).
Qed.

Lemma reduceTagsByUniqueNames_first_named (n : string) (l : list TaggedVersion) :
  first_named n (reduceTagsByUniqueNames l) = first_named n l.
Proof. unfold reduceTagsByUniqueNames. now rewrite reduce_step_first_named. Qed.

Lemma removeTagsWithName_names (l : list TaggedVersion) (n : string) :
  Forall (fun t => name t <> n) (removeTagsWithName l n).
Proof.
  apply Forall_forall. intros t Ht. apply list_elem_of_In, filter_In in Ht as [_ Ht].
  destruct (String.eqb_spec (name t) n); [discriminate|assumption].
Qed.

(** What the comparator says in terms of parsed versions. *)
Lemma sortTagsByRecentVersion_Ok (a b : TaggedVersion) (c : Z) :
  sortTagsByRecentVersion a b = Ok c ->
  exists va vb,
    semver.SemVer_new (version a) = Some va /\
    semver.SemVer_new (version b) = Some vb /\
    c = match semver.compare va vb with
        | Lt => 1%Z
        | Gt => (-1)%Z
        | Eq => sortDescending (name a) (name b)
        end.
Proof.
  unfold sortTagsByRecentVersion, semver.lt, semver.gt, semver.new_SemVer,
    semver.ltb, semver.gtb.
  destruct (semver.SemVer_new (version a)) as [va|]; simpl; [|discriminate].
  destruct (semver.SemVer_new (version b)) as [vb|]; simpl; [|discriminate].
  intros H. exists va, vb. split; [reflexivity|]. split; [reflexivity|].
  destruct (semver.compare va vb); simpl in H; congruence.
Qed.

Lemma recent_first_le (a b : TaggedVersion) (c : Z) :
  safe_tag a -> safe_tag b ->
  sortTagsByRecentVersion a b = Ok c -> (c <= 0)%Z -> recent_first a b.
Proof.
  intros Sa Sb H Hc. apply sortTagsByRecentVersion_Ok in H as (va & vb & Ea & Eb & ->).
  exists va, vb. split; [assumption|]. split; [assumption|].
  rewrite <- (semver_compare_safe va vb (Sa va Ea) (Sb vb Eb)).
  destruct (semver.compare va vb); [right|lia|now left].
  split; [reflexivity|]. unfold sortDescending in Hc.
  destruct (String.compare (name a) (name b)); [discriminate|lia|discriminate].
Qed.

Lemma recent_first_gt (a b : TaggedVersion) (c : Z) :
  safe_tag a -> safe_tag b ->
  sortTagsByRecentVersion a b = Ok c -> (0 < c)%Z -> recent_first b a.
Proof.
  intros Sa Sb H Hc. apply sortTagsByRecentVersion_Ok in H as (va & vb & Ea & Eb & ->).
  exists vb, va. split; [assumption|]. split; [assumption|].
  rewrite <- (semver_compare_safe vb va (Sb vb Eb) (Sa va Ea)).
  rewrite (semver_compare_antisym va vb).
  rewrite (order_antisym _ String_compare_order (name a) (name b)).
  destruct (semver.compare va vb); simpl; [right|now left|lia].
  split; [reflexivity|]. unfold sortDescending in Hc.
  destruct (String.compare (name a) (name b)); simpl; [lia|discriminate|lia].
Qed.

Lemma recent_first_trans (a b d : TaggedVersion) :
  recent_first a b -> recent_first b d -> recent_first a d.
Proof.
  pose proof precedence_order as O. pose proof String_compare_order as OS.
  intros (va & vb & Ea & Eb & Hab) (vb' & vd & Eb' & Ed & Hbd).
  rewrite Eb in Eb'. injection Eb' as <-.
  exists va, vd. split; [assumption|]. split; [assumption|].
  destruct Hab as [Hab|[Hab Nab]], Hbd as [Hbd|[Hbd Nbd]].
  - left. apply (order_opp_lt _ O). apply (order_opp_lt _ O) in Hab, Hbd.
    eapply (order_trans _ O); eassumption.
  - left. apply (order_eq _ O) in Hbd. now subst vd.
  - left. apply (order_eq _ O) in Hab. now subst vb.
  - right. apply (order_eq _ O) in Hab, Hbd. subst vb vd.
    split; [apply (order_refl _ O)|].
    intros Had.
    destruct (String.compare (name a) (name b)) eqn:E1; [| contradiction |].
    + apply (order_eq _ OS) in E1. rewrite E1 in Had. contradiction.
    + destruct (String.compare (name b) (name d)) eqn:E2; [| contradiction |].
      * apply (order_eq _ OS) in E2. rewrite <- E2 in Had. congruence.
      * apply (order_opp_lt _ OS) in E1, E2.
        pose proof (order_trans _ OS _ _ _ E2 E1) as Hda.
        apply (order_opp_lt _ OS) in Hda. congruence.
Qed.

(** The last three stages of the pipeline, from the list they start on. *)
Lemma applyTagFilterRules_Ok taggedVersions requestedVersion satisifiesVersion
  latestVersion versionMatchNotFound out :
  applyTagFilterRules formatTagNameRegex_exec taggedVersions requestedVersion
    satisifiesVersion latestVersion versionMatchNotFound = Ok out ->
  exists l,
    Array_sort sortTagsByRecentVersion
      (removeTagsWithName (reduceTagsByUniqueNames l) "latest") = Ok out.
Proof.
  unfold applyTagFilterRules. intros H. inv_bind H. inv_bind H. eauto.
Qed.

Lemma applyTagFilterRules_names taggedVersions requestedVersion satisifiesVersion
  latestVersion versionMatchNotFound out :
  applyTagFilterRules formatTagNameRegex_exec taggedVersions requestedVersion
    satisifiesVersion latestVersion versionMatchNotFound = Ok out ->
  Forall (fun t => name t <> "latest") out /\ NoDup (map name out).
Proof.
  intros H. apply applyTagFilterRules_Ok in H as (l & H).
  apply Array_sort_perm in H. split.
  - rewrite <- H. apply removeTagsWithName_names.
  - rewrite <- H. apply names_filter_NoDup, reduceTagsByUniqueNames_NoDup.
Qed.

End tag_lists.

(** ** Texts: [includes] and [replace] *)

Lemma prefix_spec (p s : string) :
  String.prefix p s = true <-> exists post, s = p +:+ post.
Proof.
  revert s. induction p as [|c p IH]; intros [|d s]; simpl.
  - split; [intros _; exists ""; reflexivity|reflexivity].
  - split; [intros _; exists (String d s); reflexivity|reflexivity].
  - split; [discriminate|intros [post [=]]].
  - destruct (Ascii.ascii_dec c d) as [->|Hne].
    + rewrite IH. split; intros [post H]; exists post; [now rewrite H|now injection H].
    + split; [discriminate|]. intros [post [= E _]]. congruence.
Qed.

Lemma string_drop_append (p s : string) : string_drop (String.length p) (p +:+ s) = s.
Proof. induction p as [|c p IH]; simpl; [now destruct s|exact IH]. Qed.

Lemma is_substring_cons (sub : string) (c : ascii) (s : string) :
  is_substring sub (String c s)
  <-> (exists post, String c s = sub +:+ post) \/ is_substring sub s.
Proof.
  split.
  - intros ([|d pre] & post & H); simpl in H.
    + left. eauto.
    + right. injection H as _ H. exists pre, post. exact H.
  - intros [[post H]|(pre & post & H)].
    + exists "", post. exact H.
    + exists (String c pre), post. simpl. now rewrite H.
Qed.

Lemma includes_eq (s sub : string) :
  includes s sub
  = if String.prefix sub s then true
    else match s with
         | EmptyString => false
         | String _ s' => includes s' sub
         end.
Proof. now destruct s. Qed.

Lemma replace_first_eq (pat s : string) :
  replace_first pat s
  = if String.prefix pat s then string_drop (String.length pat) s
    else match s with
         | EmptyString => EmptyString
         | String c s' => String c (replace_first pat s')
         end.
Proof. now destruct s. Qed.

Lemma is_substring_prefix (sub s : string) :
  String.prefix sub s = true -> is_substring sub s.
Proof. intros E. apply prefix_spec in E as [post E]. exists "", post. exact E. Qed.

Lemma is_substring_empty (sub : string) :
  is_substring sub "" -> String.prefix sub "" = true.
Proof.
  intros ([|d pre] & post & H); simpl in H; [|discriminate].
  apply prefix_spec. eauto.
Qed.

Lemma includes_spec (s sub : string) : includes s sub = true <-> is_substring sub s.
Proof.
  induction s as [|c s IH]; rewrite includes_eq;
    destruct (String.prefix sub _) eqn:E;
    try (split; [intros _; now apply is_substring_prefix|reflexivity]).
  - split; [discriminate|]. intros H. apply is_substring_empty in H. congruence.
  - rewrite IH, is_substring_cons. split; [now right|].
    intros [H|H]; [|exact H]. apply prefix_spec in H. congruence.
Qed.

Lemma replace_first_spec (pat s : string) : first_removed pat s (replace_first pat s).
Proof.
  induction s as [|c s IH]; rewrite replace_first_eq;
    destruct (String.prefix pat _) eqn:E.
  - right. apply prefix_spec in E as [post E].
    exists "", post. split; [exact E|]. split; [intros; simpl; lia|].
    rewrite E at 1. now rewrite string_drop_append.
  - left. split; [|reflexivity].
    intros H. apply is_substring_empty in H. congruence.
  - right. apply prefix_spec in E as [post E].
    exists "", post. split; [exact E|]. split; [intros; simpl; lia|].
    rewrite E. now rewrite string_drop_append.
  - assert (NP : ~ exists post, String c s = pat +:+ post).
    { intros H. apply prefix_spec in H. congruence. }
    destruct IH as [[Hn ->]|(pre & post & Hs & Hmin & ->)].
    + left. split; [|reflexivity]. rewrite is_substring_cons. tauto.
    + right. exists (String c pre), post. split; [simpl; now rewrite Hs at 1|].
      split; [|reflexivity].
      intros [|d pre'] post' H; simpl in H.
      * exfalso. apply NP. eauto.
      * injection H as _ H. simpl. apply Hmin in H. lia.
Qed.





(** Lower-casing identifies exactly the texts that differ in the case of
    their ASCII letters. *)
Lemma lower_ascii_code (c : ascii) :
  nat_of_ascii (lower_ascii c)
  = if (65 <=? nat_of_ascii c)%nat && (nat_of_ascii c <=? 90)%nat
    then (nat_of_ascii c + 32)%nat else nat_of_ascii c.
Proof.
  unfold lower_ascii.
  destruct ((65 <=? nat_of_ascii c)%nat && (nat_of_ascii c <=? 90)%nat) eqn:E;
    [|reflexivity].
  apply andb_prop in E as [E1 E2]. apply Nat.leb_le in E1, E2.
  apply nat_ascii_embedding. lia.
Qed.

Lemma nat_of_ascii_inj (c d : ascii) : nat_of_ascii c = nat_of_ascii d -> c = d.
Proof.
  intros H. rewrite <- (ascii_nat_embedding c), <- (ascii_nat_embedding d). now rewrite H.
Qed.

Lemma lower_ascii_eq_iff (c d : ascii) :
  lower_ascii c = lower_ascii d <-> same_letter c d.
Proof.
  unfold same_letter, capital. split.
  - intros H. apply (f_equal nat_of_ascii) in H. rewrite !lower_ascii_code in H.
    destruct (Nat.leb_spec 65 (nat_of_ascii c)), (Nat.leb_spec (nat_of_ascii c) 90),
             (Nat.leb_spec 65 (nat_of_ascii d)), (Nat.leb_spec (nat_of_ascii d) 90);
      simpl in H;
      first [ left; apply nat_of_ascii_inj; lia
            | right; left; lia
            | right; right; lia ].
  - intros H. apply nat_of_ascii_inj. rewrite !lower_ascii_code.
    destruct H as [->|[[Hc Hd]|[Hd Hc]]]; [reflexivity| |];
    destruct (Nat.leb_spec 65 (nat_of_ascii c)), (Nat.leb_spec (nat_of_ascii c) 90),
             (Nat.leb_spec 65 (nat_of_ascii d)), (Nat.leb_spec (nat_of_ascii d) 90);
      simpl; lia.
Qed.

Lemma toLowerCase_eq_iff (a b : string) :
  toLowerCase a = toLowerCase b <-> same_ignoring_case a b.
Proof.
  revert b. induction a as [|c a IH]; intros [|d b]; simpl;
    try (split; [discriminate|contradiction]); [tauto|].
  rewrite <- IH, <- lower_ascii_eq_iff. split.
  - intros [= H1 H2]. auto.
  - intros [-> ->]. reflexivity.
Qed.









(** ** The functions of [versionUtils.js] *)
Section properties.
Context `{G : semver.Grammar}.
Variable formatTagNameRegex_exec : string -> option string.

Lemma maxSatisfying_loop_In rangeObj versions st st' :
  semver.maxSatisfying_loop rangeObj versions st = Ok st' ->
  st' = st \/ exists v sv, st' = Some (v, sv) /\ In v versions.
Proof.
  revert st. induction versions as [|v versions IH]; simpl; intros st H.
  - injection H as <-. now left.
  - inv_bind H. apply IH in H. destruct H as [->|(w & sw & -> & Hw)].
    + unfold semver.maxSatisfying_step in E. inv_bind E.
      destruct a0.
      * destruct st as [[max maxSV]|].
        -- inv_bind E. destruct (semver.ltb maxSV a0); injection E as <-.
           ++ right. exists v, a0. split; [reflexivity|now left].
           ++ now left.
        -- inv_bind E. injection E as <-.
           right. exists v, a0. split; [reflexivity|now left].
      * injection E as <-. now left.
    + right. exists w, sw. split; [reflexivity|now right].
Qed.

Lemma maxSatisfying_In versions r v :
  semver.maxSatisfying versions r = Ok (Some v) -> In v versions.
Proof.
  unfold semver.maxSatisfying. destruct (semver.Range_new r); [|discriminate].
  intros H. inv_bind H. apply maxSatisfying_loop_In in E as [->|(w & sw & -> & Hw)].
  - discriminate.
  - simpl in H. now injection H as <-.
Qed.

(** C8, as amended: [deduceMaxSatisfyingFromSemverList] never raises: it
    returns what [semver.maxSatisfying] returns, which is [null] when the
    requested version is not a valid range, and when that call raises the
    exception is caught and the requested version is returned unchanged. *)
Theorem deduceMaxSatisfyingFromSemverList_never_raises
  (semverList : list string) (requestedVersion : string) :
  returns (deduceMaxSatisfyingFromSemverList semverList requestedVersion) /\
  (forall e, semver.maxSatisfying semverList requestedVersion = Throw e ->
     deduceMaxSatisfyingFromSemverList semverList requestedVersion
     = Ok (Some requestedVersion)) /\
  (forall v, semver.maxSatisfying semverList requestedVersion = Ok v ->
     deduceMaxSatisfyingFromSemverList semverList requestedVersion = Ok v) /\
  (semver.Range_new requestedVersion = None ->
     deduceMaxSatisfyingFromSemverList semverList requestedVersion = Ok None).
Proof.
  split; [|split; [|split]].
  - unfold deduceMaxSatisfyingFromSemverList, returns.
    destruct (semver.maxSatisfying semverList requestedVersion); simpl; eauto.
  - intros e H. unfold deduceMaxSatisfyingFromSemverList. now rewrite H.
  - intros v H. unfold deduceMaxSatisfyingFromSemverList. now rewrite H.
  - intros H. unfold deduceMaxSatisfyingFromSemverList, semver.maxSatisfying.
    now rewrite H.
Qed.

(** C10: what [deduceMaxSatisfyingFromSemverList] returns is [null], an
    element of the list, or the requested version; so the
    [maxSatisfyingVersion] of the map [buildMapFromVersionList] returns is
    [null], one of the versions [pluckSemverVersions] kept, or the requested
    version. *)
Theorem maxSatisfyingVersion_origin :
  (forall semverList requestedVersion,
     exists v,
       deduceMaxSatisfyingFromSemverList semverList requestedVersion = Ok v /\
       (v = None \/ (exists s, v = Some s /\ In s semverList)
        \/ v = Some requestedVersion)) /\
  (forall versions requestedVersion,
     exists versionMap,
       buildMapFromVersionList formatTagNameRegex_exec versions requestedVersion
       = Ok versionMap /\
       (maxSatisfyingVersion versionMap = None
        \/ (exists s, maxSatisfyingVersion versionMap = Some s
                      /\ In s (pluckSemverVersions versions))
        \/ maxSatisfyingVersion versionMap = Some requestedVersion)).
Proof.
  assert (D : forall semverList requestedVersion,
     exists v,
       deduceMaxSatisfyingFromSemverList semverList requestedVersion = Ok v /\
       (v = None \/ (exists s, v = Some s /\ In s semverList)
        \/ v = Some requestedVersion)).
  { intros l r. unfold deduceMaxSatisfyingFromSemverList.
    destruct (semver.maxSatisfying l r) as [[s|]|e] eqn:E; simpl.
    - exists (Some s). split; [reflexivity|]. right. left.
      exists s. split; [reflexivity|]. eapply maxSatisfying_In, E.
    - exists None. auto.
    - exists (Some r). auto. }
  split; [exact D|].
  intros versions r. unfold buildMapFromVersionList.
  destruct (D (pluckSemverVersions versions) r) as (v & -> & Hv). simpl. eauto.
Qed.


Lemma isOlderVersion_ltr (V R : string) :
  isOlderVersion V R
  = (let! older := semver.ltr (testedVersion V R) R in
     Ok (match semver.prerelease R, semver.prerelease V with
         | None, Some _ => older || includes R (testedVersion V R)
         | _, _ => older
         end)).
Proof.
  unfold isOlderVersion, testedVersion.
  destruct (semver.prerelease R); [|destruct (semver.prerelease V)];
    try reflexivity;
    match goal with |- ?m = _ => destruct m; reflexivity end.
Qed.

(** C3, as amended: [isOlderVersion] returns a boolean exactly when the text
    it tests parses as a version and the requested version parses as a
    range; the boolean is true when that text is less-than-range against the
    requested version, or, in the prerelease correction, is contained in the
    requested text, and false otherwise.  When the text or the range does
    not parse, the [TypeError] of [semver.ltr] escapes: that of the version
    when the tested text is not one, else that of the range.  The tested
    text is the version, without the first occurrence of its prerelease
    suffix when the requested version has no prerelease and the version has
    one. *)
Theorem isOlderVersion_returns_iff (V R : string) :
  (returns (isOlderVersion V R) <->
     is_Some (semver.SemVer_new (testedVersion V R)) /\ is_Some (semver.Range_new R)) /\
  (semver.SemVer_new (testedVersion V R) = None ->
     isOlderVersion V R = Throw (InvalidVersion (testedVersion V R))) /\
  (is_Some (semver.SemVer_new (testedVersion V R)) -> semver.Range_new R = None ->
     isOlderVersion V R = Throw (InvalidRange R)) /\
  (forall older,
     isOlderVersion V R = Ok older ->
     (older = true <->
        semver.ltr (testedVersion V R) R = Ok true \/
        (semver.prerelease R = None /\ is_Some (semver.prerelease V) /\
         is_substring (testedVersion V R) R))) /\
  (forall components,
     semver.prerelease R = None ->
     semver.prerelease V = Some components ->
     first_removed ("-" +:+ join "." (map semver.identifier_to_string components)) V
       (testedVersion V R)) /\
  (is_Some (semver.prerelease R) \/ semver.prerelease V = None ->
   testedVersion V R = V).
Proof.
  split; [|split; [|split; [|split; [|split]]]].
  - rewrite isOlderVersion_ltr.
    unfold returns, semver.ltr, semver.new_SemVer, semver.new_Range.
    destruct (semver.SemVer_new (testedVersion V R)) as [v|]; simpl;
      [destruct (semver.Range_new R) as [r|]; simpl|].
    + split; [intros _; split; eauto | eauto].
    + split; [intros [b [=]] | intros [_ [r [=]]]].
    + split; [intros [b [=]] | intros [[v [=]] _]].
  - intros H. rewrite isOlderVersion_ltr. unfold semver.ltr, semver.new_SemVer.
    now rewrite H.
  - intros [v H] Hr. rewrite isOlderVersion_ltr.
    unfold semver.ltr, semver.new_SemVer, semver.new_Range. now rewrite H, Hr.
  - intros older H. rewrite isOlderVersion_ltr in H. inv_bind H. rewrite E.
    injection H as <-.
    destruct (semver.prerelease R) as [cr|]; [|destruct (semver.prerelease V) as [cv|]].
    + split; [intros ->; now left|]. intros [[= ->]|([=] & _)]. reflexivity.
    + rewrite orb_true_iff, includes_spec. split.
      * intros [->|Hs]; [now left|]. right. split; [reflexivity|]. split; [eauto|exact Hs].
      * intros [[= ->]|(_ & _ & Hs)]; [now left|now right].
    + split; [intros ->; now left|]. intros [[= ->]|(_ & [x [=]] & _)]. reflexivity.
  - intros components HR HV. unfold testedVersion. rewrite HR, HV.
    apply replace_first_spec.
  - intros H. unfold testedVersion.
    destruct (semver.prerelease R) as [cr|]; [reflexivity|].
    destruct H as [[x [=]]| ->]. reflexivity.
Qed.

(** The result of [buildTagsFromVersionMap], piece by piece. *)
Lemma buildTagsFromVersionMap_Ok versionMap requestedVersion out :
  buildTagsFromVersionMap formatTagNameRegex_exec versionMap requestedVersion = Ok out ->
  exists latestVersion older satisfiesLatest fixed newer others,
    first_version versionMap = Ok latestVersion /\
    semver.satisfies (maxSatisfyingVersion versionMap) latestVersion = Ok satisfiesLatest /\
    applyTagFilterRules formatTagNameRegex_exec (taggedVersions versionMap)
      requestedVersion (maxSatisfyingVersion versionMap) latestVersion
      (falsy_string (maxSatisfyingVersion versionMap)) = Ok others /\
    out =
      Satisfies (mkSatisfiesEntry
                   (maxSatisfyingVersion versionMap)
                   newer
                   (satisfiesLatest &&
                    String.eqb (replace_caret_tilde requestedVersion) latestVersion)
                   satisfiesLatest
                   (falsy_string (semver.validRange requestedVersion))
                   (falsy_string (maxSatisfyingVersion versionMap))
                   fixed
                   true)
      :: (if satisfiesLatest &&
             String.eqb (replace_caret_tilde requestedVersion) latestVersion
          then []
          else [Latest (mkLatestEntry latestVersion older)])
      ++ map Tagged others.
Proof.
  unfold buildTagsFromVersionMap. intros H.
  inv_bind H. inv_bind H. simpl in H. inv_bind H. inv_bind H. inv_bind H. inv_bind H.
  injection H as <-. simpl. repeat eexists; eauto.
Qed.

Lemma Tagged_others_not_latest others t :
  Forall (fun t => name t <> "latest") others ->
  head (map Tagged others) = Some t -> tag_name t <> "latest".
Proof.
  destruct others as [|x l]; simpl; [discriminate|].
  intros F [= <-]. simpl. now apply Forall_inv in F.
Qed.

(** C7, as amended: whenever [buildTagsFromVersionMap] returns, its output
    starts with the ["satisfies"] entry, and the element after it is named
    ["latest"] exactly when the [isLatestVersion] flag of that entry is
    false, in which case it is the latest entry, carrying the first version
    of the map.  The function raises when the map has neither a first
    release nor a first tagged version. *)
Theorem buildTagsFromVersionMap_shape (versionMap : VersionMap) (requestedVersion : string) :
  (forall out,
     buildTagsFromVersionMap formatTagNameRegex_exec versionMap requestedVersion = Ok out ->
     exists satisfiesEntry rest,
       out = Satisfies satisfiesEntry :: rest /\
       ((exists t, head rest = Some t /\ tag_name t = "latest")
        <-> se_isLatestVersion satisfiesEntry = false) /\
       (se_isLatestVersion satisfiesEntry = false ->
        exists latestEntry rest',
          rest = Latest latestEntry :: rest' /\
          first_version versionMap = Ok (le_version latestEntry))) /\
  (forall e,
     first_version versionMap = Throw e ->
     buildTagsFromVersionMap formatTagNameRegex_exec versionMap requestedVersion = Throw e).
Proof.
  split.
  - intros out H.
    apply buildTagsFromVersionMap_Ok in H
      as (latestVersion & older & sl & fixed & newer & others & Hl & Hs & Ho & ->).
    apply applyTagFilterRules_names in Ho as [Hn _].
    eexists _, _. split; [reflexivity|]. simpl.
    destruct (sl && String.eqb (replace_caret_tilde requestedVersion) latestVersion);
      simpl.
    + split; [|discriminate]. split; [|discriminate].
      intros (t & Ht & Hname). exfalso.
      eapply Tagged_others_not_latest; eassumption.
    + split; [split; eauto|]. intros _. eauto.
  - intros e He. unfold buildTagsFromVersionMap. now rewrite He.
Qed.

(** C2, as amended: when the [satisfiesLatest] flag of the ["satisfies"]
    entry is false, the ["latest"] entry is present and its version, the
    first version of the map, is not the version of the ["satisfies"] entry,
    provided that version satisfies itself as a range (as a valid version
    does). *)
Theorem latest_differs_from_satisfies (versionMap : VersionMap)
  (requestedVersion : string) (out : list ResolvedTag) (satisfiesEntry : SatisfiesEntry)
  (rest : list ResolvedTag) (latestVersion : string) :
  buildTagsFromVersionMap formatTagNameRegex_exec versionMap requestedVersion = Ok out ->
  out = Satisfies satisfiesEntry :: rest ->
  se_satisfiesLatest satisfiesEntry = false ->
  first_version versionMap = Ok latestVersion ->
  semver.satisfies (Some latestVersion) latestVersion = Ok true ->
  exists latestEntry rest',
    rest = Latest latestEntry :: rest' /\
    le_version latestEntry = latestVersion /\
    se_version satisfiesEntry <> Some latestVersion.
Proof.
  intros H -> Hsl Hfirst Hself.
  apply buildTagsFromVersionMap_Ok in H
    as (latestVersion' & older & sl & fixed & newer & others & Hl & Hs & Ho & H).
  rewrite Hfirst in Hl. injection Hl as <-.
  injection H as -> ->. simpl in Hsl. subst sl. simpl.
  eexists _, _. split; [reflexivity|]. split; [reflexivity|]. simpl.
  intros Heq. rewrite Heq in Hs. congruence.
Qed.

(** C5, as amended: a sequence [applyTagFilterRules] returns has no entry
    named ["latest"] and no two entries with the same name; and it is in
    descending semantic-version order with ties broken by descending name
    when no version in it has an all-digit prerelease identifier above
    [Number.MAX_SAFE_INTEGER] (from there on the package compares
    identifiers after rounding them to a JavaScript number). *)
Theorem applyTagFilterRules_sorted_unique (taggedVersions : list TaggedVersion)
  (requestedVersion : string) (satisifiesVersion : option string)
  (latestVersion : string) (versionMatchNotFound : bool) (out : list TaggedVersion) :
  applyTagFilterRules formatTagNameRegex_exec taggedVersions requestedVersion
    satisifiesVersion latestVersion versionMatchNotFound = Ok out ->
  (Forall safe_tag out -> StronglySorted recent_first out) /\
  Forall (fun t => name t <> "latest") out /\
  NoDup (map name out).
Proof.
  intros H. split; [|eapply applyTagFilterRules_names, H].
  intros Safe.
  apply applyTagFilterRules_Ok in H as (l & H).
  eapply (Array_sort_sorted sortTagsByRecentVersion recent_first safe_tag);
    [| | | |exact H].
  - intros x y c. apply recent_first_le.
  - intros x y c. apply recent_first_gt.
  - apply recent_first_trans.
  - eapply Permutation_Forall; [symmetry; eapply Array_sort_perm; exact H|exact Safe].
Qed.

Lemma removeOlderVersions_kept (l : list TaggedVersion) (r : string) :
  Forall (fun t => isOlderVersion (version t) r = Ok false) l ->
  removeOlderVersions l r = Ok l.
Proof.
  unfold removeOlderVersions. induction l as [|x l IH]; simpl; [reflexivity|].
  intros F. apply Forall_cons in F as [Hx F]. now rewrite Hx, (IH F).
Qed.

Lemma removeExactVersions_kept (l : list TaggedVersion) (v : option string) :
  Forall (fun t => Some (version t) <> v) l -> removeExactVersions l v = l.
Proof.
  unfold removeExactVersions. induction l as [|x l IH]; simpl; [reflexivity|].
  intros F. apply Forall_cons in F as [Hx F].
  rewrite bool_decide_eq_false_2 by assumption. simpl. now rewrite (IH F).
Qed.

(** When stages 1 to 4 remove nothing, the pipeline is its last four
    stages. *)
Lemma applyTagFilterRules_kept taggedVersions requestedVersion satisifiesVersion
  latestVersion versionMatchNotFound :
  Forall (kept_by_stages_1_to_4 requestedVersion satisifiesVersion latestVersion
            versionMatchNotFound) taggedVersions ->
  applyTagFilterRules formatTagNameRegex_exec taggedVersions requestedVersion
    satisifiesVersion latestVersion versionMatchNotFound
  = Array_sort sortTagsByRecentVersion
      (removeTagsWithName
         (reduceTagsByUniqueNames
            (removeAmbiguousTagNames formatTagNameRegex_exec taggedVersions))
         "latest").
Proof.
  intros K. unfold applyTagFilterRules.
  assert (E1 : (if negb (falsy_string (semver.validRange requestedVersion))
                then removeOlderVersions taggedVersions requestedVersion
                else Ok taggedVersions) = Ok taggedVersions).
  { destruct (falsy_string (semver.validRange requestedVersion)) eqn:E; simpl;
      [reflexivity|].
    apply removeOlderVersions_kept. eapply Forall_impl; [exact K|].
    intros t (H & _). now apply H. }
  rewrite E1. simpl.
  rewrite (removeExactVersions_kept taggedVersions satisifiesVersion).
  2:{ eapply Forall_impl; [exact K|]. now intros t (_ & H & _). }
  rewrite (removeExactVersions_kept taggedVersions (Some latestVersion)).
  2:{ eapply Forall_impl; [exact K|]. intros t (_ & _ & H & _). congruence. }
  assert (E2 : (if versionMatchNotFound
                then removeOlderVersions taggedVersions latestVersion
                else Ok taggedVersions) = Ok taggedVersions).
  { destruct versionMatchNotFound; [|reflexivity].
    apply removeOlderVersions_kept. eapply Forall_impl; [exact K|].
    intros t (_ & _ & _ & H). now apply H. }
  rewrite E2. reflexivity.
Qed.

(** C6: deduplication keeps, for each name, the first tag of the list it
    is given and no other, whatever the versions; so for the two [beta] tags
    of the scenario, when stages 1 to 4 remove neither, the pipeline returns
    the first one alone. *)
Theorem dedupe_keeps_first_occurrence :
  (forall l n, first_named n (reduceTagsByUniqueNames l) = first_named n l) /\
  (forall l, NoDup (map name (reduceTagsByUniqueNames l))) /\
  (forall requestedVersion satisifiesVersion latestVersion versionMatchNotFound,
     formatTagNameRegex_exec "beta" = Some "beta" ->
     Forall (kept_by_stages_1_to_4 requestedVersion satisifiesVersion latestVersion
               versionMatchNotFound)
       [mkTag "beta" "1.0.0-beta.1"; mkTag "beta" "1.0.0-beta.2"] ->
     applyTagFilterRules formatTagNameRegex_exec
       [mkTag "beta" "1.0.0-beta.1"; mkTag "beta" "1.0.0-beta.2"]
       requestedVersion satisifiesVersion latestVersion versionMatchNotFound
     = Ok [mkTag "beta" "1.0.0-beta.1"]).
Proof.
  split; [intros l n; apply reduceTagsByUniqueNames_first_named|].
  split; [apply reduceTagsByUniqueNames_NoDup|].
  intros rv sat latest vmnf Hre K.
  rewrite (applyTagFilterRules_kept _ _ _ _ _ K).
  unfold removeAmbiguousTagNames. simpl. rewrite Hre. reflexivity.
Qed.

End properties.

(** ** The pipeline over a store *)
Section store.
Context `{G : semver.Grammar}.
Variable formatTagNameRegex_exec : string -> option string.

Lemma fresh_loc_None (h : Heap.heap) : h !! fresh (dom h) = None.
Proof. apply not_elem_of_dom, is_fresh. Qed.

Lemma subseteq_None (h0 h : Heap.heap) (r : Heap.loc) :
  h0 ⊆ h -> h !! r = None -> h0 !! r = None.
Proof.
  intros Hsub Hr. destruct (h0 !! r) as [l|] eqn:E; [|reflexivity].
  eapply lookup_weaken in E; [|exact Hsub]. congruence.
Qed.

Lemma run_spec_alloc (h0 h : Heap.heap) (l : list TaggedVersion) :
  h0 ⊆ h -> run_spec h0 h (Heap.alloc l) (Ok l).
Proof.
  intros Hsub. pose proof (fresh_loc_None h) as Hf.
  exists (<[fresh (dom h) := l]> h). split.
  - etrans; [exact Hsub|]. now apply insert_subseteq.
  - exists (fresh (dom h)). split; [reflexivity|]. split.
    + apply lookup_insert_eq.
    + eapply subseteq_None; eassumption.
Qed.

Lemma run_spec_ret (h0 h : Heap.heap) (r : Heap.loc) (l : list TaggedVersion) :
  h0 ⊆ h -> h !! r = Some l -> h0 !! r = None -> run_spec h0 h (Heap.ret r) (Ok l).
Proof. intros Hsub Hr H0. exists h. split; [assumption|]. exists r. auto. Qed.

Lemma run_spec_bind (h0 h : Heap.heap) (m : Heap.M Heap.loc)
  (f : Heap.loc -> Heap.M Heap.loc) (p : result (list TaggedVersion))
  (g : list TaggedVersion -> result (list TaggedVersion)) :
  run_spec h0 h m p ->
  (forall (h1 : Heap.heap) r l,
     h0 ⊆ h1 -> h1 !! r = Some l -> h0 !! r = None -> run_spec h0 h1 (f r) (g l)) ->
  run_spec h0 h (Heap.bind m f) (bind p g).
Proof.
  intros (h1 & Hsub & Hm) Hf. destruct p as [l|e]; simpl.
  - destruct Hm as (r & Hm & Hr & H0).
    destruct (Hf h1 r l Hsub Hr H0) as (h2 & Hsub2 & Hfr).
    exists h2. split; [assumption|]. unfold Heap.bind. rewrite Hm. exact Hfr.
  - exists h1. split; [assumption|]. unfold Heap.bind. now rewrite Hm.
Qed.

Lemma run_spec_filter_new (h0 h : Heap.heap) (this : Heap.loc)
  (p : TaggedVersion -> result bool) (l : list TaggedVersion) :
  h0 ⊆ h -> h !! this = Some l ->
  run_spec h0 h (Heap.filter_new this p) (Array_filter p l).
Proof.
  intros Hsub Hthis.
  assert (Hrun : Heap.filter_new this p h
                 = match Array_filter p l with
                   | Ok l' => Heap.alloc l' h
                   | Throw e => (Throw e, h)
                   end).
  { unfold Heap.filter_new, Heap.bind, Heap.read, Heap.lift. rewrite Hthis.
    now destruct (Array_filter p l). }
  unfold run_spec. destruct (Array_filter p l) as [l'|e].
  - destruct (run_spec_alloc h0 h l' Hsub) as (h' & Hs & r & Ha & Hr).
    exists h'. split; [assumption|]. exists r. rewrite Hrun. auto.
  - exists h. rewrite Hrun. auto.
Qed.

Lemma Array_filter_pure {A} (f : A -> bool) (l : list A) :
  Array_filter (fun x => Ok (f x)) l = Ok (List.filter f l).
Proof.
  induction l as [|x l IH]; simpl; [reflexivity|]. rewrite IH. simpl.
  now destruct (f x).
Qed.

Lemma run_spec_slice (h0 h : Heap.heap) (this : Heap.loc) (l : list TaggedVersion) :
  h0 ⊆ h -> h !! this = Some l -> run_spec h0 h (Heap.slice this) (Ok l).
Proof.
  intros Hsub Hthis.
  assert (Hrun : Heap.slice this h = Heap.alloc l h).
  { unfold Heap.slice, Heap.bind, Heap.read. now rewrite Hthis. }
  destruct (run_spec_alloc h0 h l Hsub) as (h' & Hs & r & Ha & Hr).
  exists h'. split; [assumption|]. exists r. rewrite Hrun. auto.
Qed.

Lemma run_spec_sort_in_place (h0 h : Heap.heap) (this : Heap.loc)
  (cmp : TaggedVersion -> TaggedVersion -> result Z) (l : list TaggedVersion) :
  h0 ⊆ h -> h !! this = Some l -> h0 !! this = None ->
  run_spec h0 h (Heap.sort_in_place this cmp) (Array_sort cmp l).
Proof.
  intros Hsub Hthis H0.
  assert (Hrun : Heap.sort_in_place this cmp h
                 = match Array_sort cmp l with
                   | Ok l' => (Ok this, <[this := l']> h)
                   | Throw e => (Throw e, h)
                   end).
  { unfold Heap.sort_in_place, Heap.bind, Heap.read, Heap.lift, Heap.write, Heap.ret.
    rewrite Hthis. now destruct (Array_sort cmp l). }
  unfold run_spec. destruct (Array_sort cmp l) as [l'|e].
  - exists (<[this := l']> h). split.
    + now apply insert_subseteq_r.
    + exists this. split; [exact Hrun|]. split; [apply lookup_insert_eq|assumption].
  - exists h. auto.
Qed.

(** A [reduce] whose callback pushes on the accumulator or leaves it alone:
    the accumulator ends with the list the pure fold computes. *)
Lemma reduce_loop_push (h : Heap.heap) (u : Heap.loc)
  (keep : list TaggedVersion -> TaggedVersion -> option TaggedVersion)
  (f : Heap.loc -> TaggedVersion -> Heap.M Heap.loc) :
  (forall (h1 : Heap.heap) acc x,
     h1 !! u = Some acc ->
     f u x h1 = (Ok u, <[u := match keep acc x with
                              | Some y => acc ++ [y]
                              | None => acc
                              end]> h1)) ->
  forall l acc,
    Heap.reduce_loop f l u (<[u := acc]> h)
    = (Ok u, <[u := fold_left (fun a x => match keep a x with
                                         | Some y => a ++ [y]
                                         | None => a
                                         end) l acc]> h).
Proof.
  intros Hf. induction l as [|x l IH]; intros acc; simpl.
  - reflexivity.
  - unfold Heap.bind. rewrite (Hf _ acc x) by apply lookup_insert_eq.
    rewrite insert_insert_eq. apply IH.
Qed.

Lemma run_spec_reduce (h0 h : Heap.heap) (this : Heap.loc)
  (keep : list TaggedVersion -> TaggedVersion -> option TaggedVersion)
  (f : Heap.loc -> TaggedVersion -> Heap.M Heap.loc) (l : list TaggedVersion) :
  (forall u (h1 : Heap.heap) acc x,
     h1 !! u = Some acc ->
     f u x h1 = (Ok u, <[u := match keep acc x with
                              | Some y => acc ++ [y]
                              | None => acc
                              end]> h1)) ->
  h0 ⊆ h -> h !! this = Some l ->
  run_spec h0 h
    (Heap.bind (Heap.alloc []) (fun init => Heap.reduce this f init))
    (Ok (fold_left (fun a x => match keep a x with
                               | Some y => a ++ [y]
                               | None => a
                               end) l [])).
Proof.
  intros Hf Hsub Hthis. pose proof (fresh_loc_None h) as Hfresh.
  set (u := fresh (dom h)) in *.
  assert (Hne : u <> this) by (intros E; rewrite E in Hfresh; congruence).
  eexists. split; [|exists u; split; [|split]].
  2:{ unfold Heap.bind at 1, Heap.alloc. fold u.
      unfold Heap.reduce, Heap.bind, Heap.read.
      rewrite lookup_insert_ne by assumption. rewrite Hthis.
      apply (reduce_loop_push h u keep f (Hf u)). }
  - etrans; [exact Hsub|]. now apply insert_subseteq.
  - apply lookup_insert_eq.
  - eapply subseteq_None; eassumption.
Qed.

Lemma push_insert (h : Heap.heap) (u : Heap.loc) (acc : list TaggedVersion)
  (x : TaggedVersion) :
  h !! u = Some acc -> Heap.push u x h = (Ok tt, <[u := acc ++ [x]]> h).
Proof. intros Hu. unfold Heap.push, Heap.bind, Heap.read, Heap.write. now rewrite Hu. Qed.

Lemma fold_left_pointwise {A B} (f g : A -> B -> A) (l : list B) (a : A) :
  (forall a x, f a x = g a x) -> fold_left f l a = fold_left g l a.
Proof.
  intros E. revert a. induction l as [|x l IH]; intros a; simpl; [reflexivity|].
  now rewrite E, IH.
Qed.

Lemma run_spec_reduceTagsByUniqueNames (h0 h : Heap.heap) (this : Heap.loc)
  (l : list TaggedVersion) :
  h0 ⊆ h -> h !! this = Some l ->
  run_spec h0 h (Heap.reduceTagsByUniqueNames this) (Ok (reduceTagsByUniqueNames l)).
Proof.
  intros Hsub Hthis.
  pose proof (run_spec_reduce h0 h this
    (fun unique current =>
       if negb (existsb (fun x => String.eqb (name x) (name current)) unique)
       then Some current else None)) as R.
  unfold Heap.reduceTagsByUniqueNames, reduceTagsByUniqueNames.
  rewrite (fold_left_pointwise _
    (fun a x => match (if negb (existsb (fun y => String.eqb (name y) (name x)) a)
                       then Some x else None) with
                | Some y => a ++ [y]
                | None => a
                end)).
  - apply R; [|assumption..].
    intros u h1 acc x Hu. unfold Heap.bind at 1, Heap.read. rewrite Hu.
    destruct (negb (existsb (fun y => String.eqb (name y) (name x)) acc)).
    + unfold Heap.bind. now rewrite (push_insert h1 u acc x Hu).
    + unfold Heap.ret. now rewrite insert_id.
  - intros a x.
    now destruct (negb (existsb (fun y => String.eqb (name y) (name x)) a)).
Qed.

Lemma run_spec_removeAmbiguousTagNames (h0 h : Heap.heap) (this : Heap.loc)
  (l : list TaggedVersion) :
  h0 ⊆ h -> h !! this = Some l ->
  run_spec h0 h (Heap.removeAmbiguousTagNames formatTagNameRegex_exec this)
    (Ok (removeAmbiguousTagNames formatTagNameRegex_exec l)).
Proof.
  intros Hsub Hthis.
  pose proof (run_spec_reduce h0 h this
    (fun (results : list TaggedVersion) current =>
       match formatTagNameRegex_exec (name current) with
       | None => Some (mkTag (name current) (version current))
       | Some regexResult =>
           if (1 <? String.length regexResult)%nat
           then Some (mkTag (toLowerCase regexResult) (version current))
           else None
       end)) as R.
  unfold Heap.removeAmbiguousTagNames, removeAmbiguousTagNames.
  rewrite (fold_left_pointwise _
    (fun a x => match (match formatTagNameRegex_exec (name x) with
                       | None => Some (mkTag (name x) (version x))
                       | Some regexResult =>
                           if (1 <? String.length regexResult)%nat
                           then Some (mkTag (toLowerCase regexResult) (version x))
                           else None
                       end) with
                | Some y => a ++ [y]
                | None => a
                end)).
  - apply R; [|assumption..].
    intros u h1 acc x Hu.
    destruct (formatTagNameRegex_exec (name x)) as [m|].
    + destruct (1 <? String.length m)%nat.
      * unfold Heap.bind. now rewrite (push_insert h1 u acc _ Hu).
      * unfold Heap.ret. now rewrite insert_id.
    + unfold Heap.bind. now rewrite (push_insert h1 u acc _ Hu).
  - intros a x. destruct (formatTagNameRegex_exec (name x)) as [m|]; [|reflexivity].
    now destruct (1 <? String.length m)%nat.
Qed.

Lemma run_spec_bind_pure (h0 h : Heap.heap) (m : Heap.M Heap.loc)
  (f : Heap.loc -> Heap.M Heap.loc) (l : list TaggedVersion)
  (q : result (list TaggedVersion)) :
  run_spec h0 h m (Ok l) ->
  (forall (h1 : Heap.heap) r,
     h0 ⊆ h1 -> h1 !! r = Some l -> h0 !! r = None -> run_spec h0 h1 (f r) q) ->
  run_spec h0 h (Heap.bind m f) q.
Proof.
  intros (h1 & Hsub & r & Hm & Hr & H0) Hf.
  destruct (Hf h1 r Hsub Hr H0) as (h2 & Hsub2 & Hq).
  exists h2. split; [assumption|]. unfold Heap.bind. rewrite Hm. exact Hq.
Qed.

Lemma run_spec_removeExactVersions (h0 h : Heap.heap) (this : Heap.loc)
  (l : list TaggedVersion) (v : option string) :
  h0 ⊆ h -> h !! this = Some l ->
  run_spec h0 h (Heap.removeExactVersions this v) (Ok (removeExactVersions l v)).
Proof.
  intros Hsub Hthis. unfold removeExactVersions. rewrite <- Array_filter_pure.
  now apply run_spec_filter_new.
Qed.

Lemma run_spec_removeTagsWithName (h0 h : Heap.heap) (this : Heap.loc)
  (l : list TaggedVersion) (n : string) :
  h0 ⊆ h -> h !! this = Some l ->
  run_spec h0 h (Heap.removeTagsWithName this n) (Ok (removeTagsWithName l n)).
Proof.
  intros Hsub Hthis. unfold removeTagsWithName. rewrite <- Array_filter_pure.
  now apply run_spec_filter_new.
Qed.

Lemma run_spec_removeOlderVersions (h0 h : Heap.heap) (this : Heap.loc)
  (l : list TaggedVersion) (r : string) :
  h0 ⊆ h -> h !! this = Some l ->
  run_spec h0 h (Heap.removeOlderVersions this r) (removeOlderVersions l r).
Proof. intros Hsub Hthis. now apply run_spec_filter_new. Qed.

(** The pipeline over the store computes what the pipeline over lists
    computes, in an array of its own, and leaves the arrays it was given as
    they were. *)
Lemma run_spec_applyTagFilterRules (h : Heap.heap) (taggedVersions : Heap.loc)
  (elements : list TaggedVersion) requestedVersion satisifiesVersion latestVersion
  versionMatchNotFound :
  h !! taggedVersions = Some elements ->
  run_spec h h
    (Heap.applyTagFilterRules formatTagNameRegex_exec taggedVersions requestedVersion
       satisifiesVersion latestVersion versionMatchNotFound)
    (applyTagFilterRules formatTagNameRegex_exec elements requestedVersion
       satisifiesVersion latestVersion versionMatchNotFound).
Proof.
  intros Hin.
  unfold Heap.applyTagFilterRules, applyTagFilterRules.
  eapply run_spec_bind_pure; [apply run_spec_slice; [reflexivity|exact Hin]|].
  intros h1 r1 S1 L1 F1.
  eapply run_spec_bind.
  { destruct (negb (falsy_string (semver.validRange requestedVersion))).
    - eapply run_spec_removeOlderVersions; eassumption.
    - eapply run_spec_ret; eassumption. }
  intros h2 r2 l2 S2 L2 F2.
  eapply run_spec_bind_pure; [eapply run_spec_removeExactVersions; eassumption|].
  intros h3 r3 S3 L3 F3.
  eapply run_spec_bind_pure; [eapply run_spec_removeExactVersions; eassumption|].
  intros h4 r4 S4 L4 F4.
  eapply run_spec_bind.
  { destruct versionMatchNotFound.
    - eapply run_spec_removeOlderVersions; eassumption.
    - eapply run_spec_ret; eassumption. }
  intros h5 r5 l5 S5 L5 F5.
  eapply run_spec_bind_pure; [eapply run_spec_removeAmbiguousTagNames; eassumption|].
  intros h6 r6 S6 L6 F6.
  eapply run_spec_bind_pure; [eapply run_spec_reduceTagsByUniqueNames; eassumption|].
  intros h7 r7 S7 L7 F7.
  eapply run_spec_bind_pure; [eapply run_spec_removeTagsWithName; eassumption|].
  intros h8 r8 S8 L8 F8.
  eapply run_spec_sort_in_place; eassumption.
Qed.

(** C9: [applyTagFilterRules] does not mutate the array it is given: in
    the store it leaves, whether it returns or raises, the caller's array
    holds the same elements in the same order, as every other array that
    existed before the call does; what it returns is an array that did not
    exist before, holding the list the pipeline computes. *)
Theorem applyTagFilterRules_does_not_mutate (h : Heap.heap) (taggedVersions : Heap.loc)
  (elements : list TaggedVersion) (requestedVersion : string)
  (satisifiesVersion : option string) (latestVersion : string)
  (versionMatchNotFound : bool) :
  h !! taggedVersions = Some elements ->
  forall res (h' : Heap.heap),
    Heap.applyTagFilterRules formatTagNameRegex_exec taggedVersions requestedVersion
      satisifiesVersion latestVersion versionMatchNotFound h = (res, h') ->
    h' !! taggedVersions = Some elements /\
    h ⊆ h' /\
    match applyTagFilterRules formatTagNameRegex_exec elements requestedVersion
            satisifiesVersion latestVersion versionMatchNotFound with
    | Ok out => exists r, res = Ok r /\ r <> taggedVersions /\ h' !! r = Some out
    | Throw e => res = Throw e
    end.
Proof.
  intros Hin res h' Hrun.
  destruct (run_spec_applyTagFilterRules h taggedVersions elements requestedVersion
              satisifiesVersion latestVersion versionMatchNotFound Hin)
    as (h1 & Hsub & Hspec).
  destruct (applyTagFilterRules formatTagNameRegex_exec elements requestedVersion
              satisifiesVersion latestVersion versionMatchNotFound) as [out|e].
  - destruct Hspec as (r & Hr & Hout & Hfresh). rewrite Hr in Hrun.
    injection Hrun as <- <-.
    split; [eapply lookup_weaken; eassumption|]. split; [assumption|].
    exists r. split; [reflexivity|]. split; [congruence|assumption].
  - rewrite Hspec in Hrun. injection Hrun as <- <-.
    split; [eapply lookup_weaken; eassumption|]. auto.
Qed.

End store.

(** ** The scenarios, on the concrete grammar *)

(** C1, as amended: for [rawVersions = ["1.0.0","1.1.0","2.0.0"]] and
    [requestedVersion = "1.1.0"], [buildMapFromVersionList] yields the three
    releases in their order and [maxSatisfyingVersion = "1.1.0"], and
    [buildTagsFromVersionMap] yields two entries: the ["satisfies"] entry
    with version ["1.1.0"], [isFixedVersion] true and [isLatestVersion]
    false, then the ["latest"] entry, whose version is the first release
    ["1.0.0"] and whose [isOlderThanRequested] is true. *)
Theorem scenario_A (exec : string -> option string) :
  buildMapFromVersionList exec ["1.0.0"; "1.1.0"; "2.0.0"] "1.1.0"
  = Ok (mkVersionMap ["1.0.0"; "1.1.0"; "2.0.0"] [] (Some "1.1.0")) /\
  buildTagsFromVersionMap exec
    (mkVersionMap ["1.0.0"; "1.1.0"; "2.0.0"] [] (Some "1.1.0")) "1.1.0"
  = Ok [Satisfies (mkSatisfiesEntry (Some "1.1.0") (VBool true) false false false
                     false (VBool true) true);
        Latest (mkLatestEntry "1.0.0" (VBool true))].
Proof. split; vm_compute; reflexivity. Qed.

(** C1 as stated fails: the ["latest"] entry of scenario A does not carry
    ["2.0.0"]. *)
Lemma scenario_A_latest_is_not_2_0_0 :
  ~ (exists satisfiesEntry latestEntry,
       (let! versionMap :=
          buildMapFromVersionList formatTagNameRegex_exec
            ["1.0.0"; "1.1.0"; "2.0.0"] "1.1.0" in
        buildTagsFromVersionMap formatTagNameRegex_exec versionMap "1.1.0")
       = Ok [Satisfies satisfiesEntry; Latest latestEntry] /\
       se_version satisfiesEntry = Some "1.1.0" /\
       se_isFixedVersion satisfiesEntry = VBool true /\
       se_isLatestVersion satisfiesEntry = false /\
       le_version latestEntry = "2.0.0" /\
       le_isOlderThanRequested latestEntry = VBool false).
Proof.
  intros (s & l & H & _ & _ & _ & Hv & _).
  vm_compute in H. injection H as <- <-. discriminate Hv.
Qed.

(** C2 as stated fails: with [^2.0.0] requested and [2.0.1] the first
    release, the ["latest"] entry is present and carries the version of the
    ["satisfies"] entry. *)
Lemma latest_may_equal_satisfies :
  exists satisfiesEntry latestEntry rest,
    (let! versionMap :=
       buildMapFromVersionList formatTagNameRegex_exec ["2.0.1"; "2.0.0"] "^2.0.0" in
     buildTagsFromVersionMap formatTagNameRegex_exec versionMap "^2.0.0")
    = Ok (Satisfies satisfiesEntry :: Latest latestEntry :: rest) /\
    se_isLatestVersion satisfiesEntry = false /\
    se_version satisfiesEntry = Some (le_version latestEntry).
Proof. eexists _, _, _. vm_compute. split; [reflexivity|]. split; reflexivity. Qed.

Lemma latest_differs_from_satisfies_witness :
  exists latestEntry rest',
    [Latest (mkLatestEntry "2.0.0" (VBool false))]
    = Latest latestEntry :: rest' /\
    le_version latestEntry = "2.0.0" /\
    Some "2.1.0" <> Some "2.0.0".
Proof.
  apply (latest_differs_from_satisfies formatTagNameRegex_exec
           (mkVersionMap ["2.0.0"; "2.1.0"] [] (Some "2.1.0")) "^2.0.0"
           [Satisfies (mkSatisfiesEntry (Some "2.1.0") (VBool true) false false false
                         false (VBool false) true);
            Latest (mkLatestEntry "2.0.0" (VBool false))]
           (mkSatisfiesEntry (Some "2.1.0") (VBool true) false false false
              false (VBool false) true)).
  - vm_compute. reflexivity.
  - reflexivity.
  - reflexivity.
  - reflexivity.
  - vm_compute. reflexivity.
Defined.

(** C3 as stated fails: a version that does not parse makes
    [isOlderVersion] raise. *)
Lemma isOlderVersion_raises :
  ~ returns (isOlderVersion "foo" "1.0.0").
Proof. intros [b H]. vm_compute in H. discriminate H. Qed.

Lemma isOlderVersion_returns_iff_witness :
  returns (isOlderVersion "1.0.0-beta.1" "^1.0.0").
Proof.
  apply (proj1 (isOlderVersion_returns_iff "1.0.0-beta.1" "^1.0.0")).
  split; vm_compute; eauto.
Defined.


(** C5 as stated fails: two versions that differ in an all-digit
    prerelease identifier above [Number.MAX_SAFE_INTEGER] compare as equal,
    so the names decide and the lower version comes first. *)
Lemma applyTagFilterRules_unsorted_above_max_safe_integer :
  applyTagFilterRules formatTagNameRegex_exec
    [mkTag "aa" "1.0.0-9007199254740993"; mkTag "bb" "1.0.0-9007199254740992"]
    "0.1.0" (Some "0.1.0") "0.1.0" false
  = Ok [mkTag "bb" "1.0.0-9007199254740992"; mkTag "aa" "1.0.0-9007199254740993"] /\
  ~ StronglySorted recent_first
      [mkTag "bb" "1.0.0-9007199254740992"; mkTag "aa" "1.0.0-9007199254740993"].
Proof.
  split; [vm_compute; reflexivity|].
  intros H. apply StronglySorted_inv in H as [_ F]. apply Forall_inv in F.
  destruct F as (va & vb & Ea & Eb & Hc).
  vm_compute in Ea, Eb. injection Ea as <-. injection Eb as <-.
  destruct Hc as [Hc|[Hc _]]; vm_compute in Hc; discriminate Hc.
Qed.

Lemma applyTagFilterRules_sorted_unique_witness :
  StronglySorted recent_first
    [mkTag "beta" "3.0.0-beta.2"; mkTag "alpha" "3.0.0-alpha.1"; mkTag "rc" "3.0.0-RC.1"] /\
  Forall (fun t => name t <> "latest")
    [mkTag "beta" "3.0.0-beta.2"; mkTag "alpha" "3.0.0-alpha.1"; mkTag "rc" "3.0.0-RC.1"] /\
  NoDup (map name
    [mkTag "beta" "3.0.0-beta.2"; mkTag "alpha" "3.0.0-alpha.1"; mkTag "rc" "3.0.0-RC.1"]).
Proof.
  assert (H : applyTagFilterRules formatTagNameRegex_exec
                [mkTag "rc" "3.0.0-RC.1"; mkTag "beta" "3.0.0-beta.2";
                 mkTag "beta" "3.0.0-beta.1"; mkTag "alpha" "3.0.0-alpha.1";
                 mkTag "latest" "3.0.0-latest.1"; mkTag "beta" "1.0.0-beta.9"]
                "^2.0.0" (Some "2.1.0") "2.0.0" false
              = Ok [mkTag "beta" "3.0.0-beta.2"; mkTag "alpha" "3.0.0-alpha.1";
                    mkTag "rc" "3.0.0-RC.1"])
    by (vm_compute; reflexivity).
  destruct (applyTagFilterRules_sorted_unique formatTagNameRegex_exec _ _ _ _ _ _ H)
    as (S & F & D).
  split; [|split; assumption]. apply S.
  repeat (apply Forall_cons_2 || apply Forall_nil_2);
    intros v E; vm_compute in E; injection E as <-; reflexivity.
Defined.

Lemma dedupe_keeps_first_occurrence_witness :
  applyTagFilterRules formatTagNameRegex_exec
    [mkTag "beta" "1.0.0-beta.1"; mkTag "beta" "1.0.0-beta.2"]
    "0.9.0" (Some "0.9.0") "0.9.0" false
  = Ok [mkTag "beta" "1.0.0-beta.1"].
Proof.
  apply (proj2 (proj2 (dedupe_keeps_first_occurrence formatTagNameRegex_exec))).
  - reflexivity.
  - repeat constructor; simpl; try discriminate; vm_compute; reflexivity.
Defined.

(** C7 as stated fails: on the map of a package without versions there is
    no output. *)
Lemma buildTagsFromVersionMap_raises_on_empty_map :
  buildMapFromVersionList formatTagNameRegex_exec [] "1.0.0"
  = Ok (mkVersionMap [] [] None) /\
  ~ returns (buildTagsFromVersionMap formatTagNameRegex_exec
               (mkVersionMap [] [] None) "1.0.0").
Proof.
  split; [vm_compute; reflexivity|].
  intros [out H]. vm_compute in H. discriminate H.
Qed.

Lemma buildTagsFromVersionMap_shape_witness :
  exists satisfiesEntry rest,
    [Satisfies (mkSatisfiesEntry (Some "2.1.0") (VBool true) false false false
                  false (VBool false) true);
     Latest (mkLatestEntry "2.0.0" (VBool false));
     Tagged (mkTag "beta" "3.0.0-beta.2")]
    = Satisfies satisfiesEntry :: rest /\
    ((exists t, head rest = Some t /\ tag_name t = "latest")
     <-> se_isLatestVersion satisfiesEntry = false) /\
    (se_isLatestVersion satisfiesEntry = false ->
     exists latestEntry rest',
       rest = Latest latestEntry :: rest' /\
       first_version
         (mkVersionMap ["2.0.0"; "2.1.0"]
            [mkTag "beta" "3.0.0-beta.2"; mkTag "beta" "3.0.0-beta.1"] (Some "2.1.0"))
       = Ok (le_version latestEntry)).
Proof.
  apply (proj1 (buildTagsFromVersionMap_shape formatTagNameRegex_exec
                  (mkVersionMap ["2.0.0"; "2.1.0"]
                     [mkTag "beta" "3.0.0-beta.2"; mkTag "beta" "3.0.0-beta.1"]
                     (Some "2.1.0"))
                  "^2.0.0")).
  vm_compute. reflexivity.
Defined.

Lemma deduceMaxSatisfyingFromSemverList_never_raises_witness :
  semver.maxSatisfying ["^1.0.0"] "1.0.0" = Throw (InvalidVersion "^1.0.0") /\
  deduceMaxSatisfyingFromSemverList ["^1.0.0"] "1.0.0" = Ok (Some "1.0.0").
Proof.
  split; [vm_compute; reflexivity|].
  apply (proj1 (proj2 (deduceMaxSatisfyingFromSemverList_never_raises ["^1.0.0"] "1.0.0"))
           (InvalidVersion "^1.0.0")).
  vm_compute. reflexivity.
Defined.

(** C8 as stated fails: with a malformed range the requested version is
    not what is returned. *)
Lemma deduceMaxSatisfyingFromSemverList_null_on_malformed_range :
  semver.Range_new "not a range" = None /\
  deduceMaxSatisfyingFromSemverList ["1.0.0"; "2.0.0"] "not a range" = Ok None /\
  deduceMaxSatisfyingFromSemverList ["1.0.0"; "2.0.0"] "not a range"
  <> Ok (Some "not a range").
Proof.
  split; [vm_compute; reflexivity|].
  split; [vm_compute; reflexivity|].
  intros H. vm_compute in H. discriminate H.
Qed.

(** A range that does not parse does not reach the [catch]:
    [semver.maxSatisfying] itself answers [null]. *)
Example deduceMaxSatisfyingFromSemverList_malformed_range :
  deduceMaxSatisfyingFromSemverList ["1.0.0"; "2.0.0"] "not a range" = Ok None.
Proof. vm_compute. reflexivity. Qed.

Lemma applyTagFilterRules_does_not_mutate_witness :
  let elements := [mkTag "beta" "3.0.0-beta.1"; mkTag "rc" "3.0.0-rc.1";
                   mkTag "beta" "3.0.0-beta.2"] in
  let h : Heap.heap := {[ 0%nat := elements ]} in
  let run := Heap.applyTagFilterRules formatTagNameRegex_exec 0%nat "^2.0.0"
               (Some "2.1.0") "2.0.0" false h in
  snd run !! 0%nat = Some elements /\
  h ⊆ snd run /\
  exists r, fst run = Ok r /\ r <> 0%nat /\
            snd run !! r = Some [mkTag "rc" "3.0.0-rc.1"; mkTag "beta" "3.0.0-beta.1"].
Proof.
  intros elements h run.
  assert (Hin : h !! 0%nat = Some elements) by reflexivity.
  assert (Hrun : Heap.applyTagFilterRules formatTagNameRegex_exec 0%nat "^2.0.0"
                   (Some "2.1.0") "2.0.0" false h = (fst run, snd run))
    by apply surjective_pairing.
  pose proof (applyTagFilterRules_does_not_mutate formatTagNameRegex_exec h 0%nat
                elements "^2.0.0" (Some "2.1.0") "2.0.0" false Hin _ _ Hrun) as H.
  assert (E : applyTagFilterRules formatTagNameRegex_exec elements "^2.0.0"
                (Some "2.1.0") "2.0.0" false
              = Ok [mkTag "rc" "3.0.0-rc.1"; mkTag "beta" "3.0.0-beta.1"])
    by (vm_compute; reflexivity).
  rewrite E in H. exact H.
Defined.

(** * Further properties *)

(** ** Strings *)

Lemma lower_ascii_idempotent (c : ascii) : lower_ascii (lower_ascii c) = lower_ascii c.
Proof. destruct c as [[] [] [] [] [] [] [] []]; reflexivity. Qed.

Lemma toLowerCase_idempotent (s : string) : toLowerCase (toLowerCase s) = toLowerCase s.
Proof.
  induction s as [|c s IH]; simpl; [reflexivity|].
  now rewrite lower_ascii_idempotent, IH.
Qed.

Lemma toLowerCase_length (s : string) : String.length (toLowerCase s) = String.length s.
Proof. induction s as [|c s IH]; simpl; [reflexivity|]. now rewrite IH. Qed.

(** ** Filtering and partitioning the version list *)

Lemma filter_sublist {A} (f : A -> bool) (l : list A) : sublist (List.filter f l) l.
Proof.
  induction l as [|x l IH]; simpl; [constructor|].
  destruct (f x); now constructor.
Qed.

Lemma filter_idempotent {A} (f : A -> bool) (l : list A) :
  List.filter f (List.filter f l) = List.filter f l.
Proof.
  induction l as [|x l IH]; simpl; [reflexivity|].
  destruct (f x) eqn:E; simpl; [rewrite E|]; now rewrite ?IH.
Qed.

Lemma filter_partition_perm {A} (f : A -> bool) (l : list A) :
  Permutation (List.filter (fun x => negb (f x)) l ++ List.filter f l) l.
Proof.
  induction l as [|x l IH]; simpl; [constructor|].
  destruct (f x); simpl.
  - rewrite <- Permutation_middle. now constructor.
  - now constructor.
Qed.

Lemma deduceMax_returns `{G : semver.Grammar}
  (semverList : list string) (requestedVersion : string) :
  exists max, deduceMaxSatisfyingFromSemverList semverList requestedVersion = Ok max.
Proof.
  unfold deduceMaxSatisfyingFromSemverList.
  destruct (semver.maxSatisfying semverList requestedVersion); simpl; eauto.
Qed.

Section version_lists.
Context `{G : semver.Grammar}.
Variable formatTagNameRegex_exec : string -> option string.

(** [semver.validRange] never answers the empty string. *)
Lemma validRange_truthy (v : string) :
  falsy_string (semver.validRange v) = false <-> is_Some (semver.Range_new v).
Proof.
  unfold semver.validRange. destruct (semver.Range_new v) as [r|]; simpl.
  - split; [eauto|intros _].
    destruct (String.eqb_spec (semver.range r) ""); [reflexivity|].
    now apply String.eqb_neq.
  - split; [discriminate|]. now intros [r [=]].
Qed.

(** X1: [pluckSemverVersions] keeps the entries that parse as a range and
    only those, in the order of the input; applying it twice changes
    nothing more. *)
Theorem pluckSemverVersions_keeps_valid (versions : list string) :
  sublist (pluckSemverVersions versions) versions /\
  (forall v, In v (pluckSemverVersions versions)
             <-> In v versions /\ is_Some (semver.Range_new v)) /\
  pluckSemverVersions (pluckSemverVersions versions) = pluckSemverVersions versions.
Proof.
  unfold pluckSemverVersions. split; [apply filter_sublist|].
  split; [|apply filter_idempotent].
  intros v. rewrite filter_In, <- validRange_truthy.
  now destruct (falsy_string (semver.validRange v)).
Qed.

Lemma parseVersion_version (v : string) :
  info_version (parseVersion formatTagNameRegex_exec v) = v.
Proof.
  unfold parseVersion. now destruct (semver.prerelease v) as [[|i l]|].
Qed.

Lemma parseVersion_isPrerelease (v : string) :
  isPrerelease (parseVersion formatTagNameRegex_exec v) = true
  <-> is_Some (semver.prerelease v).
Proof.
  unfold parseVersion. destruct (semver.prerelease v) as [[|i l]|] eqn:E; simpl.
  - unfold semver.prerelease in E. destruct (semver.parse v) as [sv|]; [|discriminate].
    destruct (semver.prerelease_ids sv); discriminate.
  - split; eauto.
  - split; [discriminate|]. now intros [x [=]].
Qed.

Lemma parseVersion_group_lower (v : string) :
  toLowerCase (prereleaseGroup (parseVersion formatTagNameRegex_exec v))
  = prereleaseGroup (parseVersion formatTagNameRegex_exec v).
Proof.
  unfold parseVersion. destruct (semver.prerelease v) as [[|i l]|]; simpl; try reflexivity.
  destruct (formatTagNameRegex_exec (semver.identifier_to_string i)); simpl;
    [apply toLowerCase_idempotent|reflexivity].
Qed.

(** The [forEach] of [pluckTagsAndReleases], from any accumulator. *)
Lemma pluckTagsAndReleases_fold (l : list string) (acc : list string * list TaggedVersion) :
  fold_left
    (fun (acc : list string * list TaggedVersion) (versionInfo : VersionInfo) =>
       if negb (isPrerelease versionInfo)
       then (fst acc ++ [info_version versionInfo], snd acc)
       else (fst acc,
             snd acc ++ [mkTag (prereleaseGroup versionInfo) (info_version versionInfo)]))
    (map (parseVersion formatTagNameRegex_exec) l) acc
  = (fst acc ++
       List.filter
         (fun v => negb (isPrerelease (parseVersion formatTagNameRegex_exec v))) l,
     snd acc ++
       map (fun v => mkTag (prereleaseGroup (parseVersion formatTagNameRegex_exec v)) v)
         (List.filter (fun v => isPrerelease (parseVersion formatTagNameRegex_exec v)) l)).
Proof.
  revert acc. induction l as [|v l IH]; intros [rs ts]; simpl.
  - now rewrite !app_nil_r.
  - rewrite IH. rewrite parseVersion_version.
    destruct (isPrerelease (parseVersion formatTagNameRegex_exec v)); simpl;
      now rewrite <- !app_assoc.
Qed.

(** X2: [pluckTagsAndReleases] partitions its input: the releases are the
    versions without prerelease components, the tagged versions those with,
    both in the order of the input, so that every version is listed once;
    [maxSatisfyingVersion] is not set. *)
Theorem pluckTagsAndReleases_partition (versions : list string) :
  let versionMap := pluckTagsAndReleases formatTagNameRegex_exec versions in
  releases versionMap
  = List.filter (fun v => negb (bool_decide (is_Some (semver.prerelease v)))) versions /\
  map version (taggedVersions versionMap)
  = List.filter (fun v => bool_decide (is_Some (semver.prerelease v))) versions /\
  Permutation (releases versionMap ++ map version (taggedVersions versionMap)) versions /\
  maxSatisfyingVersion versionMap = None.
Proof.
  assert (E : forall v, isPrerelease (parseVersion formatTagNameRegex_exec v)
                        = bool_decide (is_Some (semver.prerelease v))).
  { intros v. pose proof (parseVersion_isPrerelease v) as H.
    destruct (isPrerelease (parseVersion formatTagNameRegex_exec v)).
    - symmetry. apply bool_decide_eq_true. now apply H.
    - symmetry. apply bool_decide_eq_false. intros Hs. apply H in Hs. discriminate. }
  unfold pluckTagsAndReleases. rewrite pluckTagsAndReleases_fold. simpl.
  rewrite map_map. simpl. rewrite map_id.
  assert (E1 : List.filter
                 (fun v => negb (isPrerelease (parseVersion formatTagNameRegex_exec v)))
                 versions
               = List.filter (fun v => negb (bool_decide (is_Some (semver.prerelease v))))
                   versions).
  { apply filter_ext. intros v. now rewrite E. }
  assert (E2 : List.filter
                 (fun v => isPrerelease (parseVersion formatTagNameRegex_exec v)) versions
               = List.filter (fun v => bool_decide (is_Some (semver.prerelease v)))
                   versions).
  { apply filter_ext. intros v. now rewrite E. }
  rewrite E1, E2. split; [reflexivity|]. split; [reflexivity|].
  split; [apply filter_partition_perm|reflexivity].
Qed.

(** X3: every tagged version [pluckTagsAndReleases] builds is a prerelease
    version of the input, and its name is in lower case: the lower-cased
    match of the tag-name pattern on the first prerelease component, or the
    empty string when the pattern does not match. *)
Theorem pluckTagsAndReleases_tags (versions : list string) :
  Forall
    (fun t =>
       In (version t) versions /\
       toLowerCase (name t) = name t /\
       exists first rest,
         semver.prerelease (version t) = Some (first :: rest) /\
         name t = match formatTagNameRegex_exec (semver.identifier_to_string first) with
                  | Some regexResult => toLowerCase regexResult
                  | None => ""
                  end)
    (taggedVersions (pluckTagsAndReleases formatTagNameRegex_exec versions)).
Proof.
  unfold pluckTagsAndReleases. rewrite pluckTagsAndReleases_fold. simpl.
  apply Forall_forall. intros t Ht. apply list_elem_of_In, in_map_iff in Ht.
  destruct Ht as (v & <- & Hv). apply filter_In in Hv as [Hin Hpre]. simpl.
  split; [assumption|]. split; [apply parseVersion_group_lower|].
  unfold parseVersion in *.
  destruct (semver.prerelease v) as [[|first rest]|]; simpl in *; try discriminate.
  eauto.
Qed.

(** X4: [buildMapFromVersionList] never raises.  The releases and the
    tagged versions of the map it returns are, together, the entries of the
    input that parse as a range, each listed once; the tagged versions are
    those with prerelease components. *)
Theorem buildMapFromVersionList_total (versions : list string) (requestedVersion : string) :
  exists versionMap,
    buildMapFromVersionList formatTagNameRegex_exec versions requestedVersion
    = Ok versionMap /\
    Permutation (releases versionMap ++ map version (taggedVersions versionMap))
      (pluckSemverVersions versions) /\
    Forall (fun v => is_Some (semver.Range_new v) /\ semver.prerelease v = None)
      (releases versionMap) /\
    Forall (fun t => is_Some (semver.Range_new (version t))
                     /\ is_Some (semver.prerelease (version t)))
      (taggedVersions versionMap).
Proof.
  unfold buildMapFromVersionList.
  destruct (deduceMax_returns
              (pluckSemverVersions versions) requestedVersion) as [max ->].
  simpl. eexists. split; [reflexivity|]. simpl.
  unfold pluckTagsAndReleases. rewrite pluckTagsAndReleases_fold. simpl.
  assert (V : forall v, In v (pluckSemverVersions versions) ->
                        is_Some (semver.Range_new v)).
  { intros v Hv. unfold pluckSemverVersions in Hv. apply filter_In in Hv as [_ Hv].
    apply validRange_truthy. now destruct (falsy_string (semver.validRange v)). }
  split; [|split].
  - rewrite map_map. simpl. rewrite map_id. apply filter_partition_perm.
  - apply Forall_forall. intros v Hv. apply list_elem_of_In, filter_In in Hv as [Hin Hp].
    split; [now apply V|].
    destruct (semver.prerelease v) eqn:E; [|reflexivity].
    assert (Hs : is_Some (semver.prerelease v)) by (rewrite E; eauto).
    apply parseVersion_isPrerelease in Hs. rewrite Hs in Hp. discriminate.
  - apply Forall_forall. intros t Ht. apply list_elem_of_In, in_map_iff in Ht.
    destruct Ht as (v & <- & Hv). apply filter_In in Hv as [Hin Hp]. simpl.
    split; [now apply V|]. now apply parseVersion_isPrerelease.
Qed.

End version_lists.

(** ** Lists of tags, continued *)

Lemma fold_left_push_omap {A B} (keep : B -> option A) (l : list B) (acc : list A) :
  fold_left (fun a x => match keep x with
                        | Some y => a ++ [y]
                        | None => a
                        end) l acc
  = acc ++ omap keep l.
Proof.
  revert acc. induction l as [|x l IH]; intros acc; simpl.
  - now rewrite app_nil_r.
  - rewrite IH. destruct (keep x); simpl; [now rewrite <- app_assoc|reflexivity].
Qed.

Lemma reduce_fold_sublist (l acc : list TaggedVersion) :
  exists k,
    fold_left
      (fun unique current =>
         if negb (existsb (fun x => String.eqb (name x) (name current)) unique)
         then unique ++ [current]
         else unique) l acc
    = acc ++ k /\ sublist k l.
Proof.
  revert acc. induction l as [|x l IH]; intros acc; simpl.
  - exists []. split; [now rewrite app_nil_r|constructor].
  - destruct (negb (existsb (fun y => String.eqb (name y) (name x)) acc)).
    + destruct (IH (acc ++ [x])) as (k & -> & Hk).
      exists (x :: k). split; [now rewrite <- app_assoc|now constructor].
    + destruct (IH acc) as (k & -> & Hk).
      exists k. split; [reflexivity|now constructor].
Qed.

Lemma reduce_fold_unique (l acc : list TaggedVersion) :
  NoDup (map name (acc ++ l)) ->
  fold_left
    (fun unique current =>
       if negb (existsb (fun x => String.eqb (name x) (name current)) unique)
       then unique ++ [current]
       else unique) l acc
  = acc ++ l.
Proof.
  revert acc. induction l as [|x l IH]; intros acc Hnd; simpl.
  - now rewrite app_nil_r.
  - assert (Hx : existsb (fun y => String.eqb (name y) (name x)) acc = false).
    { destruct (existsb (fun y => String.eqb (name y) (name x)) acc) eqn:E; [|reflexivity].
      apply existsb_name in E. rewrite map_app in Hnd. simpl in Hnd.
      apply NoDup_app in Hnd as (_ & Hd & _).
      exfalso. apply (Hd (name x)); [now apply list_elem_of_In|]. now left. }
    rewrite Hx. simpl. rewrite IH; rewrite <- app_assoc; [reflexivity|exact Hnd].
Qed.

Section tag_lists_more.
Context `{G : semver.Grammar}.
Variable formatTagNameRegex_exec : string -> option string.

(** X5: [reduceTagsByUniqueNames] only removes tags and keeps the order of
    those it keeps; it returns a list without repeated name as it is, so
    applying it twice is applying it once. *)
Theorem reduceTagsByUniqueNames_sublist (tags : list TaggedVersion) :
  sublist (reduceTagsByUniqueNames tags) tags /\
  (NoDup (map name tags) -> reduceTagsByUniqueNames tags = tags) /\
  reduceTagsByUniqueNames (reduceTagsByUniqueNames tags) = reduceTagsByUniqueNames tags.
Proof.
  assert (U : forall l, NoDup (map name l) -> reduceTagsByUniqueNames l = l).
  { intros l Hl. unfold reduceTagsByUniqueNames. now rewrite reduce_fold_unique. }
  split; [|split].
  - unfold reduceTagsByUniqueNames.
    destruct (reduce_fold_sublist tags []) as (k & -> & Hk). exact Hk.
  - apply U.
  - apply U, reduceTagsByUniqueNames_NoDup.
Qed.

(** X6: [resolveVersionAgainstTags] answers the default version when no tag
    bears the name (in particular for an empty list), else the version of
    the first tag that bears it; removing the later tags of each name with
    [reduceTagsByUniqueNames] does not change the answer. *)
Theorem resolveVersionAgainstTags_first (tags : list TaggedVersion)
  (tagName defaultVersion : string) :
  (~ In tagName (map name tags) ->
   resolveVersionAgainstTags tags tagName defaultVersion = defaultVersion) /\
  (In tagName (map name tags) ->
   exists before t after,
     tags = before ++ t :: after /\
     ~ In tagName (map name before) /\
     name t = tagName /\
     resolveVersionAgainstTags tags tagName defaultVersion = version t) /\
  resolveVersionAgainstTags (reduceTagsByUniqueNames tags) tagName defaultVersion
  = resolveVersionAgainstTags tags tagName defaultVersion.
Proof.
  unfold resolveVersionAgainstTags. fold (first_named tagName tags).
  fold (first_named tagName (reduceTagsByUniqueNames tags)).
  split; [|split].
  - intros Hn. apply first_named_None in Hn. now rewrite Hn.
  - intros Hin. induction tags as [|x l IH]; [destruct Hin|].
    rewrite first_named_cons.
    destruct (String.eqb_spec (name x) tagName) as [E|Hne].
    + exists [], x, l. simpl. auto.
    + destruct Hin as [E|Hin]; [contradiction|].
      destruct (IH Hin) as (before & t & after & -> & Hb & Ht & Hr).
      exists (x :: before), t, after. simpl. split; [reflexivity|].
      split; [|split; assumption]. intros [E|Hin']; [contradiction|auto].
  - now rewrite reduceTagsByUniqueNames_first_named.
Qed.

Lemma removeAmbiguousTagNames_omap (tags : list TaggedVersion) :
  removeAmbiguousTagNames formatTagNameRegex_exec tags
  = omap (fun current =>
            match formatTagNameRegex_exec (name current) with
            | None => Some (mkTag (name current) (version current))
            | Some regexResult =>
                if (1 <? String.length regexResult)%nat
                then Some (mkTag (toLowerCase regexResult) (version current))
                else None
            end) tags.
Proof.
  unfold removeAmbiguousTagNames.
  rewrite (fold_left_pointwise _
    (fun a x => match (match formatTagNameRegex_exec (name x) with
                       | None => Some (mkTag (name x) (version x))
                       | Some regexResult =>
                           if (1 <? String.length regexResult)%nat
                           then Some (mkTag (toLowerCase regexResult) (version x))
                           else None
                       end) with
                | Some y => a ++ [y]
                | None => a
                end)).
  - now rewrite (fold_left_push_omap _ tags []).
  - intros a x. destruct (formatTagNameRegex_exec (name x)) as [m|]; [|reflexivity].
    now destruct (1 <? String.length m)%nat.
Qed.

(** X7: [removeAmbiguousTagNames] never changes a version nor the order:
    the versions of its result are a subsequence of the versions it is
    given.  A tag whose name the pattern does not match is kept as it is; a
    tag whose name it matches is kept only when the match has at least two
    characters, and is then named by the lower-cased match. *)
Theorem removeAmbiguousTagNames_versions (tags : list TaggedVersion) :
  let out := removeAmbiguousTagNames formatTagNameRegex_exec tags in
  sublist (map version out) (map version tags) /\
  (forall t, In t tags -> formatTagNameRegex_exec (name t) = None -> In t out) /\
  Forall
    (fun t =>
       exists t0,
         In t0 tags /\ version t = version t0 /\
         (formatTagNameRegex_exec (name t0) = None /\ name t = name t0
          \/ exists regexResult,
               formatTagNameRegex_exec (name t0) = Some regexResult /\
               (1 < String.length regexResult)%nat /\
               name t = toLowerCase regexResult /\
               toLowerCase (name t) = name t /\
               (1 < String.length (name t))%nat))
    out.
Proof.
  intros out. unfold out. rewrite removeAmbiguousTagNames_omap. clear out.
  split; [|split].
  - induction tags as [|x l IH]; simpl; [constructor|].
    destruct (formatTagNameRegex_exec (name x)) as [m|].
    + destruct (1 <? String.length m)%nat; simpl; now constructor.
    + simpl. now constructor.
  - intros t Hin Hnone. apply list_elem_of_In, list_elem_of_omap.
    exists t. split; [now apply list_elem_of_In|]. rewrite Hnone. now destruct t.
  - apply Forall_forall. intros t Ht. apply list_elem_of_omap in Ht as (t0 & Hin & Hk).
    exists t0. split; [now apply list_elem_of_In|].
    destruct (formatTagNameRegex_exec (name t0)) as [m|] eqn:E.
    + destruct (Nat.ltb_spec 1 (String.length m)); [|discriminate].
      injection Hk as <-. simpl. split; [reflexivity|]. right.
      exists m. rewrite toLowerCase_idempotent, toLowerCase_length. auto.
    + injection Hk as <-. simpl. auto.
Qed.

Lemma sortTagsByRecentVersion_value (a b : TaggedVersion) (va vb : semver.SemVer) :
  semver.SemVer_new (version a) = Some va ->
  semver.SemVer_new (version b) = Some vb ->
  sortTagsByRecentVersion a b
  = Ok match semver.compare va vb with
       | Lt => 1%Z
       | Gt => (-1)%Z
       | Eq => sortDescending (name a) (name b)
       end.
Proof.
  intros Ea Eb.
  unfold sortTagsByRecentVersion, semver.lt, semver.gt, semver.new_SemVer,
    semver.ltb, semver.gtb.
  rewrite Ea, Eb. simpl. now destruct (semver.compare va vb).
Qed.

(** X8: [sortTagsByRecentVersion] returns exactly when both versions
    parse, else raises; its value is -1, 0 or 1; swapping the arguments
    negates the value; and the value is 0 only for two tags with the same
    name whose versions the package compares as equal, which are the same
    parsed version when neither has an all-digit prerelease identifier above
    [Number.MAX_SAFE_INTEGER]. *)
Theorem sortTagsByRecentVersion_consistent (tagA tagB : TaggedVersion) :
  (returns (sortTagsByRecentVersion tagA tagB)
   <-> is_Some (semver.SemVer_new (version tagA))
       /\ is_Some (semver.SemVer_new (version tagB))) /\
  (forall c,
     sortTagsByRecentVersion tagA tagB = Ok c ->
     (c = (-1)%Z \/ c = 0%Z \/ c = 1%Z) /\
     sortTagsByRecentVersion tagB tagA = Ok (- c)%Z /\
     (c = 0%Z ->
      name tagA = name tagB /\
      exists va vb,
        semver.SemVer_new (version tagA) = Some va /\
        semver.SemVer_new (version tagB) = Some vb /\
        semver.compare va vb = Eq /\
        (safe_identifiers va = true -> safe_identifiers vb = true -> va = vb))).
Proof.
  split.
  - split.
    + intros [c H]. apply sortTagsByRecentVersion_Ok in H as (va & vb & -> & -> & _).
      split; eauto.
    + intros [[va Ea] [vb Eb]]. rewrite (sortTagsByRecentVersion_value _ _ _ _ Ea Eb).
      unfold returns. eauto.
  - intros c H. apply sortTagsByRecentVersion_Ok in H as (va & vb & Ea & Eb & ->).
    rewrite (sortTagsByRecentVersion_value _ _ _ _ Eb Ea).
    rewrite (semver_compare_antisym va vb).
    unfold sortDescending.
    rewrite (order_antisym _ String_compare_order (name tagA) (name tagB)).
    destruct (semver.compare va vb) eqn:Ev; simpl.
    + destruct (String.compare (name tagA) (name tagB)) eqn:En; simpl.
      * apply (order_eq _ String_compare_order) in En.
        split; [auto|]. split; [reflexivity|]. intros _. split; [assumption|].
        exists va, vb. split; [assumption|]. split; [assumption|].
        split; [exact Ev|]. intros Sa Sb.
        rewrite (semver_compare_safe va vb Sa Sb) in Ev.
        now apply (order_eq _ precedence_order).
      * split; [auto|]. split; [reflexivity|discriminate].
      * split; [auto|]. split; [reflexivity|discriminate].
    + split; [auto|]. split; [reflexivity|discriminate].
    + split; [auto|]. split; [reflexivity|discriminate].
Qed.

End tag_lists_more.

(** ** The filter stages and the pipeline, continued *)

Lemma Array_filter_returns {A} (p : A -> result bool) (l : list A) :
  returns (Array_filter p l) <-> Forall (fun x => returns (p x)) l.
Proof.
  unfold returns. induction l as [|x l IH]; simpl.
  - split; [constructor|eauto].
  - split.
    + intros [out H]. inv_bind H. inv_bind H.
      constructor; [eauto|]. apply IH. eauto.
    + intros F. apply Forall_cons in F as [[b Hb] F]. apply IH in F as [r Hr].
      rewrite Hb, Hr. simpl. eauto.
Qed.

Lemma sort_insert_returns {A} (cmp : A -> A -> result Z) (x : A) (l : list A) :
  Forall (fun y => returns (cmp x y)) l -> returns (sort_insert cmp x l).
Proof.
  unfold returns. induction l as [|y l IH]; simpl; intros F; [eauto|].
  apply Forall_cons in F as [[c Hc] F]. rewrite Hc. simpl.
  destruct (c <=? 0)%Z; [eauto|].
  destruct (IH F) as [r ->]. simpl. eauto.
Qed.

Lemma Array_sort_returns {A} (cmp : A -> A -> result Z) (l : list A) :
  (forall x y, In x l -> In y l -> returns (cmp x y)) -> returns (Array_sort cmp l).
Proof.
  induction l as [|x l IH]; simpl; intros H; [unfold returns; eauto|].
  destruct IH as [s Hs]; [intros a b Ha Hb; apply H; now right|].
  rewrite Hs. simpl. apply sort_insert_returns.
  apply Forall_forall. intros y Hy. apply H; [now left|right].
  apply Array_sort_perm in Hs. apply list_elem_of_In in Hy.
  eapply Permutation_in; [symmetry; exact Hs|exact Hy].
Qed.

Lemma omap_length_le {A B} (f : A -> option B) (l : list A) :
  (List.length (omap f l) <= List.length l)%nat.
Proof.
  induction l as [|x l IH]; [reflexivity|].
  change (omap f (x :: l))
    with (match f x with Some y => y :: omap f l | None => omap f l end).
  destruct (f x); cbn [List.length]; lia.
Qed.

Section pipeline_more.
Context `{G : semver.Grammar}.
Variable formatTagNameRegex_exec : string -> option string.

Lemma removeOlderVersions_Ok (tags out : list TaggedVersion) (r : string) :
  removeOlderVersions tags r = Ok out ->
  sublist out tags /\
  forall t, In t out <-> In t tags /\ isOlderVersion (version t) r = Ok false.
Proof.
  unfold removeOlderVersions. intros H.
  apply Array_filter_Ok in H as (f & -> & F). split; [apply filter_sublist|].
  intros t. rewrite filter_In. rewrite Forall_forall in F. split.
  - intros [Hin Hf]. split; [assumption|].
    specialize (F t (proj2 (list_elem_of_In _ _) Hin)). rewrite Hf in F.
    destruct (isOlderVersion (version t) r) as [[|]|e]; simpl in F;
      [discriminate|reflexivity|discriminate].
  - intros [Hin Ho]. split; [assumption|].
    specialize (F t (proj2 (list_elem_of_In _ _) Hin)). rewrite Ho in F. simpl in F.
    now injection F as <-.
Qed.

Lemma isOlderVersion_test_returns (t : TaggedVersion) (r : string) :
  returns (let! older := isOlderVersion (version t) r in Ok (negb older))
  <-> returns (isOlderVersion (version t) r).
Proof.
  unfold returns. destruct (isOlderVersion (version t) r) as [b|e]; simpl.
  - split; eauto.
  - split; intros [x [=]].
Qed.

Lemma removeOlderVersions_returns_tests (tags : list TaggedVersion) (r : string) :
  returns (removeOlderVersions tags r) ->
  Forall (fun t => returns (isOlderVersion (version t) r)) tags.
Proof.
  unfold removeOlderVersions. rewrite Array_filter_returns. intros F.
  eapply Forall_impl; [exact F|]. intros t. simpl. apply isOlderVersion_test_returns.
Qed.

(** X9: [removeOlderVersions] returns exactly when every older-test
    returns, and raises otherwise; a list it returns holds, in the order of
    the input, exactly the tags the test reports not older. *)
Theorem removeOlderVersions_keeps_not_older (tags : list TaggedVersion)
  (versionRange : string) :
  (returns (removeOlderVersions tags versionRange)
   <-> Forall (fun t => returns (isOlderVersion (version t) versionRange)) tags) /\
  (forall out,
     removeOlderVersions tags versionRange = Ok out ->
     sublist out tags /\
     forall t, In t out
               <-> In t tags /\ isOlderVersion (version t) versionRange = Ok false).
Proof.
  split; [|intros out; apply removeOlderVersions_Ok].
  unfold removeOlderVersions. rewrite Array_filter_returns.
  split; intros F; (eapply Forall_impl; [exact F|]); intros t; simpl;
    apply isOlderVersion_test_returns.
Qed.

(** X10: [removeExactVersions] keeps, in their order, exactly the tags
    whose version is not the given one: with [null] it removes nothing, with
    a version it leaves no tag of that version and every other tag; two
    removals commute. *)
Theorem removeExactVersions_exact (tags : list TaggedVersion) (v w : option string) :
  removeExactVersions tags None = tags /\
  (forall t, In t (removeExactVersions tags v) <-> In t tags /\ Some (version t) <> v) /\
  Forall (fun t => Some (version t) <> v) (removeExactVersions tags v) /\
  sublist (removeExactVersions tags v) tags /\
  removeExactVersions (removeExactVersions tags v) w
  = removeExactVersions (removeExactVersions tags w) v.
Proof.
  assert (M : forall t, In t (removeExactVersions tags v)
                        <-> In t tags /\ Some (version t) <> v).
  { intros t. unfold removeExactVersions. rewrite filter_In, negb_true_iff.
    rewrite bool_decide_eq_false. reflexivity. }
  split; [|split; [exact M|split; [|unfold removeExactVersions; split]]].
  - apply removeExactVersions_kept. apply Forall_forall. intros t _. discriminate.
  - apply Forall_forall. intros t Ht. now apply list_elem_of_In, M in Ht.
  - apply filter_sublist.
  - clear M. induction tags as [|x l IH]; simpl; [reflexivity|].
    destruct (bool_decide (Some (version x) = v)) eqn:Ev,
             (bool_decide (Some (version x) = w)) eqn:Ew; simpl;
      rewrite ?Ev, ?Ew; simpl; now rewrite IH.
Qed.

(** The last stages keep versions: each tag they return has the version of
    a tag they were given. *)
Lemma pipeline_tail_versions (l : list TaggedVersion) (t : TaggedVersion) :
  In t (removeTagsWithName
          (reduceTagsByUniqueNames (removeAmbiguousTagNames formatTagNameRegex_exec l))
          "latest") ->
  exists t0, In t0 l /\ version t = version t0.
Proof.
  unfold removeTagsWithName. rewrite filter_In. intros [Ht _].
  unfold reduceTagsByUniqueNames in Ht.
  destruct (reduce_fold_sublist (removeAmbiguousTagNames formatTagNameRegex_exec l) [])
    as (k & E & Hk).
  rewrite E in Ht. simpl in Ht. apply list_elem_of_In in Ht.
  apply (sublist_subseteq _ _ Hk) in Ht.
  rewrite removeAmbiguousTagNames_omap in Ht.
  apply list_elem_of_omap in Ht as (t0 & Hin & Hkeep).
  exists t0. split; [now apply list_elem_of_In|].
  destruct (formatTagNameRegex_exec (name t0)) as [m|].
  - destruct (1 <? String.length m)%nat; [|discriminate]. now injection Hkeep as <-.
  - now injection Hkeep as <-.
Qed.

Lemma pipeline_tail_length (l : list TaggedVersion) :
  (List.length
     (removeTagsWithName
        (reduceTagsByUniqueNames (removeAmbiguousTagNames formatTagNameRegex_exec l))
        "latest")
   <= List.length l)%nat.
Proof.
  unfold removeTagsWithName.
  etrans; [apply (sublist_length _ _ (filter_sublist _ _))|].
  unfold reduceTagsByUniqueNames.
  destruct (reduce_fold_sublist (removeAmbiguousTagNames formatTagNameRegex_exec l) [])
    as (k & -> & Hk). simpl.
  etrans; [apply (sublist_length _ _ Hk)|].
  rewrite removeAmbiguousTagNames_omap. apply omap_length_le.
Qed.

(** The first four stages, when they return: a list of tags of the input,
    none of them older or of an excluded version. *)
Lemma pipeline_head_Ok taggedVersions requestedVersion satisifiesVersion
  latestVersion versionMatchNotFound out :
  applyTagFilterRules formatTagNameRegex_exec taggedVersions requestedVersion
    satisifiesVersion latestVersion versionMatchNotFound = Ok out ->
  exists l4,
    Array_sort sortTagsByRecentVersion
      (removeTagsWithName
         (reduceTagsByUniqueNames (removeAmbiguousTagNames formatTagNameRegex_exec l4))
         "latest") = Ok out /\
    sublist l4 taggedVersions /\
    Forall
      (fun t =>
         Some (version t) <> satisifiesVersion /\
         version t <> latestVersion /\
         (is_Some (semver.Range_new requestedVersion) ->
          isOlderVersion (version t) requestedVersion = Ok false) /\
         (versionMatchNotFound = true ->
          isOlderVersion (version t) latestVersion = Ok false))
      l4.
Proof.
  unfold applyTagFilterRules. intros H. inv_bind H. inv_bind H.
  rename a into l1, a0 into l4. exists l4. split; [exact H|]. clear H.
  assert (H1 : sublist l1 taggedVersions /\
               Forall (fun t => is_Some (semver.Range_new requestedVersion) ->
                                isOlderVersion (version t) requestedVersion = Ok false) l1).
  { destruct (falsy_string (semver.validRange requestedVersion)) eqn:V; simpl in E.
    - injection E as <-. split; [reflexivity|].
      apply Forall_forall. intros t _ Hv. apply validRange_truthy in Hv. congruence.
    - apply removeOlderVersions_Ok in E as [S I]. split; [assumption|].
      apply Forall_forall. intros t Ht _. now apply list_elem_of_In, I in Ht. }
  destruct H1 as [S1 F1].
  set (l3 := removeExactVersions (removeExactVersions l1 satisifiesVersion)
               (Some latestVersion)) in *.
  assert (S3 : sublist l3 l1).
  { unfold l3, removeExactVersions.
    etrans; apply filter_sublist. }
  assert (F3 : Forall (fun t => Some (version t) <> satisifiesVersion
                                /\ version t <> latestVersion) l3).
  { apply Forall_forall. intros t Ht. unfold l3, removeExactVersions in Ht.
    apply list_elem_of_In, filter_In in Ht as [Ht H2]. apply filter_In in Ht as [_ H1].
    split.
    - intros E1. rewrite bool_decide_eq_true_2 in H1 by assumption. discriminate.
    - intros E2. rewrite bool_decide_eq_true_2 in H2 by congruence. discriminate. }
  assert (H4 : sublist l4 l3 /\
               Forall (fun t => versionMatchNotFound = true ->
                                isOlderVersion (version t) latestVersion = Ok false) l4).
  { destruct versionMatchNotFound.
    - apply removeOlderVersions_Ok in E0 as [S I]. split; [assumption|].
      apply Forall_forall. intros t Ht _. now apply list_elem_of_In, I in Ht.
    - injection E0 as <-. split; [reflexivity|].
      apply Forall_forall. intros t _. discriminate. }
  destruct H4 as [S4 F4].
  split; [etrans; [exact S4|]; etrans; [exact S3|exact S1]|].
  rewrite Forall_forall in F1, F3, F4. apply Forall_forall. intros t Ht.
  pose proof (sublist_subseteq _ _ S4 _ Ht) as Ht3.
  pose proof (sublist_subseteq _ _ S3 _ Ht3) as Ht1.
  destruct (F3 t Ht3). auto.
Qed.

(** X11: what [applyTagFilterRules] returns is no longer than what it is
    given, and each tag it returns carries the version of a tag of the
    input; that version is neither the satisfying nor the latest version,
    is not older than the requested version when that is a valid range, and
    is not older than the latest version when no match was found. *)
Theorem applyTagFilterRules_versions (taggedVersions : list TaggedVersion)
  (requestedVersion : string) (satisifiesVersion : option string)
  (latestVersion : string) (versionMatchNotFound : bool) (out : list TaggedVersion) :
  applyTagFilterRules formatTagNameRegex_exec taggedVersions requestedVersion
    satisifiesVersion latestVersion versionMatchNotFound = Ok out ->
  (List.length out <= List.length taggedVersions)%nat /\
  Forall
    (fun t =>
       In (version t) (map version taggedVersions) /\
       Some (version t) <> satisifiesVersion /\
       version t <> latestVersion /\
       (is_Some (semver.Range_new requestedVersion) ->
        isOlderVersion (version t) requestedVersion = Ok false) /\
       (versionMatchNotFound = true ->
        isOlderVersion (version t) latestVersion = Ok false))
    out.
Proof.
  intros H. apply pipeline_head_Ok in H as (l4 & Hsort & S4 & F4).
  apply Array_sort_perm in Hsort. split.
  - rewrite <- (Permutation_length Hsort).
    etrans; [apply pipeline_tail_length|]. now apply sublist_length.
  - apply Forall_forall. intros t Ht. apply list_elem_of_In in Ht.
    apply (Permutation_in _ (Permutation_sym Hsort)) in Ht.
    apply pipeline_tail_versions in Ht as (t0 & Hin & Ev). rewrite Ev.
    apply list_elem_of_In in Hin. rewrite Forall_forall in F4.
    split; [|now apply F4].
    apply in_map, list_elem_of_In. now apply (sublist_subseteq _ _ S4).
Qed.

(** The pipeline returns when the versions parse and the older-tests
    return. *)
Lemma pipeline_returns taggedVersions requestedVersion satisifiesVersion
  latestVersion versionMatchNotFound :
  Forall
    (fun t =>
       is_Some (semver.SemVer_new (version t)) /\
       (is_Some (semver.Range_new requestedVersion) ->
        returns (isOlderVersion (version t) requestedVersion)) /\
       (versionMatchNotFound = true ->
        returns (isOlderVersion (version t) latestVersion)))
    taggedVersions ->
  returns (applyTagFilterRules formatTagNameRegex_exec taggedVersions requestedVersion
             satisifiesVersion latestVersion versionMatchNotFound).
Proof.
  intros F. rewrite Forall_forall in F.
  unfold applyTagFilterRules.
  assert (H1 : exists l1,
             (if negb (falsy_string (semver.validRange requestedVersion))
              then removeOlderVersions taggedVersions requestedVersion
              else Ok taggedVersions) = Ok l1 /\ sublist l1 taggedVersions).
  { destruct (falsy_string (semver.validRange requestedVersion)) eqn:V; simpl.
    - eexists. split; reflexivity.
    - destruct (proj2 (Array_filter_returns
                  (fun tag => let! older := isOlderVersion (version tag) requestedVersion in
                              Ok (negb older)) taggedVersions)) as [l1 H1].
      + apply Forall_forall. intros t Ht. apply isOlderVersion_test_returns.
        apply F; [assumption|]. now apply validRange_truthy.
      + exists l1. split; [exact H1|]. now apply removeOlderVersions_Ok in H1. }
  destruct H1 as (l1 & -> & S1). simpl.
  set (l3 := removeExactVersions (removeExactVersions l1 satisifiesVersion)
               (Some latestVersion)).
  assert (S3 : sublist l3 taggedVersions).
  { unfold l3, removeExactVersions.
    etrans; [apply filter_sublist|]. etrans; [apply filter_sublist|exact S1]. }
  assert (H4 : exists l4,
             (if versionMatchNotFound
              then removeOlderVersions l3 latestVersion
              else Ok l3) = Ok l4 /\ sublist l4 taggedVersions).
  { destruct versionMatchNotFound eqn:V.
    - destruct (proj2 (Array_filter_returns
                  (fun tag => let! older := isOlderVersion (version tag) latestVersion in
                              Ok (negb older)) l3)) as [l4 H4].
      + apply Forall_forall. intros t Ht. apply isOlderVersion_test_returns.
        apply F; [|reflexivity]. now apply (sublist_subseteq _ _ S3).
      + exists l4. split; [exact H4|].
        apply removeOlderVersions_Ok in H4 as [S4 _]. etrans; [exact S4|exact S3].
    - eexists. split; [reflexivity|assumption]. }
  destruct H4 as (l4 & -> & S4). simpl.
  apply Array_sort_returns. intros x y Hx Hy.
  apply pipeline_tail_versions in Hx as (x0 & Hx0 & Ex).
  apply pipeline_tail_versions in Hy as (y0 & Hy0 & Ey).
  apply list_elem_of_In in Hx0, Hy0.
  apply (sublist_subseteq _ _ S4) in Hx0, Hy0.
  destruct (F x0 Hx0) as [[vx Hvx] _]. destruct (F y0 Hy0) as [[vy Hvy] _].
  rewrite <- Ex in Hvx. rewrite <- Ey in Hvy.
  rewrite (sortTagsByRecentVersion_value _ _ _ _ Hvx Hvy). unfold returns. eauto.
Qed.

(** X12: [applyTagFilterRules] returns whenever the version of every tag
    parses and every older-test it may perform returns; in particular it
    returns the empty list for the empty list, whatever the other
    arguments.  When it returns for a valid requested range, the older-test
    returned for every tag of the input. *)
Theorem applyTagFilterRules_returns (taggedVersions : list TaggedVersion)
  (requestedVersion : string) (satisifiesVersion : option string)
  (latestVersion : string) (versionMatchNotFound : bool) :
  (Forall
     (fun t =>
        is_Some (semver.SemVer_new (version t)) /\
        (is_Some (semver.Range_new requestedVersion) ->
         returns (isOlderVersion (version t) requestedVersion)) /\
        (versionMatchNotFound = true ->
         returns (isOlderVersion (version t) latestVersion)))
     taggedVersions ->
   returns (applyTagFilterRules formatTagNameRegex_exec taggedVersions requestedVersion
              satisifiesVersion latestVersion versionMatchNotFound)) /\
  applyTagFilterRules formatTagNameRegex_exec [] requestedVersion
    satisifiesVersion latestVersion versionMatchNotFound = Ok [] /\
  (returns (applyTagFilterRules formatTagNameRegex_exec taggedVersions requestedVersion
              satisifiesVersion latestVersion versionMatchNotFound) ->
   is_Some (semver.Range_new requestedVersion) ->
   Forall (fun t => returns (isOlderVersion (version t) requestedVersion)) taggedVersions).
Proof.
  split; [|split].
  - apply pipeline_returns.
  - unfold applyTagFilterRules.
    destruct (negb (falsy_string (semver.validRange requestedVersion)));
      destruct versionMatchNotFound; reflexivity.
  - intros [out H] Hv. unfold applyTagFilterRules in H. inv_bind H.
    apply validRange_truthy in Hv. rewrite Hv in E. simpl in E.
    apply removeOlderVersions_returns_tests. unfold returns. eauto.
Qed.

End pipeline_more.

(** ** The flags of the primary entries *)
Section resolver_more.
Context `{G : semver.Grammar}.
Variable formatTagNameRegex_exec : string -> option string.

(** [semver.satisfies] answers [false] for [null] and for the empty
    string, whatever the range. *)
Lemma satisfies_falsy (version : option string) (r : string) :
  falsy_string version = true -> semver.satisfies version r = Ok false.
Proof.
  intros H. unfold semver.satisfies, semver.Range_test.
  destruct (semver.Range_new r); [|reflexivity]. now rewrite H.
Qed.

Lemma string_and_Ok (a : option string) (k : string -> result value) (v : value) :
  string_and a k = Ok v ->
  (falsy_string a = true /\ truthy v = false /\ (a = None -> v = VNull))
  \/ (falsy_string a = false /\ exists s, a = Some s /\ k s = Ok v).
Proof.
  unfold string_and. destruct a as [s|]; simpl.
  - destruct (String.eqb_spec s "") as [->|Hne]; simpl.
    + intros [= <-]. left. repeat split. discriminate.
    + intros H. right. split; [reflexivity|]. eauto.
  - intros [= <-]. left. auto.
Qed.

(** X13: the flags of the ["satisfies"] entry are tied to each other.
    Its version is [maxSatisfyingVersion] and [isPrimaryTag] is true;
    [isInvalid] is true exactly when the requested version is not a valid
    range, and then [isFixedVersion] is [null], else a boolean;
    [isLatestVersion] implies [satisfiesLatest], and [satisfiesLatest]
    makes [isNewerThanLatest] false; when no match was found
    ([versionMatchNotFound]), [satisfiesLatest] and [isLatestVersion] are
    false, [isNewerThanLatest] is falsy and the ["latest"] entry
    follows. *)
Theorem buildTagsFromVersionMap_satisfies_flags (versionMap : VersionMap)
  (requestedVersion : string) (out : list ResolvedTag) :
  buildTagsFromVersionMap formatTagNameRegex_exec versionMap requestedVersion = Ok out ->
  exists satisfiesEntry rest,
    out = Satisfies satisfiesEntry :: rest /\
    se_version satisfiesEntry = maxSatisfyingVersion versionMap /\
    se_isPrimaryTag satisfiesEntry = true /\
    se_versionMatchNotFound satisfiesEntry
    = falsy_string (maxSatisfyingVersion versionMap) /\
    (se_isInvalid satisfiesEntry = true <-> semver.Range_new requestedVersion = None) /\
    (se_isInvalid satisfiesEntry = true -> se_isFixedVersion satisfiesEntry = VNull) /\
    (se_isInvalid satisfiesEntry = false ->
     exists fixed, se_isFixedVersion satisfiesEntry = VBool fixed) /\
    (se_isLatestVersion satisfiesEntry = true ->
     se_satisfiesLatest satisfiesEntry = true /\
     first_version versionMap = Ok (replace_caret_tilde requestedVersion)) /\
    (se_satisfiesLatest satisfiesEntry = true ->
     se_isNewerThanLatest satisfiesEntry = VBool false) /\
    (se_versionMatchNotFound satisfiesEntry = true ->
     se_satisfiesLatest satisfiesEntry = false /\
     se_isLatestVersion satisfiesEntry = false /\
     truthy (se_isNewerThanLatest satisfiesEntry) = false /\
     exists latestEntry rest', rest = Latest latestEntry :: rest').
Proof.
  unfold buildTagsFromVersionMap. intros H.
  inv_bind H. rename a into latestVersion, E into Hfirst.
  inv_bind H. rename a into older, E into Holder.
  simpl in H. inv_bind H. rename a into sl, E into Hsl.
  inv_bind H. rename a into fixed, E into Hfixed.
  inv_bind H. rename a into newer, E into Hnewer.
  inv_bind H. rename a into others, E into Hothers.
  injection H as <-. eexists _, _. split; [reflexivity|]. simpl.
  split; [reflexivity|]. split; [reflexivity|]. split; [reflexivity|].
  assert (Hinv : falsy_string (semver.validRange requestedVersion) = true
                 <-> semver.Range_new requestedVersion = None).
  { pose proof (validRange_truthy requestedVersion) as V.
    destruct (falsy_string (semver.validRange requestedVersion)).
    - split; [intros _|reflexivity].
      destruct (semver.Range_new requestedVersion) eqn:E; [|reflexivity].
      assert (Hs : is_Some (Some r)) by eauto. apply V in Hs. discriminate.
    - split; [discriminate|]. intros E. destruct (proj1 V eq_refl) as [r Hr]. congruence. }
  split; [exact Hinv|].
  apply string_and_Ok in Hfixed.
  split; [|split; [|split; [|split]]].
  - intros Hi. destruct Hfixed as [(_ & _ & Hn)|(Hf & _)]; [|congruence].
    apply Hn. apply Hinv in Hi. unfold semver.validRange. now rewrite Hi.
  - intros Hi. destruct Hfixed as [(Hf & _)|(_ & s & _ & Hk)]; [congruence|].
    inv_bind Hk. injection Hk as <-. eauto.
  - intros Hl. apply andb_prop in Hl as [-> Heq]. split; [reflexivity|].
    apply String.eqb_eq in Heq. now rewrite Heq.
  - intros ->. simpl in Hnewer. now injection Hnewer as <-.
  - intros Hv. rewrite (satisfies_falsy _ _ Hv) in Hsl. injection Hsl as <-.
    split; [reflexivity|]. simpl. split; [reflexivity|]. split.
    + simpl in Hnewer. apply string_and_Ok in Hnewer.
      destruct Hnewer as [(_ & Ht & _)|(Hf & _)]; [assumption|congruence].
    + eauto.
Qed.

(** X14: the flag of the ["latest"] entry cannot say "older than requested"
    when no match was found or when the requested version is not a valid
    range: it is [false] in the first case and falsy in the second; and the
    version of the entry is the first version of the map. *)
Theorem buildTagsFromVersionMap_latest_flag (versionMap : VersionMap)
  (requestedVersion : string) (out : list ResolvedTag) (latestEntry : LatestEntry) :
  buildTagsFromVersionMap formatTagNameRegex_exec versionMap requestedVersion = Ok out ->
  In (Latest latestEntry) out ->
  first_version versionMap = Ok (le_version latestEntry) /\
  (falsy_string (maxSatisfyingVersion versionMap) = true ->
   le_isOlderThanRequested latestEntry = VBool false) /\
  (semver.Range_new requestedVersion = None ->
   truthy (le_isOlderThanRequested latestEntry) = false) /\
  (falsy_string (maxSatisfyingVersion versionMap) = false ->
   is_Some (semver.Range_new requestedVersion) ->
   exists older,
     isOlderVersion (le_version latestEntry) requestedVersion = Ok older /\
     le_isOlderThanRequested latestEntry = VBool older).
Proof.
  unfold buildTagsFromVersionMap. intros H Hin.
  inv_bind H. rename a into latestVersion, E into Hfirst.
  inv_bind H. rename a into older, E into Holder.
  simpl in H. inv_bind H. inv_bind H. inv_bind H. inv_bind H.
  injection H as <-.
  assert (latestEntry = mkLatestEntry latestVersion older) as ->.
  { destruct Hin as [[=]|Hin]. apply in_app_or in Hin as [Hin|Hin].
    - destruct (a && String.eqb (replace_caret_tilde requestedVersion) latestVersion);
        [destruct Hin|]. destruct Hin as [[= <-]|[]]. reflexivity.
    - apply in_map_iff in Hin as (t & [=] & _). }
  simpl. split; [assumption|].
  destruct (falsy_string (maxSatisfyingVersion versionMap)); simpl in Holder.
  - injection Holder as <-. split; [reflexivity|]. split; [reflexivity|discriminate].
  - split; [discriminate|].
    apply string_and_Ok in Holder. split.
    + intros Hn. destruct Holder as [(_ & Ht & _)|(Hf & _)]; [assumption|].
      unfold semver.validRange in Hf. rewrite Hn in Hf. discriminate.
    + intros _ Hv. apply validRange_truthy in Hv.
      destruct Holder as [(Hf & _)|(_ & s & _ & Hk)]; [congruence|].
      rewrite Hfirst in Hk. simpl in Hk. inv_bind Hk. injection Hk as <-. eauto.
Qed.

(** X15: after the primary entries come plain tags only, at most as many
    as the map has tagged versions; each carries the version of a tagged
    version of the map, which is neither the version of the ["satisfies"]
    entry nor the latest version; none is named ["latest"] and no name is
    repeated. *)
Theorem buildTagsFromVersionMap_trailing_tags (versionMap : VersionMap)
  (requestedVersion : string) (out : list ResolvedTag) :
  buildTagsFromVersionMap formatTagNameRegex_exec versionMap requestedVersion = Ok out ->
  exists satisfiesEntry primary others latestVersion,
    out = Satisfies satisfiesEntry :: primary ++ map Tagged others /\
    first_version versionMap = Ok latestVersion /\
    (primary = [] \/ exists latestEntry, primary = [Latest latestEntry]) /\
    (List.length others <= List.length (taggedVersions versionMap))%nat /\
    NoDup (map name others) /\
    Forall
      (fun t =>
         name t <> "latest" /\
         In (version t) (map version (taggedVersions versionMap)) /\
         Some (version t) <> se_version satisfiesEntry /\
         version t <> latestVersion)
      others.
Proof.
  intros H.
  apply buildTagsFromVersionMap_Ok in H
    as (latestVersion & older & sl & fixed & newer & others & Hl & Hs & Ho & ->).
  eexists _, _, others, latestVersion. split; [reflexivity|]. simpl.
  split; [assumption|]. split.
  { destruct (sl && String.eqb (replace_caret_tilde requestedVersion) latestVersion);
      eauto. }
  destruct (applyTagFilterRules_names _ _ _ _ _ _ _ Ho) as [Hn Hd].
  apply pipeline_head_Ok in Ho as (l4 & Hsort & S4 & F4).
  apply Array_sort_perm in Hsort.
  split; [|split; [assumption|]].
  - rewrite <- (Permutation_length Hsort).
    etrans; [apply pipeline_tail_length|]. now apply sublist_length.
  - rewrite Forall_forall in Hn, F4. apply Forall_forall. intros t Ht.
    split; [now apply Hn|].
    apply list_elem_of_In in Ht.
    apply (Permutation_in _ (Permutation_sym Hsort)) in Ht.
    apply pipeline_tail_versions in Ht as (t0 & Hin & Ev). rewrite Ev.
    apply list_elem_of_In in Hin. destruct (F4 t0 Hin) as (H1 & H2 & _).
    split; [|split; assumption].
    apply in_map, list_elem_of_In. now apply (sublist_subseteq _ _ S4).
Qed.

End resolver_more.

(** X16: on tags and names to match that are ASCII text,
    [filterTagsByName] compares names without regard to the case of the
    letters, on both sides: a tag is kept exactly when its name is one of
    the names to match up to the case of the letters; the tags kept stay in
    their order, and lower-casing the names to match beforehand changes
    nothing. *)
Theorem filterTagsByName_case_insensitive (taggedVersions : list ResolvedTag)
  (tagNamesToMatch : list string) :
  Forall (fun t => ascii_text (tag_name t) = true) taggedVersions ->
  Forall (fun n => ascii_text n = true) tagNamesToMatch ->
  sublist (filterTagsByName taggedVersions tagNamesToMatch) taggedVersions /\
  (forall t,
     In t (filterTagsByName taggedVersions tagNamesToMatch)
     <-> In t taggedVersions /\
         exists n, In n tagNamesToMatch /\ same_ignoring_case (tag_name t) n) /\
  filterTagsByName taggedVersions (map toLowerCase tagNamesToMatch)
  = filterTagsByName taggedVersions tagNamesToMatch.
Proof.
  intros _ _.
  unfold filterTagsByName. split; [apply filter_sublist|]. split.
  - intros t. rewrite filter_In, existsb_exists. split.
    + intros [Hin (x & Hx & E)]. split; [assumption|].
      apply in_map_iff in Hx as (n & <- & Hn). apply String.eqb_eq in E.
      apply toLowerCase_eq_iff in E. eauto.
    + intros [Hin (n & Hn & E)]. split; [assumption|].
      apply toLowerCase_eq_iff in E.
      exists (toLowerCase n). split; [now apply in_map|]. now apply String.eqb_eq.
  - rewrite map_map. f_equal.
    rewrite (map_ext _ toLowerCase); [reflexivity|].
    intros n. apply toLowerCase_idempotent.
Qed.

(** ** The command factory *)

Lemma append_nonempty (a b : string) : b <> "" -> (a +:+ b) <> "".
Proof. destruct a; simpl; [auto|discriminate]. Qed.

Lemma format_nonempty (v : semver.SemVer) : node_semver.format v <> "".
Proof. unfold node_semver.format. apply append_nonempty. discriminate. Qed.

Lemma prefix_append (p s : string) : String.prefix p (p +:+ s) = true.
Proof.
  induction p as [|c p IH]; simpl; [now destruct s|].
  destruct (Ascii.ascii_dec c c); [exact IH|contradiction].
Qed.

Section command_factory.
Context `{G : semver.Grammar}.
Variable appConfig : AppConfig.
Variable stripSymbolFromVersionRegex_exec : string -> option (option string).

Lemma semver_valid_falsy (s : string) :
  falsy_string (semver_valid s) = true <-> semver.parse s = None.
Proof.
  unfold semver_valid. destruct (semver.parse s) as [v|]; simpl.
  - split; [|discriminate]. intros H. apply String.eqb_eq in H.
    now apply format_nonempty in H.
  - tauto.
Qed.

Lemma validRange_falsy (s : string) :
  falsy_string (semver.validRange s) = true <-> semver.Range_new s = None.
Proof.
  pose proof (validRange_truthy s) as V.
  destruct (falsy_string (semver.validRange s)).
  - split; [intros _|reflexivity].
    destruct (semver.Range_new s) eqn:E; [|reflexivity].
    assert (Hs : is_Some (Some r)) by eauto. apply V in Hs. discriminate.
  - split; [discriminate|]. intros E. destruct (proj1 V eq_refl) as [r Hr]. congruence.
Qed.

(** X17: [makeVersionCommand] validates the local version first and the
    server version next, without raising.  A local version that is neither
    a version, nor a range, nor ["latest"] gives the error command
    ["Invalid semver version entered"] whatever the server version; with an
    acceptable local version, a server version that is none of the three
    gives the error command that quotes it; and the local version
    ["latest"] with an acceptable server version gives the ["latest"]
    command. *)
Theorem makeVersionCommand_validation (localVersion serverVersion : string)
  (codeLensItem : CodeLensItem) :
  let acceptable s :=
    is_Some (semver.parse s) \/ is_Some (semver.Range_new s) \/ s = "latest" in
  (~ acceptable localVersion ->
   makeVersionCommand appConfig stripSymbolFromVersionRegex_exec
     localVersion serverVersion codeLensItem
   = Ok (makeErrorCommand "Invalid semver version entered" codeLensItem)) /\
  (acceptable localVersion -> ~ acceptable serverVersion ->
   makeVersionCommand appConfig stripSymbolFromVersionRegex_exec
     localVersion serverVersion codeLensItem
   = Ok (makeErrorCommand
           ("Invalid semver server version received, " +:+ serverVersion)
           codeLensItem)) /\
  (localVersion = "latest" -> acceptable serverVersion ->
   makeVersionCommand appConfig stripSymbolFromVersionRegex_exec
     localVersion serverVersion codeLensItem
   = Ok (makeLatestCommand codeLensItem)).
Proof.
  intros acceptable.
  assert (A : forall s,
             falsy_string (semver_valid s) && falsy_string (semver.validRange s)
             && negb (String.eqb s "latest") = true <-> ~ acceptable s).
  { intros s. unfold acceptable. rewrite !andb_true_iff, negb_true_iff.
    rewrite semver_valid_falsy, validRange_falsy, String.eqb_neq.
    split.
    - intros [[Hp Hr] Hl] [[v Hv]|[[r Hr']|E]]; congruence.
    - intros H. split; [split|].
      + destruct (semver.parse s) eqn:E; [|reflexivity]. exfalso. apply H. left. eauto.
      + destruct (semver.Range_new s) eqn:E; [|reflexivity].
        exfalso. apply H. right. left. eauto.
      + intros E. apply H. auto. }
  assert (B : forall s, acceptable s ->
             falsy_string (semver_valid s) && falsy_string (semver.validRange s)
             && negb (String.eqb s "latest") = false).
  { intros s Hs.
    destruct (falsy_string (semver_valid s) && falsy_string (semver.validRange s)
              && negb (String.eqb s "latest")) eqn:E; [|reflexivity].
    apply A in E. contradiction. }
  unfold makeVersionCommand. split; [|split].
  - intros H. apply A in H. now rewrite H.
  - intros Hl Hs. rewrite (B _ Hl). apply A in Hs. now rewrite Hs.
  - intros -> Hs. rewrite (B "latest") by (right; right; reflexivity).
    rewrite (B _ Hs). reflexivity.
Qed.

(** X18: when the local version is a version, [makeVersionCommand] compares
    the two versions.  If the server version parses too, it returns the
    update command for the server version when the two texts differ and the
    two versions differ, in either direction (a lower server version is
    offered as well), else the ["latest"] command.  If the server version
    does not construct (the text ["latest"], a range), the [TypeError] of
    [semver.gt] escapes. *)
Theorem makeVersionCommand_versions (localVersion serverVersion : string)
  (codeLensItem : CodeLensItem) (local : semver.SemVer) :
  semver.parse localVersion = Some local ->
  semver.SemVer_new localVersion = Some local ->
  localVersion <> "latest" ->
  (is_Some (semver.parse serverVersion) \/ is_Some (semver.Range_new serverVersion)
   \/ serverVersion = "latest") ->
  (forall server,
     semver.SemVer_new serverVersion = Some server ->
     makeVersionCommand appConfig stripSymbolFromVersionRegex_exec
       localVersion serverVersion codeLensItem
     = Ok (if negb (String.eqb serverVersion localVersion)
              && negb (semver.eqb server local)
           then makeNewVersionCommand appConfig serverVersion codeLensItem
           else makeLatestCommand codeLensItem)) /\
  (semver.SemVer_new serverVersion = None ->
   makeVersionCommand appConfig stripSymbolFromVersionRegex_exec
     localVersion serverVersion codeLensItem
   = Throw (InvalidVersion serverVersion)).
Proof.
  intros Hp Hn Hl Hs.
  assert (E1 : falsy_string (semver_valid localVersion) = false).
  { destruct (falsy_string (semver_valid localVersion)) eqn:E; [|reflexivity].
    apply semver_valid_falsy in E. congruence. }
  assert (E2 : falsy_string (semver_valid serverVersion)
               && falsy_string (semver.validRange serverVersion)
               && negb (String.eqb serverVersion "latest") = false).
  { destruct (falsy_string (semver_valid serverVersion)) eqn:Ea; [|reflexivity].
    destruct (falsy_string (semver.validRange serverVersion)) eqn:Eb; [|reflexivity].
    apply semver_valid_falsy in Ea. apply validRange_falsy in Eb. simpl.
    destruct Hs as [[v Hv]|[[r Hr]| ->]]; [congruence|congruence|reflexivity]. }
  assert (E3 : String.eqb localVersion "latest" = false) by now apply String.eqb_neq.
  unfold makeVersionCommand. rewrite E1, E2, E3. simpl.
  rewrite andb_false_r.
  unfold semver.gt, semver.lt, semver.new_SemVer. rewrite Hn. split.
  - intros server ->. simpl. unfold semver.gtb, semver.ltb, semver.eqb.
    destruct (semver.compare server local); simpl;
      now destruct (String.eqb serverVersion localVersion).
  - intros ->. reflexivity.
Qed.

(** X19: when the local version is a range and not a version,
    [makeVersionCommand] asks whether the server version satisfies it.  If
    not, it returns the update command; if so, it returns the "satisfies"
    command or the "satisfies, with newer" command and never raises, an
    exception of [semver.eq] being caught and giving the "satisfies"
    command; an exception of [semver.satisfies] itself escapes. *)
Theorem makeVersionCommand_range (localVersion serverVersion : string)
  (codeLensItem : CodeLensItem) :
  semver.parse localVersion = None ->
  is_Some (semver.Range_new localVersion) ->
  localVersion <> "latest" ->
  (is_Some (semver.parse serverVersion) \/ is_Some (semver.Range_new serverVersion)
   \/ serverVersion = "latest") ->
  let cleanLocalVersion :=
    string_or (mjoin (stripSymbolFromVersionRegex_exec localVersion))
      (string_or (semver_clean localVersion) localVersion) in
  (semver.satisfies (Some serverVersion) localVersion = Ok false ->
   makeVersionCommand appConfig stripSymbolFromVersionRegex_exec
     localVersion serverVersion codeLensItem
   = Ok (makeNewVersionCommand appConfig serverVersion codeLensItem)) /\
  (semver.satisfies (Some serverVersion) localVersion = Ok true ->
   makeVersionCommand appConfig stripSymbolFromVersionRegex_exec
     localVersion serverVersion codeLensItem
   = Ok (if negb (String.eqb cleanLocalVersion "")
            && match semver_eq serverVersion cleanLocalVersion with
               | Ok same => same
               | Throw _ => true
               end
         then makeSatisfiedCommand serverVersion codeLensItem
         else makeSatisfiedWithNewerCommand appConfig serverVersion codeLensItem)) /\
  (forall e,
     semver.satisfies (Some serverVersion) localVersion = Throw e ->
     makeVersionCommand appConfig stripSymbolFromVersionRegex_exec
       localVersion serverVersion codeLensItem = Throw e).
Proof.
  intros Hp Hr Hl Hs cleanLocalVersion.
  assert (E1 : falsy_string (semver_valid localVersion) = true)
    by now apply semver_valid_falsy.
  assert (E1' : falsy_string (semver.validRange localVersion) = false)
    by now apply validRange_truthy.
  assert (E2 : falsy_string (semver_valid serverVersion)
               && falsy_string (semver.validRange serverVersion)
               && negb (String.eqb serverVersion "latest") = false).
  { destruct (falsy_string (semver_valid serverVersion)) eqn:Ea; [|reflexivity].
    destruct (falsy_string (semver.validRange serverVersion)) eqn:Eb; [|reflexivity].
    apply semver_valid_falsy in Ea. apply validRange_falsy in Eb. simpl.
    destruct Hs as [[v Hv]|[[r Hr']| ->]]; [congruence|congruence|reflexivity]. }
  assert (E3 : String.eqb localVersion "latest" = false) by now apply String.eqb_neq.
  unfold makeVersionCommand. rewrite E1, E1', E2, E3. simpl.
  fold cleanLocalVersion.
  split; [|split].
  - intros ->. reflexivity.
  - intros ->. simpl.
    destruct (String.eqb cleanLocalVersion ""); simpl; [reflexivity|].
    destruct (semver_eq serverVersion cleanLocalVersion) as [[|]|e]; reflexivity.
  - intros e ->. reflexivity.
Qed.

(** X20: the update commands write back a version that starts with the
    configured prefix: the text [generateNewVersion] gives when it starts
    with the prefix already, else the prefix followed by it; the second
    argument of the command is this text between double quotes, the first
    is the item, and nothing of the item changes but its command. *)
Theorem makeNewVersionCommand_prefix (newVersion : string) (codeLensItem : CodeLensItem) :
  exists replaceWithVersion,
    String.prefix (versionPrefix appConfig) replaceWithVersion = true /\
    (replaceWithVersion = generateNewVersion codeLensItem newVersion
     \/ String.prefix (versionPrefix appConfig)
          (generateNewVersion codeLensItem newVersion) = false
        /\ replaceWithVersion
           = versionPrefix appConfig +:+ generateNewVersion codeLensItem newVersion) /\
    makeNewVersionCommand appConfig newVersion codeLensItem
    = set_command codeLensItem
        (mkCommand
           (updateIndicator appConfig +:+ " " +:+ versionPrefix appConfig +:+ newVersion)
           (Some ("_" +:+ extentionName appConfig +:+ ".updateDependencyCommand"))
           (Some [ArgCodeLensItem; ArgString (quote +:+ replaceWithVersion +:+ quote)])) /\
    makeSatisfiedWithNewerCommand appConfig newVersion codeLensItem
    = set_command codeLensItem
        (mkCommand
           (updateIndicator appConfig +:+ " satisfies v" +:+ newVersion)
           (Some ("_" +:+ extentionName appConfig +:+ ".updateDependencyCommand"))
           (Some [ArgCodeLensItem; ArgString (quote +:+ replaceWithVersion +:+ quote)])).
Proof.
  unfold makeNewVersionCommand, makeSatisfiedWithNewerCommand.
  destruct (String.prefix (versionPrefix appConfig)
              (generateNewVersion codeLensItem newVersion)) eqn:E; simpl.
  - exists (generateNewVersion codeLensItem newVersion). auto.
  - exists (versionPrefix appConfig +:+ generateNewVersion codeLensItem newVersion).
    split; [apply prefix_append|]. auto.
Qed.

(** X21: whatever [makeVersionCommand] returns is the item it was given
    with a command set: the method and the other properties of the item are
    untouched, and the command is an error, ["latest"], "satisfies" or
    update command about the server version. *)
Theorem makeVersionCommand_sets_command (localVersion serverVersion : string)
  (codeLensItem item : CodeLensItem) :
  makeVersionCommand appConfig stripSymbolFromVersionRegex_exec
    localVersion serverVersion codeLensItem = Ok item ->
  exists c,
    item = set_command codeLensItem c /\
    (item = makeErrorCommand "Invalid semver version entered" codeLensItem
     \/ item = makeErrorCommand
                 ("Invalid semver server version received, " +:+ serverVersion)
                 codeLensItem
     \/ item = makeLatestCommand codeLensItem
     \/ item = makeSatisfiedCommand serverVersion codeLensItem
     \/ item = makeSatisfiedWithNewerCommand appConfig serverVersion codeLensItem
     \/ item = makeNewVersionCommand appConfig serverVersion codeLensItem).
Proof.
  assert (S : forall i,
            (i = makeErrorCommand "Invalid semver version entered" codeLensItem
             \/ i = makeErrorCommand
                      ("Invalid semver server version received, " +:+ serverVersion)
                      codeLensItem
             \/ i = makeLatestCommand codeLensItem
             \/ i = makeSatisfiedCommand serverVersion codeLensItem
             \/ i = makeSatisfiedWithNewerCommand appConfig serverVersion codeLensItem
             \/ i = makeNewVersionCommand appConfig serverVersion codeLensItem) ->
            exists c, i = set_command codeLensItem c).
  { intros i [->|[->|[->|[->|[->| ->]]]]]; eexists; reflexivity. }
  intros H.
  assert (K : item = makeErrorCommand "Invalid semver version entered" codeLensItem
              \/ item = makeErrorCommand
                          ("Invalid semver server version received, " +:+ serverVersion)
                          codeLensItem
              \/ item = makeLatestCommand codeLensItem
              \/ item = makeSatisfiedCommand serverVersion codeLensItem
              \/ item = makeSatisfiedWithNewerCommand appConfig serverVersion codeLensItem
              \/ item = makeNewVersionCommand appConfig serverVersion codeLensItem).
  { unfold makeVersionCommand in H.
    destruct (falsy_string (semver_valid localVersion)
              && falsy_string (semver.validRange localVersion)
              && negb (String.eqb localVersion "latest")).
    { injection H as <-. auto. }
    destruct (falsy_string (semver_valid serverVersion)
              && falsy_string (semver.validRange serverVersion)
              && negb (String.eqb serverVersion "latest")).
    { injection H as <-. auto. }
    destruct (String.eqb localVersion "latest").
    { injection H as <-. auto. }
    destruct (negb (falsy_string (semver.validRange localVersion))
              && falsy_string (semver_valid localVersion)).
    - inv_bind H. destruct a.
      + inv_bind H. destruct a as [i|]; injection H as Hi; subst item.
        * unfold try_catch in E0.
          destruct (String.eqb
                      (string_or (mjoin (stripSymbolFromVersionRegex_exec localVersion))
                         (string_or (semver_clean localVersion) localVersion)) "");
            simpl in E0; [discriminate|].
          destruct (semver_eq serverVersion
                      (string_or (mjoin (stripSymbolFromVersionRegex_exec localVersion))
                         (string_or (semver_clean localVersion) localVersion)))
            as [[|]|e]; simpl in E0; try discriminate;
            injection E0 as Hi; subst i; auto 10.
        * auto 10.
      + injection H as <-. auto 10.
    - inv_bind H. inv_bind H.
      destruct (negb (String.eqb serverVersion localVersion) && a0);
        injection H as <-; auto 10. }
  destruct (S item K) as [c Hc]. eauto.
Qed.

End command_factory.

(** ** The toggles of the editor *)

(** X22: after any sequence of calls of the six commands, each setting
    holds what the last call that addresses it stored (its initial value
    when there is none), whatever the calls on the other settings; and each
    call made exactly one call to the editor, [clearDecorations] for
    [hideDependencyStatuses] and [reloadActiveProviders] for the five
    others. *)
Theorem run_toggles_settings (cs : list toggle) (s : editorIcons.state) :
  appSettings.showTaggedVersions (fst (run_toggles cs s))
  = last_stored (fun c => match c with
                          | ShowTaggedVersions => Some true
                          | HideTaggedVersions => Some false
                          | _ => None
                          end) cs (appSettings.showTaggedVersions (fst s)) /\
  appSettings.showDependencyStatuses (fst (run_toggles cs s))
  = last_stored (fun c => match c with
                          | ShowDependencyStatuses => Some true
                          | HideDependencyStatuses => Some false
                          | _ => None
                          end) cs (appSettings.showDependencyStatuses (fst s)) /\
  appSettings.showVersionLenses (fst (run_toggles cs s))
  = last_stored (fun c => match c with
                          | ShowVersionLenses => Some true
                          | HideVersionLenses => Some false
                          | _ => None
                          end) cs (appSettings.showVersionLenses (fst s)) /\
  snd (run_toggles cs s)
  = rev (map (fun c => match c with
                       | HideDependencyStatuses => editorIcons.clearDecorations
                       | _ => editorIcons.reloadActiveProviders
                       end) cs) ++ snd s.
Proof.
  unfold run_toggles, last_stored. revert s.
  induction cs as [|c cs IH]; intros s; [simpl; auto|].
  cbn [fold_left map rev]. destruct (IH (call_toggle c s)) as (H1 & H2 & H3 & H4).
  rewrite H1, H2, H3, H4. rewrite <- app_assoc.
  destruct c; simpl; auto.
Qed.

(** ** The stages over the store *)
Section store_more.
Context `{G : semver.Grammar}.
Variable formatTagNameRegex_exec : string -> option string.

(** X23: each filter stage, run on a store, computes what the stage on
    lists computes, in an array that did not exist before, and leaves the
    receiver and every other array as they were; this holds for the two
    stages that push, which push on an array of their own. *)
Theorem Heap_stages_allocate (h : Heap.heap) (this : Heap.loc)
  (tags : list TaggedVersion) (versionRange : string) (v : option string) (n : string) :
  h !! this = Some tags ->
  run_spec h h (Heap.removeOlderVersions this versionRange)
    (removeOlderVersions tags versionRange) /\
  run_spec h h (Heap.removeExactVersions this v) (Ok (removeExactVersions tags v)) /\
  run_spec h h (Heap.removeTagsWithName this n) (Ok (removeTagsWithName tags n)) /\
  run_spec h h (Heap.removeAmbiguousTagNames formatTagNameRegex_exec this)
    (Ok (removeAmbiguousTagNames formatTagNameRegex_exec tags)) /\
  run_spec h h (Heap.reduceTagsByUniqueNames this) (Ok (reduceTagsByUniqueNames tags)).
Proof.
  intros Hthis. repeat split.
  - now apply run_spec_removeOlderVersions.
  - now apply run_spec_removeExactVersions.
  - now apply run_spec_removeTagsWithName.
  - now apply run_spec_removeAmbiguousTagNames.
  - now apply run_spec_reduceTagsByUniqueNames.
Qed.

End store_more.

(** ** From the version list to the packages *)
Section dotnet.
Context `{G : semver.Grammar}.
Variable formatTagNameRegex_exec : string -> option string.
Variable Package : Type.
Variable createPackage : string -> string -> PackageInfo -> Package.

Lemma filterTagsByName_primary (satisfiesEntry : SatisfiesEntry)
  (latestEntry : LatestEntry) (isLatest : bool) (rest : list ResolvedTag)
  (dotnetTagFilter : list string) :
  filterTagsByName
    (Satisfies satisfiesEntry
     :: (if isLatest then [] else [Latest latestEntry]) ++ rest)
    ("satisfies" :: (if isLatest then [] else ["latest"]) ++ dotnetTagFilter)
  = Satisfies satisfiesEntry
    :: (if isLatest then [] else [Latest latestEntry])
    ++ filterTagsByName rest
         ("satisfies" :: (if isLatest then [] else ["latest"]) ++ dotnetTagFilter).
Proof. unfold filterTagsByName. destruct isLatest; reflexivity. Qed.

Lemma dotnet_filteredTags_primary (showTaggedVersions : bool)
  (dotnetTagFilter : list string) (satisfiesEntry : SatisfiesEntry)
  (latestEntry : LatestEntry) (others : list TaggedVersion) :
  let primary :=
    if se_isLatestVersion satisfiesEntry then [] else [Latest latestEntry] in
  dotnet_filteredTags showTaggedVersions dotnetTagFilter
    (Satisfies satisfiesEntry :: primary ++ map Tagged others)
  = Ok (map Some
          (Satisfies satisfiesEntry :: primary ++
           (if negb showTaggedVersions then []
            else if (0 <? List.length dotnetTagFilter)%nat
                 then filterTagsByName (map Tagged others)
                        ("satisfies"
                         :: (if se_isLatestVersion satisfiesEntry then [] else ["latest"])
                         ++ dotnetTagFilter)
                 else map Tagged others))).
Proof.
  intros primary. unfold dotnet_filteredTags, primary.
  cbn [head satisfiesEntry_isLatestVersion tag_isLatestVersion bind].
  destruct showTaggedVersions; cbn [negb].
  - destruct (0 <? List.length dotnetTagFilter)%nat; [|reflexivity].
    now rewrite filterTagsByName_primary.
  - destruct (se_isLatestVersion satisfiesEntry); reflexivity.
Qed.

Lemma filterTagsByName_Tagged (others : list TaggedVersion) (names : list string) :
  filterTagsByName (map Tagged others) names
  = map Tagged
      (List.filter
         (fun t => existsb (String.eqb (toLowerCase (name t))) (map toLowerCase names))
         others).
Proof.
  unfold filterTagsByName. induction others as [|t l IH]; simpl; [reflexivity|].
  destruct (existsb (String.eqb (toLowerCase (name t))) (map toLowerCase names));
    simpl; now rewrite IH.
Qed.

(** X24: with a tag filter and tag names that are ASCII text, the packages
    the callback of [dotnetPackageParser] returns are made, in order, from
    the ["satisfies"] entry, the ["latest"] entry when [isLatestVersion] is
    false, and then: nothing when [appSettings.showTaggedVersions] is false;
    all the other tags when it is true and the tag filter of the
    configuration is empty; else the other tags whose name is, up to the
    case of the letters, ["satisfies"], ["latest"] (when the latest entry is
    there) or a name of the filter.  Every package carries a
    defined tag and the type ["nuget"].  The callback raises exactly when
    [buildMapFromVersionList] followed by [buildTagsFromVersionMap] does. *)
Theorem dotnetPackageParser_then_packages (name nodeRequestedRange : string)
  (showTaggedVersions : bool) (dotnetTagFilter : list string) (versions : list string) :
  let extracted :=
    let! versionMap :=
      buildMapFromVersionList formatTagNameRegex_exec versions nodeRequestedRange in
    buildTagsFromVersionMap formatTagNameRegex_exec versionMap nodeRequestedRange in
  Forall (fun n => ascii_text n = true) dotnetTagFilter ->
  (forall out, extracted = Ok out ->
               Forall (fun t => ascii_text (tag_name t) = true) out) ->
  (forall packages,
     dotnetPackageParser_then formatTagNameRegex_exec Package createPackage
       name nodeRequestedRange showTaggedVersions dotnetTagFilter versions = Ok packages ->
     exists satisfiesEntry primary others kept,
       extracted = Ok (Satisfies satisfiesEntry :: primary ++ map Tagged others) /\
       (se_isLatestVersion satisfiesEntry = true /\ primary = []
        \/ se_isLatestVersion satisfiesEntry = false
           /\ exists latestEntry, primary = [Latest latestEntry]) /\
       packages
       = map (fun t => createPackage name nodeRequestedRange
                         (mkPackageInfo "nuget" (Some t)))
           (Satisfies satisfiesEntry :: primary ++ map Tagged kept) /\
       sublist kept others /\
       (showTaggedVersions = false -> kept = []) /\
       (showTaggedVersions = true -> dotnetTagFilter = [] -> kept = others) /\
       (showTaggedVersions = true -> dotnetTagFilter <> [] ->
        forall t,
          In t kept <->
          In t others /\
          (same_ignoring_case (tag_name (Tagged t)) "satisfies"
           \/ (se_isLatestVersion satisfiesEntry = false
               /\ same_ignoring_case (tag_name (Tagged t)) "latest")
           \/ exists n, In n dotnetTagFilter
                        /\ same_ignoring_case (tag_name (Tagged t)) n))) /\
  (forall e,
     dotnetPackageParser_then formatTagNameRegex_exec Package createPackage
       name nodeRequestedRange showTaggedVersions dotnetTagFilter versions = Throw e
     <-> extracted = Throw e).
Proof.
  intros extracted _ _. unfold extracted, dotnetPackageParser_then.
  destruct (buildMapFromVersionList formatTagNameRegex_exec versions nodeRequestedRange)
    as [versionMap|e0] eqn:Emap; simpl.
  2:{ split; [intros ? [=]|intros e; split; intros [= ->]; reflexivity]. }
  destruct (buildTagsFromVersionMap formatTagNameRegex_exec versionMap nodeRequestedRange)
    as [out|e1] eqn:Etags; simpl.
  2:{ split; [intros ? [=]|intros e; split; intros [= ->]; reflexivity]. }
  apply buildTagsFromVersionMap_Ok in Etags
    as (latestVersion & older & sl & fixed & newer & others & Hl & Hs & Ho & ->).
  set (satisfiesEntry := mkSatisfiesEntry _ _ _ _ _ _ _ _).
  pose proof (dotnet_filteredTags_primary showTaggedVersions dotnetTagFilter
                satisfiesEntry (mkLatestEntry latestVersion older) others) as F.
  simpl in F. change (se_isLatestVersion satisfiesEntry)
    with (sl && String.eqb (replace_caret_tilde nodeRequestedRange) latestVersion) in F.
  rewrite F. simpl. split; [|intros e; split; discriminate].
  intros packages [= <-].
  set (isLatest := sl && String.eqb (replace_caret_tilde nodeRequestedRange) latestVersion).
  set (names := "satisfies" :: (if isLatest then [] else ["latest"]) ++ dotnetTagFilter).
  set (keep := fun t : TaggedVersion =>
                 existsb (String.eqb (toLowerCase (tag_name (Tagged t))))
                   (map toLowerCase names)).
  exists satisfiesEntry,
    (if isLatest then [] else [Latest (mkLatestEntry latestVersion older)]), others,
    (if negb showTaggedVersions then []
     else if (0 <? List.length dotnetTagFilter)%nat then List.filter keep others
          else others).
  split; [reflexivity|]. split.
  { change (se_isLatestVersion satisfiesEntry) with isLatest. destruct isLatest; eauto. }
  split.
  { rewrite !map_map. f_equal. f_equal.
    destruct showTaggedVersions; cbn [negb]; [|reflexivity].
    destruct (0 <? List.length dotnetTagFilter)%nat; [|reflexivity].
    rewrite filterTagsByName_Tagged. reflexivity. }
  split.
  { destruct showTaggedVersions; cbn [negb]; [|apply sublist_nil_l].
    destruct (0 <? List.length dotnetTagFilter)%nat; [apply filter_sublist|reflexivity]. }
  split; [now intros ->|]. split.
  { intros -> ->. reflexivity. }
  intros -> Hne. cbn [negb].
  assert (Hlen : (0 <? List.length dotnetTagFilter)%nat = true).
  { destruct dotnetTagFilter; [contradiction|reflexivity]. }
  rewrite Hlen. intros t. rewrite filter_In. unfold keep.
  rewrite existsb_exists.
  change (se_isLatestVersion satisfiesEntry) with isLatest.
  split.
  - intros [Hin (x & Hx & E)]. split; [assumption|].
    apply in_map_iff in Hx as (n & <- & Hn). apply String.eqb_eq in E.
    apply toLowerCase_eq_iff in E.
    unfold names in Hn. destruct Hn as [<-|Hn]; [now left|].
    apply in_app_or in Hn as [Hn|Hn].
    + destruct isLatest; [destruct Hn|]. destruct Hn as [<-|[]]. right. left. auto.
    + right. right. eauto.
  - intros [Hin H]. split; [assumption|].
    destruct H as [E|[[Hl' E]|(n & Hn & E)]]; apply toLowerCase_eq_iff in E.
    + exists (toLowerCase "satisfies"). split; [now left|]. now apply String.eqb_eq.
    + exists (toLowerCase "latest"). split; [|now apply String.eqb_eq].
      right. apply in_map, in_or_app. left. rewrite Hl'. now left.
    + exists (toLowerCase n). split; [|now apply String.eqb_eq].
      apply in_map. right. apply in_or_app. now right.
Qed.

End dotnet.

(** ** From the version list to the tags *)

Lemma filter_all {A} (f : A -> bool) (l : list A) :
  Forall (fun x => f x = true) l -> List.filter f l = l.
Proof.
  induction l as [|x l IH]; simpl; intros F; [reflexivity|].
  apply Forall_cons in F as [-> F]. now rewrite IH.
Qed.

Section end_to_end.
Context `{G : semver.Grammar}.
Variable formatTagNameRegex_exec : string -> option string.

Lemma maxSatisfying_loop_returns (rangeObj : semver.Range) (versions : list string)
  (st : option (string * semver.SemVer)) :
  Forall (fun v => is_Some (semver.SemVer_new v)) versions ->
  returns (semver.maxSatisfying_loop rangeObj versions st).
Proof.
  unfold returns. revert st. induction versions as [|v l IH]; intros st F; simpl; [eauto|].
  apply Forall_cons in F as [[sv Hv] F].
  assert (S : exists st', semver.maxSatisfying_step rangeObj st v = Ok st').
  { unfold semver.maxSatisfying_step, semver.Range_test, semver.new_SemVer.
    destruct (falsy_string (Some v)); simpl; [eauto|].
    rewrite Hv. simpl.
    destruct (semver.Range_test_SemVer rangeObj sv); [|eauto].
    destruct st as [[max maxSV]|]; simpl; [|eauto].
    destruct (semver.ltb maxSV sv); eauto. }
  destruct S as [st' ->]. simpl. now apply IH.
Qed.

Lemma maxSatisfying_returns (versions : list string) (r : string) :
  Forall (fun v => is_Some (semver.SemVer_new v)) versions ->
  exists max,
    semver.maxSatisfying versions r = Ok max /\
    (max = None \/ exists s, max = Some s /\ In s versions).
Proof.
  intros F. destruct (semver.maxSatisfying versions r) as [max|e] eqn:E.
  - exists max. split; [reflexivity|]. destruct max as [s|]; [|now left].
    right. exists s. split; [reflexivity|]. eapply maxSatisfying_In, E.
  - exfalso. unfold semver.maxSatisfying in E.
    destruct (semver.Range_new r) as [rangeObj|]; [|discriminate].
    destruct (maxSatisfying_loop_returns rangeObj versions None F) as [st Hst].
    rewrite Hst in E. discriminate.
Qed.

Lemma returns_bind {A B} (m : result A) (f : A -> result B) :
  returns m -> (forall a, m = Ok a -> returns (f a)) -> returns (bind m f).
Proof. intros [a ->] H. simpl. now apply H. Qed.

Lemma string_and_returns (a : option string) (k : string -> result value) :
  (forall s, a = Some s -> returns (k s)) -> returns (string_and a k).
Proof.
  intros H. unfold string_and, returns. destruct a as [s|]; [|eauto].
  destruct (String.eqb s ""); [eauto|]. now apply H.
Qed.

(** X25: on a list of versions that is not empty, none of which is the
    empty string, all of which parse as a version and as a range, the
    classification never raises, whatever is requested (a valid range or
    not), provided the older-tests it can make return: each version against
    the requested range when that is valid, and against each version of the
    list. *)
Theorem classification_returns (versions : list string) (requestedVersion : string) :
  versions <> [] ->
  Forall (fun v => v <> "" /\ is_Some (semver.SemVer_new v)
                   /\ is_Some (semver.Range_new v)) versions ->
  Forall (fun v =>
            (is_Some (semver.Range_new requestedVersion) ->
             returns (isOlderVersion v requestedVersion)) /\
            Forall (fun w => returns (isOlderVersion v w)) versions) versions ->
  exists versionMap out,
    buildMapFromVersionList formatTagNameRegex_exec versions requestedVersion
    = Ok versionMap /\
    buildTagsFromVersionMap formatTagNameRegex_exec versionMap requestedVersion = Ok out.
Proof.
  intros Hne F Hold. rewrite Forall_forall in F, Hold.
  assert (Hpluck : pluckSemverVersions versions = versions).
  { apply filter_all, Forall_forall. intros v Hv.
    destruct (F v Hv) as (_ & _ & Hr). apply validRange_truthy in Hr. now rewrite Hr. }
  assert (Fnew : Forall (fun v => is_Some (semver.SemVer_new v)) versions).
  { apply Forall_forall. intros v Hv. now destruct (F v Hv) as (_ & H & _). }
  destruct (maxSatisfying_returns versions requestedVersion Fnew) as (max & Hmax & Hin).
  unfold buildMapFromVersionList, deduceMaxSatisfyingFromSemverList, try_catch.
  cbv zeta. rewrite Hpluck, Hmax. cbn [bind].
  match goal with
  | |- exists versionMap out, Ok ?m = Ok versionMap /\ _ =>
    enough (R : returns (buildTagsFromVersionMap formatTagNameRegex_exec m
                           requestedVersion));
    [destruct R as [out R]; exists m, out; split; [reflexivity|exact R]|]
  end.
  unfold pluckTagsAndReleases. rewrite pluckTagsAndReleases_fold. simpl.
  pose proof (filter_partition_perm
    (fun v => isPrerelease (parseVersion formatTagNameRegex_exec v)) versions) as P.
  cbv beta in P.
  remember (List.filter
              (fun v => negb (isPrerelease (parseVersion formatTagNameRegex_exec v)))
              versions) as rs eqn:Ers.
  remember (List.filter
              (fun v => isPrerelease (parseVersion formatTagNameRegex_exec v))
              versions) as ps eqn:Eps.
  set (ts := map _ ps).
  assert (Hrs : forall v, In v rs -> v ∈ versions).
  { intros v Hv. rewrite Ers in Hv. apply filter_In in Hv as [Hv _].
    now apply list_elem_of_In. }
  assert (Hts : forall t, In t ts -> version t ∈ versions).
  { intros t Ht. apply in_map_iff in Ht as (v & <- & Hv).
    rewrite Eps in Hv. apply filter_In in Hv as [Hv _]. now apply list_elem_of_In. }
  assert (Hfirst : exists latest,
             first_version (mkVersionMap rs ts max) = Ok latest /\ latest ∈ versions).
  { unfold first_version. cbn [releases taggedVersions].
    destruct rs as [|r rs'].
    - subst ts. destruct ps as [|p ps'].
      + exfalso. apply Hne. simpl in P. now apply Permutation_nil in P.
      + exists p. split; [reflexivity|].
        apply (Hts (mkTag (prereleaseGroup (parseVersion formatTagNameRegex_exec p)) p)).
        now left.
    - assert (Hr : r ∈ versions) by (apply Hrs; now left).
      destruct (F r Hr) as (Hr0 & _). apply String.eqb_neq in Hr0.
      rewrite Hr0. eauto. }
  destruct Hfirst as (latest & Hlatest & Hlin).
  assert (Hmaxnew : forall s, max = Some s -> is_Some (semver.SemVer_new s)).
  { intros s ->. destruct Hin as [[=]|(s' & [= <-] & Hs)].
    apply list_elem_of_In in Hs. now destruct (F s Hs) as (_ & H & _). }
  destruct (F latest Hlin) as (_ & [vl Hvl] & [rl Hrl]).
  unfold buildTagsFromVersionMap. rewrite Hlatest.
  cbn [bind maxSatisfyingVersion taggedVersions le_version].
  apply returns_bind.
  { destruct (negb (falsy_string max)); [|unfold returns; eauto].
    apply string_and_returns. intros s Hs. cbn [bind].
    assert (Hv : is_Some (semver.Range_new requestedVersion)).
    { unfold semver.validRange in Hs.
      destruct (semver.Range_new requestedVersion); [eauto|discriminate]. }
    destruct (proj1 (Hold latest Hlin) Hv) as [b ->]. unfold returns. simpl. eauto. }
  intros older _. apply returns_bind.
  { unfold semver.satisfies, semver.Range_test. rewrite Hrl.
    destruct (falsy_string max); [unfold returns; eauto|].
    destruct max as [s|]; [|unfold returns; eauto].
    destruct (Hmaxnew s eq_refl) as [vs ->]. unfold returns. eauto. }
  intros sl _. apply returns_bind.
  { apply string_and_returns. intros s Hs. unfold isFixedVersion, semver.new_Range.
    unfold semver.validRange in Hs.
    destruct (semver.Range_new requestedVersion); [|discriminate].
    unfold returns. simpl. eauto. }
  intros fixed _. apply returns_bind.
  { destruct (negb sl); [|unfold returns; eauto].
    apply string_and_returns. intros s Hs.
    unfold semver.gt, semver.new_SemVer.
    destruct (Hmaxnew s Hs) as [vs ->]. rewrite Hvl. unfold returns. simpl. eauto. }
  intros newer _. apply returns_bind; [|intros others _; unfold returns; eauto].
  apply pipeline_returns. apply Forall_forall. intros t Ht.
  apply list_elem_of_In, Hts in Ht.
  destruct (F _ Ht) as (_ & Hn & _). destruct (Hold _ Ht) as (Ho1 & Ho2).
  split; [assumption|]. split; [assumption|]. intros _.
  rewrite Forall_forall in Ho2. now apply Ho2.
Qed.

(** X26: when the requested version is not a valid range, the map has no
    [maxSatisfyingVersion] (the requested text is not what is kept), and the
    tags, when they are returned, start with a ["satisfies"] entry without
    version, flagged invalid and not found, with [isFixedVersion] [null],
    followed by the ["latest"] entry, whose [isOlderThanRequested] is
    false. *)
Theorem invalid_request_is_no_match (versions : list string) (requestedVersion : string) :
  semver.Range_new requestedVersion = None ->
  exists versionMap,
    buildMapFromVersionList formatTagNameRegex_exec versions requestedVersion
    = Ok versionMap /\
    maxSatisfyingVersion versionMap = None /\
    forall out,
      buildTagsFromVersionMap formatTagNameRegex_exec versionMap requestedVersion
      = Ok out ->
      exists latestVersion rest,
        out = Satisfies (mkSatisfiesEntry None VNull false false true true VNull true)
              :: Latest (mkLatestEntry latestVersion (VBool false)) :: rest.
Proof.
  intros Hr.
  unfold buildMapFromVersionList, deduceMaxSatisfyingFromSemverList, semver.maxSatisfying.
  rewrite Hr. simpl. eexists. split; [reflexivity|]. split; [reflexivity|].
  intros out H. unfold buildTagsFromVersionMap in H.
  unfold semver.validRange in H. rewrite Hr in H. simpl in H.
  inv_bind H. rewrite satisfies_falsy in H by reflexivity. simpl in H.
  inv_bind H. injection H as <-. eauto.
Qed.

End end_to_end.

(** ** Instances

    The properties above that have a hypothesis, on concrete inputs, with
    the grammar [node_semver.grammar] and the tag-name pattern modelled
    above. *)

Lemma applyTagFilterRules_versions_witness :
  (List.length [mkTag "rc" "3.0.0-rc.1"; mkTag "beta" "3.0.0-beta.1"]
   <= List.length [mkTag "beta" "3.0.0-beta.1"; mkTag "rc" "3.0.0-rc.1";
                   mkTag "beta" "3.0.0-beta.2"; mkTag "next" "2.1.0"])%nat /\
  Forall
    (fun t =>
       In (version t)
          (map version [mkTag "beta" "3.0.0-beta.1"; mkTag "rc" "3.0.0-rc.1";
                        mkTag "beta" "3.0.0-beta.2"; mkTag "next" "2.1.0"]) /\
       Some (version t) <> Some "2.1.0" /\
       version t <> "2.0.0" /\
       (is_Some (semver.Range_new "^2.0.0") ->
        isOlderVersion (version t) "^2.0.0" = Ok false) /\
       (false = true -> isOlderVersion (version t) "2.0.0" = Ok false))
    [mkTag "rc" "3.0.0-rc.1"; mkTag "beta" "3.0.0-beta.1"].
Proof.
  apply (applyTagFilterRules_versions formatTagNameRegex_exec
           [mkTag "beta" "3.0.0-beta.1"; mkTag "rc" "3.0.0-rc.1";
            mkTag "beta" "3.0.0-beta.2"; mkTag "next" "2.1.0"]
           "^2.0.0" (Some "2.1.0") "2.0.0" false).
  vm_compute. reflexivity.
Defined.

Lemma buildTagsFromVersionMap_satisfies_flags_witness :
  exists satisfiesEntry rest,
    [Satisfies (mkSatisfiesEntry (Some "2.1.0") (VBool true) false false false
                  false (VBool false) true);
     Latest (mkLatestEntry "2.0.0" (VBool false));
     Tagged (mkTag "beta" "3.0.0-beta.2")]
    = Satisfies satisfiesEntry :: rest /\
    se_version satisfiesEntry = Some "2.1.0" /\
    se_isPrimaryTag satisfiesEntry = true /\
    (se_isInvalid satisfiesEntry = true <-> semver.Range_new "^2.0.0" = None).
Proof.
  assert (H : buildTagsFromVersionMap formatTagNameRegex_exec
                (mkVersionMap ["2.0.0"; "2.1.0"]
                   [mkTag "beta" "3.0.0-beta.2"; mkTag "beta" "3.0.0-beta.1"]
                   (Some "2.1.0"))
                "^2.0.0"
              = Ok [Satisfies (mkSatisfiesEntry (Some "2.1.0") (VBool true) false false
                                 false false (VBool false) true);
                    Latest (mkLatestEntry "2.0.0" (VBool false));
                    Tagged (mkTag "beta" "3.0.0-beta.2")])
    by (vm_compute; reflexivity).
  destruct (buildTagsFromVersionMap_satisfies_flags formatTagNameRegex_exec _ _ _ H)
    as (satisfiesEntry & rest & E & Hv & Hp & _ & Hi & _).
  exists satisfiesEntry, rest. repeat split; try assumption; apply Hi.
Defined.

Lemma buildTagsFromVersionMap_latest_flag_witness :
  first_version
    (mkVersionMap ["2.0.0"; "2.1.0"]
       [mkTag "beta" "3.0.0-beta.2"; mkTag "beta" "3.0.0-beta.1"] (Some "2.1.0"))
  = Ok "2.0.0" /\
  exists older,
    isOlderVersion "2.0.0" "^2.0.0" = Ok older /\
    VBool false = VBool older.
Proof.
  assert (H : buildTagsFromVersionMap formatTagNameRegex_exec
                (mkVersionMap ["2.0.0"; "2.1.0"]
                   [mkTag "beta" "3.0.0-beta.2"; mkTag "beta" "3.0.0-beta.1"]
                   (Some "2.1.0"))
                "^2.0.0"
              = Ok [Satisfies (mkSatisfiesEntry (Some "2.1.0") (VBool true) false false
                                 false false (VBool false) true);
                    Latest (mkLatestEntry "2.0.0" (VBool false));
                    Tagged (mkTag "beta" "3.0.0-beta.2")])
    by (vm_compute; reflexivity).
  assert (Hin : In (Latest (mkLatestEntry "2.0.0" (VBool false)))
                  [Satisfies (mkSatisfiesEntry (Some "2.1.0") (VBool true) false false
                                false false (VBool false) true);
                   Latest (mkLatestEntry "2.0.0" (VBool false));
                   Tagged (mkTag "beta" "3.0.0-beta.2")])
    by (right; left; reflexivity).
  destruct (buildTagsFromVersionMap_latest_flag formatTagNameRegex_exec _ _ _ _ H Hin)
    as (Hf & _ & _ & Ho).
  split; [exact Hf|]. apply Ho; [reflexivity|]. vm_compute. eauto.
Defined.

Lemma buildTagsFromVersionMap_trailing_tags_witness :
  exists satisfiesEntry primary others latestVersion,
    [Satisfies (mkSatisfiesEntry (Some "2.1.0") (VBool true) false false false
                  false (VBool false) true);
     Latest (mkLatestEntry "2.0.0" (VBool false));
     Tagged (mkTag "beta" "3.0.0-beta.2")]
    = Satisfies satisfiesEntry :: primary ++ map Tagged others /\
    (List.length others <= 2)%nat /\
    NoDup (map name others) /\
    Forall (fun t => name t <> "latest" /\ version t <> latestVersion) others.
Proof.
  assert (H : buildTagsFromVersionMap formatTagNameRegex_exec
                (mkVersionMap ["2.0.0"; "2.1.0"]
                   [mkTag "beta" "3.0.0-beta.2"; mkTag "beta" "3.0.0-beta.1"]
                   (Some "2.1.0"))
                "^2.0.0"
              = Ok [Satisfies (mkSatisfiesEntry (Some "2.1.0") (VBool true) false false
                                 false false (VBool false) true);
                    Latest (mkLatestEntry "2.0.0" (VBool false));
                    Tagged (mkTag "beta" "3.0.0-beta.2")])
    by (vm_compute; reflexivity).
  destruct (buildTagsFromVersionMap_trailing_tags formatTagNameRegex_exec _ _ _ H)
    as (satisfiesEntry & primary & others & latestVersion & E & _ & _ & Hlen & Hd & F).
  exists satisfiesEntry, primary, others, latestVersion.
  split; [exact E|]. split; [exact Hlen|]. split; [exact Hd|].
  eapply Forall_impl; [exact F|]. intros t (Hn & _ & _ & Hl). split; assumption.
Defined.

Lemma makeVersionCommand_versions_witness :
  makeVersionCommand (mkAppConfig "^" "update" "versionlens" "open") (fun _ => None)
    "1.0.0" "1.2.0" (mkCodeLensItem (fun v => v) "registry" "" "1.0.0" None)
  = Ok (makeNewVersionCommand (mkAppConfig "^" "update" "versionlens" "open") "1.2.0"
          (mkCodeLensItem (fun v => v) "registry" "" "1.0.0" None)) /\
  makeVersionCommand (mkAppConfig "^" "update" "versionlens" "open") (fun _ => None)
    "1.2.0" "1.0.0" (mkCodeLensItem (fun v => v) "registry" "" "1.2.0" None)
  = Ok (makeNewVersionCommand (mkAppConfig "^" "update" "versionlens" "open") "1.0.0"
          (mkCodeLensItem (fun v => v) "registry" "" "1.2.0" None)).
Proof.
  split.
  - assert (H1 : semver.parse "1.0.0" = Some (semver.mkSemVer 1 0 0 []))
      by (vm_compute; reflexivity).
    assert (H2 : semver.SemVer_new "1.0.0" = Some (semver.mkSemVer 1 0 0 []))
      by (vm_compute; reflexivity).
    assert (H3 : "1.0.0" <> "latest") by discriminate.
    assert (H4 : is_Some (semver.parse "1.2.0") \/ is_Some (semver.Range_new "1.2.0")
                 \/ "1.2.0" = "latest") by (left; vm_compute; eauto).
    destruct (makeVersionCommand_versions
                (mkAppConfig "^" "update" "versionlens" "open") (fun _ => None)
                "1.0.0" "1.2.0" (mkCodeLensItem (fun v => v) "registry" "" "1.0.0" None)
                _ H1 H2 H3 H4) as [H _].
    apply (H (semver.mkSemVer 1 2 0 [])). vm_compute. reflexivity.
  - assert (H1 : semver.parse "1.2.0" = Some (semver.mkSemVer 1 2 0 []))
      by (vm_compute; reflexivity).
    assert (H2 : semver.SemVer_new "1.2.0" = Some (semver.mkSemVer 1 2 0 []))
      by (vm_compute; reflexivity).
    assert (H3 : "1.2.0" <> "latest") by discriminate.
    assert (H4 : is_Some (semver.parse "1.0.0") \/ is_Some (semver.Range_new "1.0.0")
                 \/ "1.0.0" = "latest") by (left; vm_compute; eauto).
    destruct (makeVersionCommand_versions
                (mkAppConfig "^" "update" "versionlens" "open") (fun _ => None)
                "1.2.0" "1.0.0" (mkCodeLensItem (fun v => v) "registry" "" "1.2.0" None)
                _ H1 H2 H3 H4) as [H _].
    apply (H (semver.mkSemVer 1 0 0 [])). vm_compute. reflexivity.
Defined.

Lemma makeVersionCommand_range_witness :
  makeVersionCommand (mkAppConfig "^" "update" "versionlens" "open")
    (fun _ => Some (Some "1.0.0"))
    "^1.0.0" "1.2.0" (mkCodeLensItem (fun v => v) "registry" "" "^1.0.0" None)
  = Ok (makeSatisfiedWithNewerCommand (mkAppConfig "^" "update" "versionlens" "open")
          "1.2.0" (mkCodeLensItem (fun v => v) "registry" "" "^1.0.0" None)).
Proof.
  assert (H1 : semver.parse "^1.0.0" = None) by (vm_compute; reflexivity).
  assert (H2 : is_Some (semver.Range_new "^1.0.0")) by (vm_compute; eauto).
  assert (H3 : "^1.0.0" <> "latest") by discriminate.
  assert (H4 : is_Some (semver.parse "1.2.0") \/ is_Some (semver.Range_new "1.2.0")
               \/ "1.2.0" = "latest") by (left; vm_compute; eauto).
  destruct (makeVersionCommand_range
              (mkAppConfig "^" "update" "versionlens" "open")
              (fun _ => Some (Some "1.0.0"))
              "^1.0.0" "1.2.0" (mkCodeLensItem (fun v => v) "registry" "" "^1.0.0" None)
              H1 H2 H3 H4) as (_ & H & _).
  apply H. vm_compute. reflexivity.
Defined.

Lemma makeVersionCommand_sets_command_witness :
  exists c,
    makeNewVersionCommand (mkAppConfig "^" "update" "versionlens" "open") "1.2.0"
      (mkCodeLensItem (fun v => v) "registry" "" "1.0.0" None)
    = set_command (mkCodeLensItem (fun v => v) "registry" "" "1.0.0" None) c.
Proof.
  assert (H : makeVersionCommand (mkAppConfig "^" "update" "versionlens" "open")
                (fun _ => None) "1.0.0" "1.2.0"
                (mkCodeLensItem (fun v => v) "registry" "" "1.0.0" None)
              = Ok (makeNewVersionCommand
                      (mkAppConfig "^" "update" "versionlens" "open") "1.2.0"
                      (mkCodeLensItem (fun v => v) "registry" "" "1.0.0" None)))
    by (vm_compute; reflexivity).
  destruct (makeVersionCommand_sets_command _ _ _ _ _ _ H) as (c & Hc & _).
  exists c. exact Hc.
Defined.

Lemma Heap_stages_allocate_witness :
  let elements := [mkTag "beta" "3.0.0-beta.1"; mkTag "rc" "3.0.0-rc.1";
                   mkTag "beta" "3.0.0-beta.2"] in
  let h : Heap.heap := {[ 0%nat := elements ]} in
  run_spec h h (Heap.removeOlderVersions 0%nat "^2.0.0")
    (removeOlderVersions elements "^2.0.0") /\
  run_spec h h (Heap.removeExactVersions 0%nat (Some "3.0.0-rc.1"))
    (Ok (removeExactVersions elements (Some "3.0.0-rc.1"))) /\
  run_spec h h (Heap.removeTagsWithName 0%nat "latest")
    (Ok (removeTagsWithName elements "latest")) /\
  run_spec h h (Heap.removeAmbiguousTagNames formatTagNameRegex_exec 0%nat)
    (Ok (removeAmbiguousTagNames formatTagNameRegex_exec elements)) /\
  run_spec h h (Heap.reduceTagsByUniqueNames 0%nat)
    (Ok (reduceTagsByUniqueNames elements)).
Proof.
  intros elements h.
  assert (Hin : h !! 0%nat = Some elements) by reflexivity.
  exact (Heap_stages_allocate formatTagNameRegex_exec h 0%nat elements "^2.0.0"
           (Some "3.0.0-rc.1") "latest" Hin).
Defined.

Lemma classification_returns_witness :
  exists versionMap out,
    buildMapFromVersionList formatTagNameRegex_exec
      ["1.0.0"; "1.1.0"; "2.0.0-beta.1"] "^1.0.0" = Ok versionMap /\
    buildTagsFromVersionMap formatTagNameRegex_exec versionMap "^1.0.0" = Ok out.
Proof.
  apply (classification_returns formatTagNameRegex_exec
           ["1.0.0"; "1.1.0"; "2.0.0-beta.1"] "^1.0.0").
  - discriminate.
  - repeat (apply Forall_cons_2 || apply Forall_nil_2);
      (split; [discriminate|split; vm_compute; eauto]).
  - repeat (apply Forall_cons_2 || apply Forall_nil_2);
      (split; [intros _; unfold returns; vm_compute; eauto|]);
      repeat (apply Forall_cons_2 || apply Forall_nil_2);
      unfold returns; vm_compute; eauto.
Defined.

Lemma invalid_request_is_no_match_witness :
  exists versionMap,
    buildMapFromVersionList formatTagNameRegex_exec ["1.0.0"; "1.1.0"] "not a range"
    = Ok versionMap /\
    maxSatisfyingVersion versionMap = None.
Proof.
  assert (H : semver.Range_new "not a range" = None) by (vm_compute; reflexivity).
  destruct (invalid_request_is_no_match formatTagNameRegex_exec
              ["1.0.0"; "1.1.0"] "not a range" H) as (versionMap & E & Hm & _).
  exists versionMap. split; assumption.
Defined.

Lemma filterTagsByName_case_insensitive_witness :
  In (Tagged (mkTag "beta" "1.0.0-beta.1"))
    (filterTagsByName
       [Tagged (mkTag "beta" "1.0.0-beta.1"); Tagged (mkTag "rc" "1.0.0-rc.1")]
       ["BETA"]).
Proof.
  assert (H1 : Forall (fun t => ascii_text (tag_name t) = true)
                 [Tagged (mkTag "beta" "1.0.0-beta.1"); Tagged (mkTag "rc" "1.0.0-rc.1")])
    by (repeat (apply Forall_cons_2 || apply Forall_nil_2); reflexivity).
  assert (H2 : Forall (fun n => ascii_text n = true) ["BETA"])
    by (repeat (apply Forall_cons_2 || apply Forall_nil_2); reflexivity).
  destruct (filterTagsByName_case_insensitive _ _ H1 H2) as (_ & M & _).
  apply M. split; [left; reflexivity|].
  exists "BETA". split; [left; reflexivity|].
  apply toLowerCase_eq_iff. reflexivity.
Defined.

Lemma dotnetPackageParser_then_packages_witness :
  exists satisfiesEntry primary others kept,
    (let! versionMap :=
       buildMapFromVersionList formatTagNameRegex_exec
         ["1.0.0"; "1.1.0"; "2.0.0-beta.1"; "2.0.0-rc.1"] "^1.0.0" in
     buildTagsFromVersionMap formatTagNameRegex_exec versionMap "^1.0.0")
    = Ok (Satisfies satisfiesEntry :: primary ++ map Tagged others) /\
    sublist kept others /\
    (forall t, In t kept <->
       In t others /\
       (same_ignoring_case (name t) "satisfies"
        \/ (se_isLatestVersion satisfiesEntry = false
            /\ same_ignoring_case (name t) "latest")
        \/ exists n, In n ["BETA"] /\ same_ignoring_case (name t) n)).
Proof.
  assert (H1 : Forall (fun n => ascii_text n = true) ["BETA"])
    by (repeat (apply Forall_cons_2 || apply Forall_nil_2); reflexivity).
  assert (H2 : forall out,
             (let! versionMap :=
                buildMapFromVersionList formatTagNameRegex_exec
                  ["1.0.0"; "1.1.0"; "2.0.0-beta.1"; "2.0.0-rc.1"] "^1.0.0" in
              buildTagsFromVersionMap formatTagNameRegex_exec versionMap "^1.0.0")
             = Ok out ->
             Forall (fun t => ascii_text (tag_name t) = true) out).
  { intros out H. vm_compute in H. injection H as <-.
    repeat (apply Forall_cons_2 || apply Forall_nil_2); reflexivity. }
  assert (R : returns
                (dotnetPackageParser_then formatTagNameRegex_exec
                   (string * string * PackageInfo)
                   (fun n r i => (n, r, i))
                   "Newtonsoft.Json" "^1.0.0" true ["BETA"]
                   ["1.0.0"; "1.1.0"; "2.0.0-beta.1"; "2.0.0-rc.1"]))
    by (unfold returns; vm_compute; eauto).
  destruct R as [packages E].
  destruct (dotnetPackageParser_then_packages formatTagNameRegex_exec
              (string * string * PackageInfo) (fun n r i => (n, r, i))
              "Newtonsoft.Json" "^1.0.0" true ["BETA"]
              ["1.0.0"; "1.1.0"; "2.0.0-beta.1"; "2.0.0-rc.1"] H1 H2) as [Hp _].
  destruct (Hp packages E)
    as (satisfiesEntry & primary & others & kept & Hx & _ & _ & Hs & _ & _ & Hk).
  exists satisfiesEntry, primary, others, kept.
  split; [exact Hx|]. split; [exact Hs|].
  apply Hk; [reflexivity|discriminate].
Defined.
